(** * gox: cross-compilation dispatcher and legacy toolchain bootstrap

    A shallow embedding of [goxlib] (the toolchain file with
    [mainBuildToolchain] / [BuildToolchain], and the file with
    [CrossCompile]).

    - The sequential part of each entry point is a function in a small
      trace-and-early-return monad ([Prog]): it records the collaborator
      calls and the lines printed, and either returns to the caller or
      hands a build plan to the concurrent part.
    - The concurrent part (goroutines, the buffered channel used as a
      semaphore, [sync.WaitGroup], the two [sync.Mutex]es, [defer] stacks,
      the verbose pipe with its reader goroutine) is an interleaving
      machine: an executable [step] function from a thread identifier and
      a state to the next state ([None] when that thread is blocked or has
      finished), run over a schedule.

    Go values: [int] is [Z] (the only arithmetic is [cpus - 1] under
    [cpus >= 2]); [string] is [string]; [error] is a message, [nil] is
    [None]; a slice is a list, a nil slice result is [None]. *)

From Stdlib Require Import ZArith String List Lia Bool.

From stdpp Require Import base tactics option list list_numbers strings pretty.

Open Scope string_scope.

Open Scope Z_scope.

Open Scope list_scope.

(** * Part I: the model *)

(** ** Go values *)

Definition error := string.

(** The newline character of Go's ["\n"]. *)
Definition nl : string := String (Ascii.ascii_of_nat 10) EmptyString.

(** [fmt.Sprintf("%d", n)] *)
Definition fmt_d (n : Z) : string := pretty n.

(** [fmt.Sprintf("%15s", s)]: right-justified in a field of width 15. *)
Fixpoint spaces (n : nat) : string :=
  match n with
  | O => EmptyString
  | S k => " " +:+ spaces k
  end.

Definition fmt_15s (s : string) : string :=
  spaces (15 - String.length s) +:+ s.

(** ** Platform Model *)

Record Platform := { OS : string; Arch : string }.

(** Modelled from the spec: [Platform.String] is declared in a file that
    is not part of the sources at hand; the canonical string form is
    ["OS/Arch"]. *)
Definition Platform_String (p : Platform) : string :=
  OS p +:+ "/" +:+ Arch p.

(** Modelled from the spec: the declaration of [PlatformFlag] is missing;
    it holds the three selector lists filled by [-os], [-arch], [-osarch].
    Its method [Platforms] is a collaborator (see [World]). *)
Record PlatformFlag := {
  pf_OS : list string;
  pf_Arch : list string;
  pf_OSArch : list string
}.

(** The fields of [CompileOpts] that [CrossCompile] fills in. *)
Record CompileOpts := {
  PackagePath : string;
  co_Platform : Platform;
  OutputTpl : string;
  Ldflags : string;
  Gcflags : string;
  Tags : string;
  Cgo : bool;
  Rebuild : bool;
  GoCmd : string
}.

(** The package-level flag variables, as [flags.Parse] leaves them, and the
    positional arguments [flags.Args()]. *)
Record Flags := {
  buildToolchain : bool;
  ldflags : string;
  outputTpl : string;
  parallel : Z;
  platformFlag : PlatformFlag;
  tags : string;
  verbose : bool;
  flagGcflags : string;
  flagCgo : bool;
  flagRebuild : bool;
  flagListOSArch : bool;
  flagGoCmd : string;
  flag_Args : list string
}.

(** What one run of the platform build script does: [cmd.Start] may fail;
    otherwise the process writes its output and exits, and [cmd.Wait]
    reports the exit status. *)
Record Script := {
  sc_start_err : option error;
  sc_lines : list string;      (* combined stdout+stderr, line by line *)
  sc_stdout : string;          (* what reaches the stdout buffer *)
  sc_stderr : string;          (* what reaches the stderr buffer *)
  sc_wait_err : option error
}.

(** ** Collaborators

    Everything the two entry points consume through a narrow interface:
    the Go runtime, the process environment, the helper functions of the
    package that live in other files, and the external processes. A Go
    function returning [(T, error)] is a pair. *)
Record World := {
  flags_Parse : Flags * option error;
  runtime_NumCPU : Z;
  runtime_GOOS : string;
  (* the largest [n] for which [make(chan int, n)] succeeds; the runtime
     panics beyond it. It is at least 1, so the channel of capacity 1 of
     [mainBuildToolchain] can always be made. *)
  runtime_makechan_max : positive;
  os_PathSeparator : string;
  filepath_Join : string -> string -> string;
  exec_LookPath : string -> string * option error;
  GoVersionParts : list Z * option error;
  GoVersion : string * option error;
  GoRoot : string * option error;
  SupportedPlatforms : string -> list Platform;
  Platforms : PlatformFlag -> list Platform -> list Platform;
  GoMainDirs : list string -> string -> list string * option error;
  mainListOSArch : string -> option error;
  envOverride : string -> Platform -> string -> string;
  GoCrossCompile : CompileOpts -> string * option error;
  run_script : string -> string -> Platform -> Script
}.

(** ** Observable events *)

Inductive event :=
| Stdout (s : string)
| Stderr (s : string)
| EvLookPath (cmd : string)
| EvGoVersionParts
| EvGoVersion
| EvGoRoot
| EvPlatforms (version : string)
| EvGoMainDirs
| EvListOSArch
| EvGo (i : nat)                    (* [go func(...)]: goroutine [i] spawned *)
| EvCompile (i : nat) (o : CompileOpts)   (* [GoCrossCompile(opts)] invoked *)
| EvCompiled (i : nat)              (* ... and returned *)
| EvStart (i : nat) (script dir : string)  (* [cmd.Start()] *)
| EvWait (i : nat).                 (* [cmd.Wait()] returned *)

(** ** Sequential code: trace plus early return *)

Inductive flow (R A : Type) :=
| Next (a : A)          (* fall through to the next statement *)
| Return (r : R)        (* [return r] *)
| Panic (msg : string). (* run-time panic *)

Arguments Next {R A} a.

Arguments Return {R A} r.

Arguments Panic {R A} msg.

Definition Prog (R A : Type) : Type := list event * flow R A.

Definition pure {R A} (a : A) : Prog R A := ([], Next a).

Definition ret {R A} (r : R) : Prog R A := ([], Return r).

Definition panic {R A} (m : string) : Prog R A := ([], Panic m).

Definition emit {R} (e : event) : Prog R unit := ([e], Next tt).

Definition bind {R A B} (m : Prog R A) (k : A -> Prog R B) : Prog R B :=
  match m with
  | (t, Next a) => let '(t', f) := k a in (t ++ t', f)
  | (t, Return r) => (t, Return r)
  | (t, Panic msg) => (t, Panic msg)
  end.

Notation "'let*' x ':=' m 'in' k" := (bind m (fun x => k))
  (at level 10, x name, m at level 100, k at level 200, only parsing).

Notation "m ;;; k" := (bind m (fun _ => k))
  (at level 100, k at level 200, right associativity, only parsing).

(** [xs[i]] on a slice: out of range is a run-time panic. *)
Definition index {R} (xs : list Z) (i : nat) : Prog R Z :=
  match xs !! i with
  | Some x => pure x
  | None => panic "index out of range"
  end.

(** ** Effective parallelism ([CrossCompile], the [-parallel] block) *)

Definition resolveParallel (parallel cpus : Z) (goos : string) : Z :=
  if parallel <=? 0 then
    let parallel := if cpus <? 2 then 1 else cpus - 1 in
    if String.eqb goos "solaris" then 3 else parallel
  else parallel.

(** ** Threads and schedules

    A schedule is the order in which the threads take their next atomic
    step. [Worker i] is the [i]-th goroutine started by the fan-out loop;
    [Reader i] is the goroutine that drains worker [i]'s verbose pipe;
    [Process i] is the external process worker [i] has started. *)

Inductive tid :=
| Main
| Worker (i : nat)
| Reader (i : nat)
| Process (i : nat).

Definition b2n (b : bool) : nat := if b then 1%nat else 0%nat.

(** The result of an entry point under a schedule. *)
Inductive outcome (R : Type) :=
| Returned (t : list event) (r : R)
| Panicked (t : list event) (msg : string)
| Unfinished.                  (* the schedule ends, or names a blocked thread, before the return *)

Arguments Returned {R} t r.

Arguments Panicked {R} t msg.

Arguments Unfinished {R}.

(** * Toolchain Bootstrap Orchestrator *)

Module Toolchain.

(** What the sequential part of [mainBuildToolchain] hands to the fan-out:
    the values of its locals when the semaphore is made. *)
Record plan := {
  pl_root : string;
  pl_platforms : list Platform;
  pl_verbose : bool;
  pl_parallel : Z;
  pl_err : option error
}.

Definition msg_not_needed : string :=
  "-build-toolchain is no longer required for Go 1.5 or later." +:+ nl +:+
  "You can start using Gox immediately!" +:+ nl.

Definition serial_notice : list event :=
  [ Stdout ("The toolchain build can't be parallelized because compiling a single" +:+ nl);
    Stdout ("Go source directory can only be done for one platform at a time. Therefore," +:+ nl);
    Stdout ("the toolchain for each platform will be built one at a time." +:+ nl +:+ nl) ].

Definition emits {R} (es : list event) : Prog R unit := (es, Next tt).

(** [mainBuildToolchain], from its first line to [parallel = 1]. *)
Definition prefix (W : World) (parallel : Z) (platformFlag : PlatformFlag)
    (verbose : bool) : Prog (option error) plan :=
  emit (EvLookPath "go") ;;;
  let '(_, err) := exec_LookPath W "go" in
  match err with
  | Some _ =>
      emit (Stderr ("You must have Go already built for your native platform" +:+ nl)) ;;;
      emit (Stderr ("and the `go` binary on the PATH to build toolchains." +:+ nl)) ;;;
      ret err
  | None =>
  emit EvGoVersionParts ;;;
  let '(versionParts, err) := GoVersionParts W in
  match err with
  | Some e => emit (Stderr ("error reading Go version: " +:+ e)) ;;; ret err
  | None =>
  let* v0 := index versionParts 0 in
  let* modern := (if 1 <=? v0
                  then (let* v1 := index versionParts 1 in pure (5 <=? v1))
                  else pure false) in
  if modern : bool then emit (Stderr msg_not_needed) ;;; ret err
  else
  emit EvGoVersion ;;;
  let '(version, err) := GoVersion W in
  match err with
  | Some e => emit (Stderr ("error reading Go version: " +:+ e)) ;;; ret err
  | None =>
  emit EvGoRoot ;;;
  let '(root, err) := GoRoot W in
  match err with
  | Some e => emit (Stderr ("error finding GOROOT: " +:+ e +:+ nl)) ;;; ret err
  | None =>
  (if verbose
   then emits [ Stdout ("Verbose mode enabled. Output from building each toolchain will be" +:+ nl);
                Stdout ("outputted to stdout as they are built." +:+ nl +:+ nl) ]
   else pure tt) ;;;
  emit (EvPlatforms version) ;;;
  let platforms := Platforms W platformFlag (SupportedPlatforms W version) in
  (if 1 <? parallel then emits serial_notice else pure tt) ;;;
  let parallel := 1 in
  pure {| pl_root := root; pl_platforms := platforms; pl_verbose := verbose;
          pl_parallel := parallel; pl_err := err |}
  end end end end.

(** ** The fan-out of [mainBuildToolchain] and [BuildToolchain] *)

(** Deferred calls, in the order they are pushed. *)
Inductive deferred :=
| D_wg_done      (* [defer wg.Done()] *)
| D_release      (* [defer func() { <-semaphore }()] *)
| D_drain        (* [defer func() { w.Close(); <-doneCh }()] *)
| D_unlock.      (* [defer errorLock.Unlock()] *)

(** Program points of the goroutine started for one platform. [G_] points
    are in the goroutine's closure, [B_] points inside its call of
    [BuildToolchain]. Each names the statement executed next. *)
Inductive gpc :=
| G_call           (* [BuildToolchain(...)]: enter, [defer wg.Done()] *)
| B_acquire        (* [semaphore <- 1] *)
| B_defer_release  (* [defer func() { <-semaphore }()] *)
| B_setup          (* [Printf], script name, [exec.Command], [if verbose] *)
| B_pipe           (* [io.Pipe()], [make(chan struct{})], [go func() {...}()] *)
| B_defer_drain    (* [defer func() { w.Close(); <-doneCh }()] *)
| B_start          (* [cmd.Start()] *)
| B_wait           (* [cmd.Wait()] *)
| B_return         (* [BuildToolchain] returns: run its deferred calls *)
| B_drain_wait     (* inside the deferred drain, after [w.Close()]: [<-doneCh] *)
| G_check          (* [if err != nil] *)
| G_lock           (* [errorLock.Lock()] *)
| G_defer_unlock   (* [defer errorLock.Unlock()] *)
| G_append         (* [errs = append(errs, ...)] *)
| G_return         (* the closure returns: run its deferred calls *)
| G_exited.

(** Program points of the reader goroutine of the verbose mode. *)
Inductive rpc :=
| R_none           (* not started *)
| R_loop           (* [for line := range iochan.DelimReader(r, '\n')] *)
| R_close          (* loop left at end-of-stream: [close(doneCh)] *)
| R_exited.

Record worker := {
  w_platform : Platform;
  w_pc : gpc;
  w_defers : list deferred;
  w_err : option error;           (* the [err] of the closure *)
  w_proc : option (list string);  (* a started process: lines still to write *)
  w_pipe : list string;           (* written to [w], not yet read from [r] *)
  w_wclosed : bool;               (* [w.Close()] done *)
  w_rpc : rpc;
  w_done : bool;                  (* [doneCh] closed *)
  w_printed : list string         (* lines the reader has printed *)
}.

Definition new_worker (p : Platform) : worker :=
  {| w_platform := p; w_pc := G_call; w_defers := []; w_err := None;
     w_proc := None; w_pipe := []; w_wclosed := false; w_rpc := R_none;
     w_done := false; w_printed := [] |}.

Definition set_pc (pc : gpc) (w : worker) : worker :=
  {| w_platform := w_platform w; w_pc := pc; w_defers := w_defers w;
     w_err := w_err w; w_proc := w_proc w; w_pipe := w_pipe w;
     w_wclosed := w_wclosed w; w_rpc := w_rpc w; w_done := w_done w;
     w_printed := w_printed w |}.

Definition set_defers (ds : list deferred) (w : worker) : worker :=
  {| w_platform := w_platform w; w_pc := w_pc w; w_defers := ds;
     w_err := w_err w; w_proc := w_proc w; w_pipe := w_pipe w;
     w_wclosed := w_wclosed w; w_rpc := w_rpc w; w_done := w_done w;
     w_printed := w_printed w |}.

Definition set_err (e : option error) (w : worker) : worker :=
  {| w_platform := w_platform w; w_pc := w_pc w; w_defers := w_defers w;
     w_err := e; w_proc := w_proc w; w_pipe := w_pipe w;
     w_wclosed := w_wclosed w; w_rpc := w_rpc w; w_done := w_done w;
     w_printed := w_printed w |}.

Definition set_proc (p : option (list string)) (w : worker) : worker :=
  {| w_platform := w_platform w; w_pc := w_pc w; w_defers := w_defers w;
     w_err := w_err w; w_proc := p; w_pipe := w_pipe w;
     w_wclosed := w_wclosed w; w_rpc := w_rpc w; w_done := w_done w;
     w_printed := w_printed w |}.

Definition set_pipe (q : list string) (w : worker) : worker :=
  {| w_platform := w_platform w; w_pc := w_pc w; w_defers := w_defers w;
     w_err := w_err w; w_proc := w_proc w; w_pipe := q;
     w_wclosed := w_wclosed w; w_rpc := w_rpc w; w_done := w_done w;
     w_printed := w_printed w |}.

Definition set_wclosed (b : bool) (w : worker) : worker :=
  {| w_platform := w_platform w; w_pc := w_pc w; w_defers := w_defers w;
     w_err := w_err w; w_proc := w_proc w; w_pipe := w_pipe w;
     w_wclosed := b; w_rpc := w_rpc w; w_done := w_done w;
     w_printed := w_printed w |}.

Definition set_rpc (r : rpc) (w : worker) : worker :=
  {| w_platform := w_platform w; w_pc := w_pc w; w_defers := w_defers w;
     w_err := w_err w; w_proc := w_proc w; w_pipe := w_pipe w;
     w_wclosed := w_wclosed w; w_rpc := r; w_done := w_done w;
     w_printed := w_printed w |}.

Definition set_done (b : bool) (w : worker) : worker :=
  {| w_platform := w_platform w; w_pc := w_pc w; w_defers := w_defers w;
     w_err := w_err w; w_proc := w_proc w; w_pipe := w_pipe w;
     w_wclosed := w_wclosed w; w_rpc := w_rpc w; w_done := b;
     w_printed := w_printed w |}.

Definition set_printed (l : list string) (w : worker) : worker :=
  {| w_platform := w_platform w; w_pc := w_pc w; w_defers := w_defers w;
     w_err := w_err w; w_proc := w_proc w; w_pipe := w_pipe w;
     w_wclosed := w_wclosed w; w_rpc := w_rpc w; w_done := w_done w;
     w_printed := l |}.

Definition push (d : deferred) (w : worker) : worker :=
  set_defers (d :: w_defers w) w.

(** Program points of [mainBuildToolchain] in the fan-out. *)
Inductive mpc :=
| M_add (p : Platform) (rest : list Platform)  (* loop body: [wg.Add(1)] *)
| M_go (p : Platform) (rest : list Platform)   (* [go func(platform) {...}(platform)] *)
| M_wait                                       (* [wg.Wait()] *)
| M_read                                       (* [if len(errs) > 0 {...}] *)
| M_ret (r : option error).                    (* returned [r] *)

Definition loop_head (todo : list Platform) : mpc :=
  match todo with
  | [] => M_wait
  | p :: rest => M_add p rest
  end.

Record state := {
  st_main : mpc;
  st_workers : list worker;
  st_sem : nat;             (* number of items in the channel's buffer *)
  st_wg : Z;                (* the WaitGroup counter *)
  st_errorLock : bool;      (* is [errorLock] held *)
  st_errs : list error;
  st_trace : list event
}.

Definition init (pl : plan) (t0 : list event) : state :=
  {| st_main := loop_head (pl_platforms pl); st_workers := [];
     st_sem := 0; st_wg := 0; st_errorLock := false; st_errs := [];
     st_trace := t0 |}.

Definition with_main (m : mpc) (s : state) : state :=
  {| st_main := m; st_workers := st_workers s; st_sem := st_sem s;
     st_wg := st_wg s; st_errorLock := st_errorLock s; st_errs := st_errs s;
     st_trace := st_trace s |}.

Definition with_workers (ws : list worker) (s : state) : state :=
  {| st_main := st_main s; st_workers := ws; st_sem := st_sem s;
     st_wg := st_wg s; st_errorLock := st_errorLock s; st_errs := st_errs s;
     st_trace := st_trace s |}.

Definition with_sem (n : nat) (s : state) : state :=
  {| st_main := st_main s; st_workers := st_workers s; st_sem := n;
     st_wg := st_wg s; st_errorLock := st_errorLock s; st_errs := st_errs s;
     st_trace := st_trace s |}.

Definition with_wg (n : Z) (s : state) : state :=
  {| st_main := st_main s; st_workers := st_workers s; st_sem := st_sem s;
     st_wg := n; st_errorLock := st_errorLock s; st_errs := st_errs s;
     st_trace := st_trace s |}.

Definition with_lock (b : bool) (s : state) : state :=
  {| st_main := st_main s; st_workers := st_workers s; st_sem := st_sem s;
     st_wg := st_wg s; st_errorLock := b; st_errs := st_errs s;
     st_trace := st_trace s |}.

Definition with_errs (l : list error) (s : state) : state :=
  {| st_main := st_main s; st_workers := st_workers s; st_sem := st_sem s;
     st_wg := st_wg s; st_errorLock := st_errorLock s; st_errs := l;
     st_trace := st_trace s |}.

Definition logs (es : list event) (s : state) : state :=
  {| st_main := st_main s; st_workers := st_workers s; st_sem := st_sem s;
     st_wg := st_wg s; st_errorLock := st_errorLock s; st_errs := st_errs s;
     st_trace := st_trace s ++ es |}.

Definition with_worker (i : nat) (w : worker) (s : state) : state :=
  with_workers (<[i := w]> (st_workers s)) s.

(** [%s] applied to an [error] value. *)
Definition err_text (e : option error) : string :=
  match e with
  | Some m => m
  | None => "%!s(<nil>)"
  end.

Section Machine.

Variable W : World.

Variable pl : plan.

(** [make(chan int, parallel)] *)
Definition capacity : nat := Z.to_nat (pl_parallel pl).

Definition scriptName : string :=
  if String.eqb (runtime_GOOS W) "windows" then "make.bat" else "make.bash".

Definition scriptDir : string := filepath_Join W (pl_root pl) "src".

Definition scriptPath : string := filepath_Join W scriptDir scriptName.

(** The process started by [cmd.Start()] for platform [p]
    ([GOARCH], [GOOS] in its environment, [scriptDir] as directory). *)
Definition script_of (p : Platform) : Script :=
  run_script W scriptPath scriptDir p.

Definition start_error (p : Platform) (e : error) : error :=
  "Error building '" +:+ Platform_String p +:+ "': " +:+ e.

(** In verbose mode [cmd.Stdout] is the pipe, so the [stdout] buffer
    stays empty; [cmd.Stderr] still feeds the [stderr] buffer. *)
Definition wait_error (p : Platform) (sc : Script) : error :=
  "Error building '" +:+ Platform_String p +:+ "'." +:+ nl +:+ nl +:+
  "Stdout: " +:+ (if pl_verbose pl then EmptyString else sc_stdout sc) +:+ nl +:+ nl +:+
  "Stderr: " +:+ sc_stderr sc +:+ nl.

Definition step_worker (i : nat) (w : worker) (s : state) : option state :=
  let p := w_platform w in
  match w_pc w with
  | G_call =>
      Some (with_worker i (set_pc B_acquire (push D_wg_done w)) s)
  | B_acquire =>
      if decide (st_sem s < capacity)%nat
      then Some (with_sem (S (st_sem s)) (with_worker i (set_pc B_defer_release w) s))
      else None
  | B_defer_release =>
      Some (with_worker i (set_pc B_setup (push D_release w)) s)
  | B_setup =>
      Some (logs [Stdout ("--> Toolchain: " +:+ Platform_String p +:+ nl)]
             (with_worker i (set_pc (if pl_verbose pl then B_pipe else B_start) w) s))
  | B_pipe =>
      Some (with_worker i (set_pc B_defer_drain (set_rpc R_loop w)) s)
  | B_defer_drain =>
      Some (with_worker i (set_pc B_start (push D_drain w)) s)
  | B_start =>
      let sc := script_of p in
      match sc_start_err sc with
      | Some e =>
          Some (logs [EvStart i scriptPath scriptDir]
                 (with_worker i (set_pc B_return (set_err (Some (start_error p e)) w)) s))
      | None =>
          Some (logs [EvStart i scriptPath scriptDir]
                 (with_worker i (set_pc B_wait (set_proc (Some (sc_lines sc)) w)) s))
      end
  | B_wait =>
      match w_proc w with
      | Some [] =>
          let sc := script_of p in
          let r := match sc_wait_err sc with
                   | Some _ => Some (wait_error p sc)
                   | None => None
                   end in
          Some (logs [EvWait i] (with_worker i (set_pc B_return (set_err r w)) s))
      | _ => None
      end
  | B_return =>
      match w_defers w with
      | [] => Some (with_worker i (set_pc G_check w) s)
      | D_drain :: ds =>
          Some (with_worker i (set_pc B_drain_wait (set_wclosed true (set_defers ds w))) s)
      | D_release :: ds =>
          match st_sem s with
          | O => None
          | S n => Some (with_sem n (with_worker i (set_defers ds w) s))
          end
      | D_wg_done :: ds =>
          Some (with_wg (st_wg s - 1) (with_worker i (set_defers ds w) s))
      | D_unlock :: _ => None    (* never pushed by [BuildToolchain] *)
      end
  | B_drain_wait =>
      if w_done w then Some (with_worker i (set_pc B_return w) s) else None
  | G_check =>
      Some (with_worker i
              (set_pc (match w_err w with Some _ => G_lock | None => G_return end) w) s)
  | G_lock =>
      if st_errorLock s then None
      else Some (with_lock true (with_worker i (set_pc G_defer_unlock w) s))
  | G_defer_unlock =>
      Some (with_worker i (set_pc G_append (push D_unlock w)) s)
  | G_append =>
      Some (with_errs (st_errs s ++ [Platform_String p +:+ ": " +:+ err_text (w_err w)])
             (with_worker i (set_pc G_return w) s))
  | G_return =>
      match w_defers w with
      | [] => Some (with_worker i (set_pc G_exited w) s)
      | D_unlock :: ds => Some (with_lock false (with_worker i (set_defers ds w) s))
      | _ => None                (* never pushed by the closure *)
      end
  | G_exited => None
  end.

Definition step_reader (i : nat) (w : worker) (s : state) : option state :=
  match w_rpc w with
  | R_loop =>
      match w_pipe w with
      | l :: q =>
          Some (logs [Stdout (Platform_String (w_platform w) +:+ ": " +:+ l)]
                 (with_worker i (set_printed (w_printed w ++ [l]) (set_pipe q w)) s))
      | [] =>
          if w_wclosed w then Some (with_worker i (set_rpc R_close w) s) else None
      end
  | R_close => Some (with_worker i (set_rpc R_exited (set_done true w)) s)
  | _ => None
  end.

Definition step_process (i : nat) (w : worker) (s : state) : option state :=
  match w_proc w with
  | Some (l :: rest) =>
      Some (with_worker i
              (set_proc (Some rest)
                 (if pl_verbose pl then set_pipe (w_pipe w ++ [l]) w else w)) s)
  | _ => None
  end.

Definition report (errs : list error) : list event :=
  Stderr (nl +:+ fmt_d (Z.of_nat (length errs)) +:+ " errors occurred:" +:+ nl)
  :: map (fun e => Stderr (e +:+ nl)) errs.

Definition step_main (s : state) : option state :=
  match st_main s with
  | M_add p rest => Some (with_wg (st_wg s + 1) (with_main (M_go p rest) s))
  | M_go p rest =>
      Some (logs [EvGo (length (st_workers s))]
             (with_main (loop_head rest)
                (with_workers (st_workers s ++ [new_worker p]) s)))
  | M_wait => if decide (st_wg s = 0) then Some (with_main M_read s) else None
  | M_read =>
      if 0 <? Z.of_nat (length (st_errs s))
      then Some (logs (report (st_errs s)) (with_main (M_ret (pl_err pl)) s))
      else Some (with_main (M_ret None) s)
  | M_ret _ => None
  end.

Definition step (t : tid) (s : state) : option state :=
  match t with
  | Main => step_main s
  | Worker i => w ← st_workers s !! i; step_worker i w s
  | Reader i => w ← st_workers s !! i; step_reader i w s
  | Process i => w ← st_workers s !! i; step_process i w s
  end.

Fixpoint run (sched : list tid) (s : state) : option state :=
  match sched with
  | [] => Some s
  | t :: rest =>
      match step t s with
      | Some s' => run rest s'
      | None => None
      end
  end.

End Machine.

Definition mainBuildToolchain (W : World) (parallel : Z) (platformFlag : PlatformFlag)
    (verbose : bool) (sched : list tid) : outcome (option error) :=
  match prefix W parallel platformFlag verbose with
  | (t, Return r) => Returned t r
  | (t, Panic m) => Panicked t m
  | (t, Next pl) =>
      match run W pl sched (init pl t) with
      | Some s =>
          match st_main s with
          | M_ret r => Returned (st_trace s) r
          | _ => Unfinished
          end
      | None => Unfinished
      end
  end.

(** ** What the invariants of the fan-out are made of *)

Section Measures.

Variable W : World.
Variable pl : plan.

Definition is_release (d : deferred) : nat :=
  match d with D_release => 1 | _ => 0 end.

Definition is_unlock (d : deferred) : nat :=
  match d with D_unlock => 1 | _ => 0 end.

Definition is_wg_done (d : deferred) : nat :=
  match d with D_wg_done => 1 | _ => 0 end.

Definition is_drain (d : deferred) : nat :=
  match d with D_drain => 1 | _ => 0 end.

(** Permits of the semaphore held by a goroutine: from the send on the
    channel to the deferred receive. *)
Definition permit (w : worker) : nat :=
  (match w_pc w with B_defer_release => 1 | _ => 0 end
   + sum_list_with is_release (w_defers w))%nat.

Definition lock_held (w : worker) : nat :=
  (match w_pc w with G_defer_unlock => 1 | _ => 0 end
   + sum_list_with is_unlock (w_defers w))%nat.

Definition wg_owed (w : worker) : nat :=
  (match w_pc w with G_call => 1 | _ => 0 end
   + sum_list_with is_wg_done (w_defers w))%nat.

Definition main_owed (m : mpc) : nat :=
  match m with M_go _ _ => 1 | _ => 0 end.

(** The build script of this goroutine is running: [cmd.Start()] has
    succeeded and [cmd.Wait()] has not returned. *)
Definition running (w : worker) : nat :=
  match w_pc w with B_wait => 1 | _ => 0 end.

Definition full_stack : list deferred :=
  (if pl_verbose pl then [D_drain] else []) ++ [D_release; D_wg_done].

(** The defer stack at each program point. *)
Definition frame (w : worker) : Prop :=
  match w_pc w with
  | G_call => w_defers w = []
  | B_acquire | B_defer_release => w_defers w = [D_wg_done]
  | B_setup => w_defers w = [D_release; D_wg_done]
  | B_pipe | B_defer_drain | B_drain_wait =>
      pl_verbose pl = true /\ w_defers w = [D_release; D_wg_done]
  | B_start | B_wait => w_defers w = full_stack
  | B_return =>
      w_defers w = full_stack \/ w_defers w = [D_release; D_wg_done] \/
      w_defers w = [D_wg_done] \/ w_defers w = []
  | G_check | G_lock | G_defer_unlock | G_exited => w_defers w = []
  | G_append => w_defers w = [D_unlock]
  | G_return => w_defers w = [D_unlock] \/ w_defers w = []
  end.

Definition pre_pipe (pc : gpc) : bool :=
  match pc with
  | G_call | B_acquire | B_defer_release | B_setup | B_pipe => true
  | _ => false
  end.

Definition pre_start (pc : gpc) : bool :=
  match pc with
  | B_defer_drain | B_start => true
  | _ => pre_pipe pc
  end.

(** [BuildToolchain] has returned to the closure. *)
Definition returned (pc : gpc) : bool :=
  match pc with
  | G_check | G_lock | G_defer_unlock | G_append | G_return | G_exited => true
  | _ => false
  end.

(** The deferred drain ([w.Close(); <-doneCh]) has completed. *)
Definition drained (w : worker) : bool :=
  match w_pc w with
  | B_return => match sum_list_with is_drain (w_defers w) with O => true | _ => false end
  | pc => returned pc
  end.

(** [w.Close()] has been executed. *)
Definition closed_zone (w : worker) : bool :=
  match w_pc w with
  | B_drain_wait => true
  | _ => drained w
  end.

(** [cmd.Start()] has failed or [cmd.Wait()] has returned. *)
Definition finishing (pc : gpc) : bool :=
  match pc with
  | B_return | B_drain_wait => true
  | _ => returned pc
  end.

(** The lines the process writes in total. *)
Definition emitted (p : Platform) : list string :=
  match sc_start_err (script_of W pl p) with
  | Some _ => []
  | None => sc_lines (script_of W pl p)
  end.

Definition stream_ok (w : worker) : Prop :=
  (pre_start (w_pc w) = true -> w_proc w = None) /\
  (w_pc w = B_wait -> is_Some (w_proc w)) /\
  (is_Some (w_proc w) -> sc_start_err (script_of W pl (w_platform w)) = None) /\
  (finishing (w_pc w) = true ->
     w_proc w = match sc_start_err (script_of W pl (w_platform w)) with
                | Some _ => None
                | None => Some []
                end) /\
  if pl_verbose pl then
    (pre_pipe (w_pc w) = true ->
       w_rpc w = R_none /\ w_done w = false /\ w_wclosed w = false) /\
    match w_proc w with
    | Some rest => w_printed w ++ w_pipe w ++ rest = sc_lines (script_of W pl (w_platform w))
    | None => w_printed w = [] /\ w_pipe w = []
    end /\
    w_wclosed w = closed_zone w /\
    (w_rpc w = R_close \/ w_rpc w = R_exited -> w_wclosed w = true /\ w_pipe w = []) /\
    (w_done w = true -> w_rpc w = R_exited) /\
    (drained w = true -> w_done w = true)
  else
    w_rpc w = R_none /\ w_done w = false /\ w_wclosed w = false /\
    w_pipe w = [] /\ w_printed w = [].

Definition wf (w : worker) : Prop := frame w /\ stream_ok w.

(** What one step of a goroutine (or of its reader, or of its process)
    does to the shared state, seen from that goroutine. *)
Definition local_step (i : nat) (w : worker) (s s' : state) : Prop :=
  exists w',
    st_workers s' = <[i:=w']> (st_workers s) /\
    st_main s' = st_main s /\
    wf w' /\
    (st_sem s' + permit w = st_sem s + permit w')%nat /\
    (st_sem s' <= Nat.max (st_sem s) (capacity pl))%nat /\
    (b2n (st_errorLock s') + lock_held w = b2n (st_errorLock s) + lock_held w')%nat /\
    st_wg s' + Z.of_nat (wg_owed w) = st_wg s + Z.of_nat (wg_owed w').

Record Inv (s : state) : Prop := {
  inv_sem : st_sem s = sum_list_with permit (st_workers s);
  inv_cap : (st_sem s <= capacity pl)%nat;
  inv_lock : b2n (st_errorLock s) = sum_list_with lock_held (st_workers s);
  inv_wg : st_wg s = Z.of_nat (main_owed (st_main s) + sum_list_with wg_owed (st_workers s));
  inv_wf : Forall wf (st_workers s)
}.

End Measures.

End Toolchain.

(** * Parallel Build Dispatcher *)

Module Dispatcher.

Definition dquote : string := String (Ascii.ascii_of_nat 34) EmptyString.

Definition tab : string := String (Ascii.ascii_of_nat 9) EmptyString.

(** [ErrNoValidPlatforms] (a raw string literal that starts with a quote
    character and keeps its line breaks and indentation). *)
Definition ErrNoValidPlatforms : error :=
  dquote +:+ "No valid platforms to build for. If you specified a value" +:+ nl +:+
  tab +:+ tab +:+ "for the 'os', 'arch', or 'osarch' flags, make sure you're" +:+ nl +:+
  tab +:+ tab +:+ "using a valid value.".

(** A build job: one (unit path, platform) pair. *)
Definition job : Type := string * Platform.

(** The iteration order of the two nested [range] loops. *)
Definition jobs_of (platforms : list Platform) (mainDirs : list string) : list job :=
  flat_map (fun platform => map (fun path => (path, platform)) mainDirs) platforms.

(** What the sequential part of [CrossCompile] hands to the fan-out. *)
Record plan := {
  pl_flags : Flags;
  pl_parallel : Z;
  pl_platforms : list Platform;
  pl_mainDirs : list string;
  pl_err : option error          (* the function-level [err] *)
}.

(** Where [CrossCompile] goes after its sequential part. *)
Inductive route :=
| ToToolchain (parallel : Z) (f : Flags)   (* [return nil, mainBuildToolchain(...)] *)
| ToDispatch (pl : plan).

Definition result : Type := option (list string) * option error.

(** [make(chan int, n)]: the runtime panics when [n] is negative or too
    large. *)
Definition makechan_ok (W : World) (n : Z) : bool :=
  (0 <=? n) && (n <=? Z.pos (runtime_makechan_max W)).

(** [CrossCompile], from its first line to the creation of the semaphore
    ([make(chan int, parallel)]) before the fan-out. *)
Definition prefix (W : World) : Prog result route :=
  let '(f, err) := flags_Parse W in
  match err with
  | Some _ => ret (None, err)
  | None =>
  let parallel := resolveParallel (parallel f) (runtime_NumCPU W) (runtime_GOOS W) in
  if buildToolchain f then pure (ToToolchain parallel f)
  else
  emit (EvLookPath (flagGoCmd f)) ;;;
  let '(_, err) := exec_LookPath W (flagGoCmd f) in
  match err with
  | Some _ => ret (None, Some (flagGoCmd f +:+ " executable must be on the PATH" +:+ nl))
  | None =>
  emit EvGoVersion ;;;
  let '(version, err) := GoVersion W in
  match err with
  | Some e => ret (None, Some ("error reading Go version: " +:+ e))
  | None =>
  if flagListOSArch f then emit EvListOSArch ;;; ret (None, mainListOSArch W version)
  else
  let packages := flag_Args f in
  let packages := if (length packages =? 0)%nat then ["."] else packages in
  emit EvGoMainDirs ;;;
  let '(mainDirs, err) := GoMainDirs W packages (flagGoCmd f) in
  match err with
  | Some e => ret (None, Some ("Error reading packages: " +:+ e))
  | None =>
  emit (EvPlatforms version) ;;;
  let platforms := Platforms W (platformFlag f) (SupportedPlatforms W version) in
  if (length platforms =? 0)%nat then ret (None, Some ErrNoValidPlatforms)
  else
  emit (Stdout ("Number of parallel builds: " +:+ fmt_d parallel +:+ nl +:+ nl)) ;;;
  if negb (makechan_ok W parallel) then panic "makechan: size out of range"
  else
  pure (ToDispatch {| pl_flags := f; pl_parallel := parallel;
                      pl_platforms := platforms; pl_mainDirs := mainDirs;
                      pl_err := err |})
  end end end end.

(** ** The fan-out *)

Inductive deferred :=
| D_wg_done      (* [defer wg.Done()] *)
| D_unlock.      (* [defer errorLock.Unlock()] *)

(** Program points of the goroutine started for one job; each names the
    statement executed next. *)
Inductive wpc :=
| W_defer_done     (* [defer wg.Done()] *)
| W_acquire        (* [semaphore <- 1] *)
| W_invoke         (* [Printf], [opts], [envOverride] twice, call [GoCrossCompile(opts)] *)
| W_compiling      (* [GoCrossCompile] returns; [if ...; err != nil] *)
| W_lock_err       (* [errorLock.Lock()] *)
| W_defer_unlock   (* [defer errorLock.Unlock()] *)
| W_append_err     (* [errors = append(errors, ...)] *)
| W_lock_mu        (* [mu.Lock()] *)
| W_append_bin     (* [binPaths = append(binPaths, ...)] *)
| W_unlock_mu      (* [mu.Unlock()] *)
| W_release        (* [<-semaphore] *)
| W_return         (* the closure returns: run its deferred calls *)
| W_exited.

Record worker := {
  w_path : string;
  w_platform : Platform;
  w_pc : wpc;
  w_defers : list deferred;
  w_binName : string;             (* the closure's [binName] *)
  w_err : option error            (* the closure's [err] *)
}.

Definition new_worker (j : job) : worker :=
  {| w_path := fst j; w_platform := snd j; w_pc := W_defer_done;
     w_defers := []; w_binName := EmptyString; w_err := None |}.

Definition set_pc (pc : wpc) (w : worker) : worker :=
  {| w_path := w_path w; w_platform := w_platform w; w_pc := pc;
     w_defers := w_defers w; w_binName := w_binName w; w_err := w_err w |}.

Definition set_defers (ds : list deferred) (w : worker) : worker :=
  {| w_path := w_path w; w_platform := w_platform w; w_pc := w_pc w;
     w_defers := ds; w_binName := w_binName w; w_err := w_err w |}.

Definition set_result (r : string * option error) (w : worker) : worker :=
  {| w_path := w_path w; w_platform := w_platform w; w_pc := w_pc w;
     w_defers := w_defers w; w_binName := fst r; w_err := snd r |}.

Definition push (d : deferred) (w : worker) : worker :=
  set_defers (d :: w_defers w) w.

(** Program points of [CrossCompile] in the fan-out. *)
Inductive mpc :=
| M_add (j : job) (rest : list job)   (* inner loop body: [wg.Add(1)] *)
| M_go (j : job) (rest : list job)    (* [go func(path, platform) {...}(path, platform)] *)
| M_wait                              (* [wg.Wait()] *)
| M_read                              (* [if len(errors) > 0 {...}] *)
| M_ret (r : result).                 (* returned [r] *)

Definition loop_head (todo : list job) : mpc :=
  match todo with
  | [] => M_wait
  | j :: rest => M_add j rest
  end.

Record state := {
  st_main : mpc;
  st_workers : list worker;
  st_sem : nat;             (* number of items in the channel's buffer *)
  st_wg : Z;                (* the WaitGroup counter *)
  st_errorLock : bool;      (* is [errorLock] held *)
  st_mu : bool;             (* is [mu] held *)
  st_errors : list string;
  st_binPaths : list string;
  st_trace : list event
}.

Definition init (pl : plan) (t0 : list event) : state :=
  {| st_main := loop_head (jobs_of (pl_platforms pl) (pl_mainDirs pl));
     st_workers := []; st_sem := 0; st_wg := 0; st_errorLock := false;
     st_mu := false; st_errors := []; st_binPaths := []; st_trace := t0 |}.

Definition with_main (m : mpc) (s : state) : state :=
  {| st_main := m; st_workers := st_workers s; st_sem := st_sem s;
     st_wg := st_wg s; st_errorLock := st_errorLock s; st_mu := st_mu s;
     st_errors := st_errors s; st_binPaths := st_binPaths s;
     st_trace := st_trace s |}.

Definition with_workers (ws : list worker) (s : state) : state :=
  {| st_main := st_main s; st_workers := ws; st_sem := st_sem s;
     st_wg := st_wg s; st_errorLock := st_errorLock s; st_mu := st_mu s;
     st_errors := st_errors s; st_binPaths := st_binPaths s;
     st_trace := st_trace s |}.

Definition with_sem (n : nat) (s : state) : state :=
  {| st_main := st_main s; st_workers := st_workers s; st_sem := n;
     st_wg := st_wg s; st_errorLock := st_errorLock s; st_mu := st_mu s;
     st_errors := st_errors s; st_binPaths := st_binPaths s;
     st_trace := st_trace s |}.

Definition with_wg (n : Z) (s : state) : state :=
  {| st_main := st_main s; st_workers := st_workers s; st_sem := st_sem s;
     st_wg := n; st_errorLock := st_errorLock s; st_mu := st_mu s;
     st_errors := st_errors s; st_binPaths := st_binPaths s;
     st_trace := st_trace s |}.

Definition with_lock (b : bool) (s : state) : state :=
  {| st_main := st_main s; st_workers := st_workers s; st_sem := st_sem s;
     st_wg := st_wg s; st_errorLock := b; st_mu := st_mu s;
     st_errors := st_errors s; st_binPaths := st_binPaths s;
     st_trace := st_trace s |}.

Definition with_mu (b : bool) (s : state) : state :=
  {| st_main := st_main s; st_workers := st_workers s; st_sem := st_sem s;
     st_wg := st_wg s; st_errorLock := st_errorLock s; st_mu := b;
     st_errors := st_errors s; st_binPaths := st_binPaths s;
     st_trace := st_trace s |}.

Definition with_errors (l : list string) (s : state) : state :=
  {| st_main := st_main s; st_workers := st_workers s; st_sem := st_sem s;
     st_wg := st_wg s; st_errorLock := st_errorLock s; st_mu := st_mu s;
     st_errors := l; st_binPaths := st_binPaths s;
     st_trace := st_trace s |}.

Definition with_binPaths (l : list string) (s : state) : state :=
  {| st_main := st_main s; st_workers := st_workers s; st_sem := st_sem s;
     st_wg := st_wg s; st_errorLock := st_errorLock s; st_mu := st_mu s;
     st_errors := st_errors s; st_binPaths := l;
     st_trace := st_trace s |}.

Definition logs (es : list event) (s : state) : state :=
  {| st_main := st_main s; st_workers := st_workers s; st_sem := st_sem s;
     st_wg := st_wg s; st_errorLock := st_errorLock s; st_mu := st_mu s;
     st_errors := st_errors s; st_binPaths := st_binPaths s;
     st_trace := st_trace s ++ es |}.

Definition with_worker (i : nat) (w : worker) (s : state) : state :=
  with_workers (<[i := w]> (st_workers s)) s.

Section Machine.

Variable W : World.

Variable pl : plan.

(** [make(chan int, parallel)] *)
Definition capacity : nat := Z.to_nat (pl_parallel pl).

(** [opts] as [GoCrossCompile] receives it: the composite literal (which
    leaves [Gcflags] at its zero value), then the two [envOverride]s. *)
Definition opts_of (path : string) (platform : Platform) : CompileOpts :=
  let f := pl_flags pl in
  {| PackagePath := path;
     co_Platform := platform;
     OutputTpl := outputTpl f;
     Ldflags := envOverride W (ldflags f) platform "LDFLAGS";
     Gcflags := envOverride W EmptyString platform "GCFLAGS";
     Tags := tags f;
     Cgo := flagCgo f;
     Rebuild := flagRebuild f;
     GoCmd := flagGoCmd f |}.

(** [fmt.Sprintf("%s error: %s", platform.String(), err)] *)
Definition error_line (platform : Platform) (err : option error) : string :=
  Platform_String platform +:+ " error: " +:+ Toolchain.err_text err.

(** [path + string(os.PathSeparator) + binName] *)
Definition bin_path (path binName : string) : string :=
  path +:+ os_PathSeparator W +:+ binName.

Definition step_worker (i : nat) (w : worker) (s : state) : option state :=
  let path := w_path w in
  let platform := w_platform w in
  match w_pc w with
  | W_defer_done =>
      Some (with_worker i (set_pc W_acquire (push D_wg_done w)) s)
  | W_acquire =>
      if decide (st_sem s < capacity)%nat
      then Some (with_sem (S (st_sem s)) (with_worker i (set_pc W_invoke w) s))
      else None
  | W_invoke =>
      Some (logs [Stdout ("--> " +:+ fmt_15s (Platform_String platform) +:+ ": " +:+ path +:+ nl);
                  EvCompile i (opts_of path platform)]
             (with_worker i (set_pc W_compiling w) s))
  | W_compiling =>
      let r := GoCrossCompile W (opts_of path platform) in
      Some (logs [EvCompiled i]
             (with_worker i
                (set_pc (match snd r with Some _ => W_lock_err | None => W_lock_mu end)
                   (set_result r w)) s))
  | W_lock_err =>
      if st_errorLock s then None
      else Some (with_lock true (with_worker i (set_pc W_defer_unlock w) s))
  | W_defer_unlock =>
      Some (with_worker i (set_pc W_append_err (push D_unlock w)) s)
  | W_append_err =>
      Some (with_errors (st_errors s ++ [error_line platform (w_err w)])
             (with_worker i (set_pc W_lock_mu w) s))
  | W_lock_mu =>
      if st_mu s then None
      else Some (with_mu true (with_worker i (set_pc W_append_bin w) s))
  | W_append_bin =>
      Some (with_binPaths (st_binPaths s ++ [bin_path path (w_binName w)])
             (with_worker i (set_pc W_unlock_mu w) s))
  | W_unlock_mu =>
      Some (with_mu false (with_worker i (set_pc W_release w) s))
  | W_release =>
      match st_sem s with
      | O => None
      | S n => Some (with_sem n (with_worker i (set_pc W_return w) s))
      end
  | W_return =>
      match w_defers w with
      | [] => Some (with_worker i (set_pc W_exited w) s)
      | D_unlock :: ds => Some (with_lock false (with_worker i (set_defers ds w) s))
      | D_wg_done :: ds => Some (with_wg (st_wg s - 1) (with_worker i (set_defers ds w) s))
      end
  | W_exited => None
  end.

Definition report (errors : list string) : list event :=
  Stderr (nl +:+ fmt_d (Z.of_nat (length errors)) +:+ " errors occurred:" +:+ nl)
  :: map (fun err => Stderr ("--> " +:+ err +:+ nl)) errors.

Definition step_main (s : state) : option state :=
  match st_main s with
  | M_add j rest => Some (with_wg (st_wg s + 1) (with_main (M_go j rest) s))
  | M_go j rest =>
      Some (logs [EvGo (length (st_workers s))]
             (with_main (loop_head rest)
                (with_workers (st_workers s ++ [new_worker j]) s)))
  | M_wait => if decide (st_wg s = 0) then Some (with_main M_read s) else None
  | M_read =>
      if 0 <? Z.of_nat (length (st_errors s))
      then Some (logs (report (st_errors s)) (with_main (M_ret (None, pl_err pl)) s))
      else Some (with_main (M_ret (Some (st_binPaths s), None)) s)
  | M_ret _ => None
  end.

Definition step (t : tid) (s : state) : option state :=
  match t with
  | Main => step_main s
  | Worker i => w ← st_workers s !! i; step_worker i w s
  | Reader _ | Process _ => None
  end.

Fixpoint run (sched : list tid) (s : state) : option state :=
  match sched with
  | [] => Some s
  | t :: rest =>
      match step t s with
      | Some s' => run rest s'
      | None => None
      end
  end.

End Machine.

(** [CrossCompile] under a schedule of its goroutines. *)
Definition CrossCompile (W : World) (sched : list tid) : outcome result :=
  match prefix W with
  | (t, Return r) => Returned t r
  | (t, Panic m) => Panicked t m
  | (t, Next (ToToolchain parallel f)) =>
      match Toolchain.mainBuildToolchain W parallel (platformFlag f) (verbose f) sched with
      | Returned t' r => Returned (t ++ t') (None, r)
      | Panicked t' m => Panicked (t ++ t') m
      | Unfinished => Unfinished
      end
  | (t, Next (ToDispatch pl)) =>
      match run W pl sched (init pl t) with
      | Some s =>
          match st_main s with
          | M_ret r => Returned (st_trace s) r
          | _ => Unfinished
          end
      | None => Unfinished
      end
  end.

(** ** What the invariants of the fan-out are made of *)

Section Measures.

Variable W : World.
Variable pl : plan.

Definition is_unlock (d : deferred) : nat :=
  match d with D_unlock => 1 | _ => 0 end.

Definition is_wg_done (d : deferred) : nat :=
  match d with D_wg_done => 1 | _ => 0 end.

(** Permits of the semaphore held by a goroutine: from [semaphore <- 1]
    to [<-semaphore]. *)
Definition permit (w : worker) : nat :=
  match w_pc w with
  | W_invoke | W_compiling | W_lock_err | W_defer_unlock | W_append_err
  | W_lock_mu | W_append_bin | W_unlock_mu | W_release => 1
  | _ => 0
  end.

(** The external compile of this goroutine is in flight. *)
Definition inflight (w : worker) : nat :=
  match w_pc w with W_compiling => 1 | _ => 0 end.

Definition lock_held (w : worker) : nat :=
  (match w_pc w with W_defer_unlock => 1 | _ => 0 end
   + sum_list_with is_unlock (w_defers w))%nat.

Definition mu_held (w : worker) : nat :=
  match w_pc w with W_append_bin | W_unlock_mu => 1 | _ => 0 end.

Definition wg_owed (w : worker) : nat :=
  (match w_pc w with W_defer_done => 1 | _ => 0 end
   + sum_list_with is_wg_done (w_defers w))%nat.

Definition main_owed (m : mpc) : nat :=
  match m with M_go _ _ => 1 | _ => 0 end.

Definition job_of (w : worker) : job := (w_path w, w_platform w).

(** What [GoCrossCompile] answers for a job. *)
Definition compile (j : job) : string * option error :=
  GoCrossCompile W (opts_of W pl (fst j) (snd j)).

(** The line a job adds to [errors], if it fails. *)
Definition job_errors (j : job) : list string :=
  match snd (compile j) with
  | Some e => [error_line (snd j) (Some e)]
  | None => []
  end.

(** The entry a job adds to [binPaths]. *)
Definition job_bins (j : job) : list string :=
  [bin_path W (fst j) (fst (compile j))].

Definition past_compile (pc : wpc) : bool :=
  match pc with
  | W_defer_done | W_acquire | W_invoke | W_compiling => false
  | _ => true
  end.

Definition past_append_err (pc : wpc) : bool :=
  match pc with
  | W_lock_mu | W_append_bin | W_unlock_mu | W_release | W_return | W_exited => true
  | _ => false
  end.

Definition past_append_bin (pc : wpc) : bool :=
  match pc with
  | W_unlock_mu | W_release | W_return | W_exited => true
  | _ => false
  end.

(** What a goroutine has appended so far. *)
Definition err_contrib (w : worker) : list string :=
  if past_append_err (w_pc w) then job_errors (job_of w) else [].

Definition bin_contrib (w : worker) : list string :=
  if past_append_bin (w_pc w) then job_bins (job_of w) else [].

Definition tail_stack (w : worker) : list deferred :=
  match w_err w with
  | Some _ => [D_unlock; D_wg_done]
  | None => [D_wg_done]
  end.

(** The defer stack and the locals at each program point. *)
Definition frame (w : worker) : Prop :=
  match w_pc w with
  | W_defer_done | W_exited => w_defers w = []
  | W_acquire | W_invoke | W_compiling => w_defers w = [D_wg_done]
  | W_lock_err | W_defer_unlock => w_defers w = [D_wg_done] /\ is_Some (w_err w)
  | W_append_err => w_defers w = [D_unlock; D_wg_done] /\ is_Some (w_err w)
  | W_lock_mu | W_append_bin | W_unlock_mu | W_release => w_defers w = tail_stack w
  | W_return =>
      w_defers w = tail_stack w \/ w_defers w = [D_wg_done] \/ w_defers w = []
  end.

Definition wf (w : worker) : Prop :=
  frame w /\
  (past_compile (w_pc w) = true -> (w_binName w, w_err w) = compile (job_of w)).

(** What one step of a goroutine does to the shared state, seen from
    that goroutine. *)
Definition local_step (i : nat) (w : worker) (s s' : state) : Prop :=
  exists w',
    st_workers s' = <[i:=w']> (st_workers s) /\
    st_main s' = st_main s /\
    job_of w' = job_of w /\
    wf w' /\
    (st_sem s' + permit w = st_sem s + permit w')%nat /\
    (st_sem s' <= Nat.max (st_sem s) (capacity pl))%nat /\
    (b2n (st_errorLock s') + lock_held w = b2n (st_errorLock s) + lock_held w')%nat /\
    (b2n (st_mu s') + mu_held w = b2n (st_mu s) + mu_held w')%nat /\
    st_wg s' + Z.of_nat (wg_owed w) = st_wg s + Z.of_nat (wg_owed w') /\
    (wg_owed w' <= wg_owed w)%nat /\
    (st_errors s' = st_errors s /\ err_contrib w' = err_contrib w \/
     exists m, st_errors s' = st_errors s ++ [m] /\ err_contrib w = [] /\
               err_contrib w' = [m] /\ (0 < wg_owed w)%nat) /\
    (st_binPaths s' = st_binPaths s /\ bin_contrib w' = bin_contrib w \/
     exists m, st_binPaths s' = st_binPaths s ++ [m] /\ bin_contrib w = [] /\
               bin_contrib w' = [m] /\ (0 < wg_owed w)%nat).

Definition pending (m : mpc) : list job :=
  match m with
  | M_add j rest | M_go j rest => j :: rest
  | _ => []
  end.

Definition past_wait (m : mpc) : bool :=
  match m with
  | M_read | M_ret _ => true
  | _ => false
  end.

(** The two [return] statements after [wg.Wait()]. *)
Definition result_of (errors binPaths : list string) : result :=
  if 0 <? Z.of_nat (length errors) then (None, pl_err pl) else (Some binPaths, None).

Record Inv (s : state) : Prop := {
  inv_sem : st_sem s = sum_list_with permit (st_workers s);
  inv_cap : (st_sem s <= capacity pl)%nat;
  inv_lock : b2n (st_errorLock s) = sum_list_with lock_held (st_workers s);
  inv_mu : b2n (st_mu s) = sum_list_with mu_held (st_workers s);
  inv_wg : st_wg s = Z.of_nat (main_owed (st_main s) + sum_list_with wg_owed (st_workers s));
  inv_wf : Forall wf (st_workers s);
  inv_jobs : map job_of (st_workers s) ++ pending (st_main s)
             = jobs_of (pl_platforms pl) (pl_mainDirs pl);
  inv_errors : st_errors s ≡ₚ flat_map err_contrib (st_workers s);
  inv_bins : st_binPaths s ≡ₚ flat_map bin_contrib (st_workers s);
  inv_past : past_wait (st_main s) = true -> st_wg s = 0;
  inv_ret : forall r, st_main s = M_ret r -> r = result_of (st_errors s) (st_binPaths s)
}.

(** Steps a goroutine still has to take. *)
Definition worker_left (w : worker) : nat :=
  match w_pc w with
  | W_defer_done => 14
  | W_acquire => 13
  | W_invoke => 12
  | W_compiling => 11
  | W_lock_err => 10
  | W_defer_unlock => 9
  | W_append_err => 8
  | W_lock_mu => 7
  | W_append_bin => 6
  | W_unlock_mu => 5
  | W_release => 4
  | W_return => S (length (w_defers w))
  | W_exited => 0
  end.

Definition main_left (m : mpc) : nat :=
  match m with
  | M_add _ rest => 16 * S (length rest) + 3
  | M_go _ rest => 16 * S (length rest) + 2
  | M_wait => 2
  | M_read => 1
  | M_ret _ => 0
  end.

Definition measure (s : state) : nat :=
  (main_left (st_main s) + sum_list_with worker_left (st_workers s))%nat.

Definition enabled (t : tid) (s : state) : bool :=
  match step W pl t s with
  | Some _ => true
  | None => false
  end.

Definition threads (s : state) : list tid :=
  Main :: map Worker (seq 0 (length (st_workers s))).

(** A scheduler: the first thread that can take a step. *)
Definition pick (s : state) : option tid :=
  List.find (fun t => enabled t s) (threads s).

(** The schedule that scheduler produces, up to the return of
    [CrossCompile]. *)
Fixpoint drive (fuel : nat) (s : state) : list tid :=
  match fuel with
  | O => []
  | S k =>
      match st_main s with
      | M_ret _ => []
      | _ =>
          match pick s with
          | Some t =>
              match step W pl t s with
              | Some s' => t :: drive k s'
              | None => []
              end
          | None => []
          end
      end
  end.

End Measures.

End Dispatcher.

(** * Concrete worlds used to run the two entry points *)

Module Scenario.

Definition linux_amd64 : Platform := {| OS := "linux"; Arch := "amd64" |}.

Definition darwin_amd64 : Platform := {| OS := "darwin"; Arch := "amd64" |}.

Definition windows_386 : Platform := {| OS := "windows"; Arch := "386" |}.

Definition no_filter : PlatformFlag :=
  {| pf_OS := []; pf_Arch := []; pf_OSArch := [] |}.

Definition flags_with (toolchain verbose_mode : bool) (requested : Z)
    (units : list string) : Flags :=
  {| buildToolchain := toolchain; ldflags := EmptyString; outputTpl := "{{.Dir}}_{{.OS}}_{{.Arch}}";
     parallel := requested; platformFlag := no_filter; tags := EmptyString;
     verbose := verbose_mode; flagGcflags := EmptyString; flagCgo := false;
     flagRebuild := false; flagListOSArch := false; flagGoCmd := "go";
     flag_Args := units |}.

(** A machine with 4 CPUs running linux, Go [version_parts] installed under
    [/go], every platform of [supported] selected. *)
Definition world (f : Flags) (version_parts : list Z) (supported : list Platform)
    (compile : CompileOpts -> string * option error)
    (script : Platform -> Script) : World :=
  {| flags_Parse := (f, None);
     runtime_NumCPU := 4;
     runtime_GOOS := "linux";
     runtime_makechan_max := 35184372088820;
     os_PathSeparator := "/";
     filepath_Join := fun a b => a +:+ "/" +:+ b;
     exec_LookPath := fun cmd => ("/usr/bin/" +:+ cmd, None);
     GoVersionParts := (version_parts, None);
     GoVersion := ("go1.4.2", None);
     GoRoot := ("/go", None);
     SupportedPlatforms := fun _ => supported;
     Platforms := fun _ candidates => candidates;
     GoMainDirs := fun paths _ => (paths, None);
     mainListOSArch := fun _ => None;
     envOverride := fun current _ _ => current;
     GoCrossCompile := compile;
     run_script := fun _ _ p => script p |}.

(** A compiler that fails for unit [b] on darwin and succeeds elsewhere. *)
Definition compile_b_darwin_fails (o : CompileOpts) : string * option error :=
  if String.eqb (PackagePath o) "b" && String.eqb (OS (co_Platform o)) "darwin"
  then (EmptyString, Some "exit status 2")
  else (PackagePath o +:+ "_" +:+ OS (co_Platform o), None).

Definition compile_ok (o : CompileOpts) : string * option error :=
  (PackagePath o +:+ "_" +:+ OS (co_Platform o), None).

Definition compile_fails (o : CompileOpts) : string * option error :=
  (EmptyString, Some "exit status 2").

(** A build script that prints two lines and exits with status 1. *)
Definition script_exit_1 (p : Platform) : Script :=
  {| sc_start_err := None; sc_lines := ["# Building C bootstrap tool." +:+ nl; "cmd/dist" +:+ nl];
     sc_stdout := "# Building C bootstrap tool."; sc_stderr := "cmd/dist";
     sc_wait_err := Some "exit status 1" |}.

(** A build script that cannot be launched. *)
Definition script_no_launch (p : Platform) : Script :=
  {| sc_start_err := Some "fork/exec /go/src/make.bash: permission denied";
     sc_lines := []; sc_stdout := EmptyString; sc_stderr := EmptyString; sc_wait_err := None |}.

Definition script_ok (p : Platform) : Script :=
  {| sc_start_err := None; sc_lines := ["ok" +:+ nl];
     sc_stdout := "ok"; sc_stderr := EmptyString; sc_wait_err := None |}.

(** 2 units, 3 platforms, [-parallel 2], one failing invocation. *)
Definition world_2x3 : World :=
  world (flags_with false false 2 ["a"; "b"]) [1; 4; 2]
        [linux_amd64; darwin_amd64; windows_386] compile_b_darwin_fails script_ok.

(** 1 unit, 1 platform, the only invocation fails. *)
Definition world_1x1_fails : World :=
  world (flags_with false false 2 ["a"]) [1; 4; 2] [linux_amd64] compile_fails script_ok.

(** No platform survives the filter. *)
Definition world_no_platform : World :=
  world (flags_with false false 2 ["a"]) [1; 4; 2] [] compile_ok script_ok.

(** [-build-toolchain] on Go 1.4.2, one platform, the script fails. *)
Definition world_toolchain (verbose_mode : bool) (script : Platform -> Script)
    (supported : list Platform) : World :=
  world (flags_with true verbose_mode 4 []) [1; 4; 2] supported compile_ok script.

Definition steps (t : tid) (n : nat) : list tid := repeat t n.

(** All goroutines are started, then run one after the other to their
    end, then [CrossCompile] passes the barrier and returns. *)
Definition sched_2x3 : list tid :=
  steps Main 12 ++ steps (Worker 0) 10 ++ steps (Worker 1) 10 ++
  steps (Worker 2) 10 ++ steps (Worker 3) 14 ++ steps (Worker 4) 10 ++
  steps (Worker 5) 10 ++ steps Main 2.

Definition sched_1x1 : list tid :=
  steps Main 2 ++ steps (Worker 0) 14 ++ steps Main 2.

End Scenario.

Import Scenario.

(** ** The inputs the claims are run on *)

Definition short_circuit_trace : list event :=
  [EvLookPath "go"; EvGoVersionParts; Stderr Toolchain.msg_not_needed].

Definition no_platform_trace (f : Flags) (version : string) : list event :=
  [EvLookPath (flagGoCmd f); EvGoVersion; EvGoMainDirs; EvPlatforms version].

Definition spawns_or_compiles (e : event) : bool :=
  match e with
  | EvGo _ | EvCompile _ _ | EvCompiled _ | EvStart _ _ _ | EvWait _ => true
  | _ => false
  end.

(** Two platforms, [-parallel 4]: both goroutines are started, the first
    has its script running, the second has entered [BuildToolchain]. *)
Definition c8_world : World :=
  world_toolchain false script_exit_1 [linux_amd64; darwin_amd64].

Definition c8_plan : Toolchain.plan :=
  {| Toolchain.pl_root := "/go";
     Toolchain.pl_platforms := [linux_amd64; darwin_amd64];
     Toolchain.pl_verbose := false;
     Toolchain.pl_parallel := 1;
     Toolchain.pl_err := None |}.

Definition c8_trace : list event :=
  [EvLookPath "go"; EvGoVersionParts; EvGoVersion; EvGoRoot; EvPlatforms "go1.4.2"]
  ++ Toolchain.serial_notice.

Definition c8_sched : list tid :=
  steps Main 4 ++ steps (Worker 0) 5 ++ steps (Worker 1) 1.

(** One platform, verbose, the script prints two lines and exits with
    status 1; the schedule stops when [BuildToolchain] has just returned. *)
Definition c9_world : World := world_toolchain true script_exit_1 [linux_amd64].

Definition c9_plan : Toolchain.plan :=
  {| Toolchain.pl_root := "/go";
     Toolchain.pl_platforms := [linux_amd64];
     Toolchain.pl_verbose := true;
     Toolchain.pl_parallel := 1;
     Toolchain.pl_err := None |}.

Definition c9_sched : list tid :=
  steps Main 2 ++ steps (Worker 0) 7 ++ steps (Process 0) 2 ++ steps (Worker 0) 2 ++
  steps (Reader 0) 4 ++ steps (Worker 0) 4.

(** The 2 x 3 dispatch with [P = 2]: all six goroutines are started, two
    have their compile in flight, a third waits for a permit. *)
Definition c5_plan : Dispatcher.plan :=
  {| Dispatcher.pl_flags := flags_with false false 2 ["a"; "b"];
     Dispatcher.pl_parallel := 2;
     Dispatcher.pl_platforms := [linux_amd64; darwin_amd64; windows_386];
     Dispatcher.pl_mainDirs := ["a"; "b"];
     Dispatcher.pl_err := None |}.

Definition c5_sched : list tid :=
  steps Main 12 ++ steps (Worker 0) 3 ++ steps (Worker 3) 3 ++ steps (Worker 1) 1.

(** C2 as stated: a 5-entry artifact list together with a non-nil error. *)
Definition C2_claim (W : World) (sched : list tid) : Prop :=
  exists t l e,
    Dispatcher.CrossCompile W sched = Returned t (Some l, Some e) /\ length l = 5%nat.

Definition c2_trace : list event :=
  [EvLookPath "go"; EvGoVersion; EvGoMainDirs; EvPlatforms "go1.4.2";
   Stdout ("Number of parallel builds: 2" +:+ nl +:+ nl)].

Definition c3_world : World := world_toolchain false script_exit_1 [linux_amd64].

Definition c3_plan : Toolchain.plan :=
  {| Toolchain.pl_root := "/go";
     Toolchain.pl_platforms := [linux_amd64];
     Toolchain.pl_verbose := false;
     Toolchain.pl_parallel := 1;
     Toolchain.pl_err := None |}.

(** The goroutine runs [BuildToolchain] to its end (the script exits with
    status 1), then, after the deferred [wg.Done()], everything up to the
    append; [mainBuildToolchain] has passed [wg.Wait()] in between. *)
Definition c3_sched : list tid :=
  steps Main 2 ++ steps (Worker 0) 5 ++ steps (Process 0) 2 ++ steps (Worker 0) 3 ++
  [Main] ++ steps (Worker 0) 4.

(** All of the goroutine first, then the barrier and the read. *)
Definition c4_sched : list tid :=
  steps Main 2 ++ steps (Worker 0) 5 ++ steps (Process 0) 2 ++ steps (Worker 0) 10 ++
  steps Main 2.

(** * Further inputs *)

(** The 2 x 3 dispatch: goroutine 0 is between [mu.Lock()] and the
    append, goroutine 1 is at [mu.Lock()]. *)
Definition mutex_sched : list tid :=
  steps Main 12 ++ steps (Worker 0) 5 ++ steps (Worker 1) 4.

(** The options of the [GoCrossCompile] calls goroutine [i] has made,
    read off a trace. *)
Definition compiles_by (i : nat) (t : list event) : list CompileOpts :=
  flat_map (fun e => match e with
                     | EvCompile k o => if Nat.eqb k i then [o] else []
                     | _ => []
                     end) t.

(** The goroutine has called [GoCrossCompile]. *)
Definition invoked (pc : Dispatcher.wpc) : bool :=
  match pc with
  | Dispatcher.W_defer_done | Dispatcher.W_acquire | Dispatcher.W_invoke => false
  | _ => true
  end.

Definition compiles_so_far (W : World) (pl : Dispatcher.plan)
    (ws : list Dispatcher.worker) (i : nat) : list CompileOpts :=
  match ws !! i with
  | Some w =>
      if invoked (Dispatcher.w_pc w)
      then [Dispatcher.opts_of W pl (Dispatcher.w_path w) (Dispatcher.w_platform w)]
      else []
  | None => []
  end.

(** ** The command: [main] *)

(** [main] of the command (the version that takes both results of
    [CrossCompile]): a non-nil error is printed and the process exits with
    status 1; otherwise [main] returns and the status is 0. *)
Definition main (W : World) (sched : list tid) : outcome Z :=
  match Dispatcher.CrossCompile W sched with
  | Returned t (_, Some err) => Returned (t ++ [Stdout (err +:+ nl)]) 1
  | Returned t (_, None) => Returned t 0
  | Panicked t m => Panicked t m
  | Unfinished => Unfinished
  end.

(** ** Worlds that differ in one collaborator *)

Definition with_flags (f : Flags) (W : World) : World :=
  {| flags_Parse := (f, snd (flags_Parse W));
     runtime_NumCPU := runtime_NumCPU W;
     runtime_GOOS := runtime_GOOS W;
     runtime_makechan_max := runtime_makechan_max W;
     os_PathSeparator := os_PathSeparator W;
     filepath_Join := filepath_Join W;
     exec_LookPath := exec_LookPath W;
     GoVersionParts := GoVersionParts W;
     GoVersion := GoVersion W;
     GoRoot := GoRoot W;
     SupportedPlatforms := SupportedPlatforms W;
     Platforms := Platforms W;
     GoMainDirs := GoMainDirs W;
     mainListOSArch := mainListOSArch W;
     envOverride := envOverride W;
     GoCrossCompile := GoCrossCompile W;
     run_script := run_script W |}.

Definition with_LookPath (lp : string -> string * option error) (W : World) : World :=
  {| flags_Parse := flags_Parse W;
     runtime_NumCPU := runtime_NumCPU W;
     runtime_GOOS := runtime_GOOS W;
     runtime_makechan_max := runtime_makechan_max W;
     os_PathSeparator := os_PathSeparator W;
     filepath_Join := filepath_Join W;
     exec_LookPath := lp;
     GoVersionParts := GoVersionParts W;
     GoVersion := GoVersion W;
     GoRoot := GoRoot W;
     SupportedPlatforms := SupportedPlatforms W;
     Platforms := Platforms W;
     GoMainDirs := GoMainDirs W;
     mainListOSArch := mainListOSArch W;
     envOverride := envOverride W;
     GoCrossCompile := GoCrossCompile W;
     run_script := run_script W |}.

Definition with_versionParts (vp : list Z * option error) (W : World) : World :=
  {| flags_Parse := flags_Parse W;
     runtime_NumCPU := runtime_NumCPU W;
     runtime_GOOS := runtime_GOOS W;
     runtime_makechan_max := runtime_makechan_max W;
     os_PathSeparator := os_PathSeparator W;
     filepath_Join := filepath_Join W;
     exec_LookPath := exec_LookPath W;
     GoVersionParts := vp;
     GoVersion := GoVersion W;
     GoRoot := GoRoot W;
     SupportedPlatforms := SupportedPlatforms W;
     Platforms := Platforms W;
     GoMainDirs := GoMainDirs W;
     mainListOSArch := mainListOSArch W;
     envOverride := envOverride W;
     GoCrossCompile := GoCrossCompile W;
     run_script := run_script W |}.

(** The flags with another [-gcflags] value. *)
Definition set_flagGcflags (g : string) (f : Flags) : Flags :=
  {| buildToolchain := buildToolchain f; ldflags := ldflags f;
     outputTpl := outputTpl f; parallel := parallel f;
     platformFlag := platformFlag f; tags := tags f; verbose := verbose f;
     flagGcflags := g; flagCgo := flagCgo f; flagRebuild := flagRebuild f;
     flagListOSArch := flagListOSArch f; flagGoCmd := flagGoCmd f;
     flag_Args := flag_Args f |}.

(** The flags with other positional arguments. *)
Definition set_Args (units : list string) (f : Flags) : Flags :=
  {| buildToolchain := buildToolchain f; ldflags := ldflags f;
     outputTpl := outputTpl f; parallel := parallel f;
     platformFlag := platformFlag f; tags := tags f; verbose := verbose f;
     flagGcflags := flagGcflags f; flagCgo := flagCgo f; flagRebuild := flagRebuild f;
     flagListOSArch := flagListOSArch f; flagGoCmd := flagGoCmd f;
     flag_Args := units |}.

(** The units handed to [GoMainDirs]. *)
Definition packages_of (f : Flags) : list string :=
  if (length (flag_Args f) =? 0)%nat then ["."] else flag_Args f.

(** Two flag settings that differ at most in [-gcflags] and in how the
    same units are spelled out. *)
Definition same_build (f f' : Flags) : Prop :=
  buildToolchain f' = buildToolchain f /\ ldflags f' = ldflags f /\
  outputTpl f' = outputTpl f /\ parallel f' = parallel f /\
  platformFlag f' = platformFlag f /\ tags f' = tags f /\
  verbose f' = verbose f /\ flagCgo f' = flagCgo f /\
  flagRebuild f' = flagRebuild f /\ flagListOSArch f' = flagListOSArch f /\
  flagGoCmd f' = flagGoCmd f /\ packages_of f' = packages_of f.

(** The go command is not on the PATH. *)
Definition world_no_go : World :=
  with_LookPath (fun _ => (EmptyString, Some "executable file not found in $PATH")) world_2x3.

(** ** The toolchain fan-out: what is recorded, and a scheduler *)

Module ToolchainMore.

Import Toolchain.

Section Measures.

Variable W : World.
Variable pl : plan.

(** What [BuildToolchain] returns for a platform. *)
Definition build_result (p : Platform) : option error :=
  let sc := script_of W pl p in
  match sc_start_err sc with
  | Some e => Some (start_error p e)
  | None =>
      match sc_wait_err sc with
      | Some _ => Some (wait_error pl p sc)
      | None => None
      end
  end.

(** The entry a platform adds to [errs], if its build fails. *)
Definition failure_lines (p : Platform) : list error :=
  match build_result p with
  | Some e => [Platform_String p +:+ ": " +:+ e]
  | None => []
  end.

(** The closure is past its [if err != nil] block. *)
Definition appended (pc : gpc) : bool :=
  match pc with
  | G_return | G_exited => true
  | _ => false
  end.

(** What a goroutine has appended to [errs] so far. *)
Definition err_contrib (w : worker) : list error :=
  if appended (w_pc w) then failure_lines (w_platform w) else [].

Definition in_error_block (pc : gpc) : bool :=
  match pc with
  | G_lock | G_defer_unlock | G_append => true
  | _ => false
  end.

Definition more_ok (w : worker) : Prop :=
  (finishing (w_pc w) = true -> w_err w = build_result (w_platform w)) /\
  (in_error_block (w_pc w) = true -> is_Some (w_err w)) /\
  (pl_verbose pl = true -> pre_pipe (w_pc w) = false -> w_rpc w <> R_none) /\
  (w_rpc w = R_exited -> w_done w = true).

Definition pending (m : mpc) : list Platform :=
  match m with
  | M_add p rest | M_go p rest => p :: rest
  | _ => []
  end.

Record Inv2 (s : state) : Prop := {
  inv_errs : st_errs s ≡ₚ flat_map err_contrib (st_workers s);
  inv_platforms : map w_platform (st_workers s) ++ pending (st_main s) = pl_platforms pl;
  inv_more : Forall more_ok (st_workers s)
}.

(** What a step of goroutine [i], of its reader or of its process does to
    [errs]. *)
Definition local_step2 (i : nat) (w : worker) (s s' : state) : Prop :=
  exists w',
    st_workers s' = <[i:=w']> (st_workers s) /\
    st_main s' = st_main s /\
    w_platform w' = w_platform w /\
    more_ok w' /\
    (st_errs s' = st_errs s /\ err_contrib w' = err_contrib w \/
     exists m, st_errs s' = st_errs s ++ [m] /\ err_contrib w = [] /\ err_contrib w' = [m]).

(** Steps the goroutine, its process and its reader still have to take. *)
Definition script_lines (p : Platform) : nat := length (sc_lines (script_of W pl p)).

Definition worker_left (w : worker) : nat :=
  (match w_pc w with
   | G_call => 21 + 2 * script_lines (w_platform w)
   | B_acquire => 20 + 2 * script_lines (w_platform w)
   | B_defer_release => 19 + 2 * script_lines (w_platform w)
   | B_setup => 18 + 2 * script_lines (w_platform w)
   | B_pipe => 17 + 2 * script_lines (w_platform w)
   | B_defer_drain => 16 + 2 * script_lines (w_platform w)
   | B_start => 15 + 2 * script_lines (w_platform w)
   | B_wait => 14
   | B_return => 7 + 2 * length (w_defers w)
   | B_drain_wait => 8 + 2 * length (w_defers w)
   | G_check => 6
   | G_lock => 5
   | G_defer_unlock => 4
   | G_append => 3
   | G_return => 1 + length (w_defers w)
   | G_exited => 0
   end
   + match w_proc w with Some rest => 2 * length rest | None => 0 end
   + match w_rpc w with
     | R_none | R_loop => 2 + length (w_pipe w)
     | R_close => 1
     | R_exited => 0
     end)%nat.

Definition spawn_cost (p : Platform) : nat := (25 + 2 * script_lines p)%nat.

Definition main_left (m : mpc) : nat :=
  match m with
  | M_add p rest => sum_list_with spawn_cost (p :: rest) + 3
  | M_go p rest => sum_list_with spawn_cost (p :: rest) + 2
  | M_wait => 2
  | M_read => 1
  | M_ret _ => 0
  end.

Definition measure (s : state) : nat :=
  (main_left (st_main s) + sum_list_with worker_left (st_workers s))%nat.

Definition enabled (t : tid) (s : state) : bool :=
  match step W pl t s with
  | Some _ => true
  | None => false
  end.

Definition threads (s : state) : list tid :=
  Main :: flat_map (fun i => [Worker i; Reader i; Process i])
                   (seq 0 (length (st_workers s))).

(** A scheduler: the first thread that can take a step. *)
Definition pick (s : state) : option tid :=
  List.find (fun t => enabled t s) (threads s).

(** The schedule that scheduler produces, up to the return of
    [mainBuildToolchain]. *)
Fixpoint drive (fuel : nat) (s : state) : list tid :=
  match fuel with
  | O => []
  | S k =>
      match st_main s with
      | M_ret _ => []
      | _ =>
          match pick s with
          | Some t =>
              match step W pl t s with
              | Some s' => t :: drive k s'
              | None => []
              end
          | None => []
          end
      end
  end.

End Measures.

End ToolchainMore.

(** ** Inputs of the toolchain examples *)

(** Two platforms, not verbose: both goroutines have run their script to
    its end (exit status 1); the first holds [errorLock], the second is
    about to ask for it. *)
Definition lock_sched : list tid :=
  steps Main 4 ++ steps (Worker 0) 5 ++ steps (Process 0) 2 ++ steps (Worker 0) 6 ++
  steps (Worker 1) 5 ++ steps (Process 1) 2 ++ steps (Worker 1) 5.

(** One platform, verbose: the script has written its two lines, the
    reader has printed the first. *)
Definition stream_sched : list tid :=
  steps Main 2 ++ steps (Worker 0) 7 ++ steps (Process 0) 2 ++ steps (Reader 0) 1.

(** [-build-toolchain] when no platform is selected. *)
Definition world_toolchain_none : World := world_toolchain false script_ok [].

Definition plan_none : Toolchain.plan :=
  {| Toolchain.pl_root := "/go";
     Toolchain.pl_platforms := [];
     Toolchain.pl_verbose := false;
     Toolchain.pl_parallel := 1;
     Toolchain.pl_err := None |}.

Definition quiet (t : list event) : bool :=
  forallb (fun e => negb (spawns_or_compiles e)) t.

(** The build scripts goroutine [i] has started ([cmd.Start()]), with
    their directory, read off a trace. *)
Definition starts_by (i : nat) (t : list event) : list (string * string) :=
  flat_map (fun e => match e with
                     | EvStart k path dir => if Nat.eqb k i then [(path, dir)] else []
                     | _ => []
                     end) t.

Definition starts_so_far (W : World) (pl : Toolchain.plan)
    (ws : list Toolchain.worker) (i : nat) : list (string * string) :=
  match ws !! i with
  | Some w =>
      if Toolchain.pre_start (Toolchain.w_pc w) then []
      else [(Toolchain.scriptPath W pl, Toolchain.scriptDir W pl)]
  | None => []
  end.

(** [mainBuildToolchain] is past [wg.Wait()]. *)
Definition toolchain_past_wait (m : Toolchain.mpc) : bool :=
  match m with
  | Toolchain.M_read | Toolchain.M_ret _ => true
  | _ => false
  end.

(** Go 2.0 (a version with a minor component below 5), one platform, a
    build script that succeeds; the goroutine runs to its end, then
    [mainBuildToolchain] passes the barrier and returns. *)
Definition c10_world : World :=
  world (flags_with true false 4 []) [2; 0] [linux_amd64] compile_ok script_ok.

Definition c10_sched : list tid :=
  steps Main 2 ++ steps (Worker 0) 5 ++ steps (Process 0) 1 ++ steps (Worker 0) 6 ++
  steps Main 2.

(** [-parallel] beyond what the runtime accepts for a channel. *)
Definition world_huge_parallel : World :=
  world (flags_with false false 9223372036854775807 ["a"]) [1; 4; 2]
        [linux_amd64] compile_ok script_ok.

(** * Part II: the proofs *)

Example resolveParallel_0_4 : resolveParallel 0 4 "linux" = 3.
Proof. reflexivity. Qed.

Example resolveParallel_default_1cpu : resolveParallel (-1) 1 "darwin" = 1.
Proof. reflexivity. Qed.

Example resolveParallel_solaris_48 : resolveParallel (-1) 48 "solaris" = 3.
Proof. reflexivity. Qed.

(** ** Counting over the goroutines

    The shared counters (channel buffer, WaitGroup, mutexes) are related to
    the goroutines by sums over the list of goroutine states; a step
    replaces one element of that list or appends one. *)

Section Sums.

Context {A : Type}.

Lemma sum_list_with_insert (f : A -> nat) (l : list A) (i : nat) (x y : A) :
  l !! i = Some x ->
  (sum_list_with f (<[i:=y]> l) + f x = sum_list_with f l + f y)%nat.
Proof.
  revert i. induction l as [|a l IH]; intros [|i] Hl; simpl in *; try discriminate.
  - injection Hl as ->. lia.
  - specialize (IH i Hl). lia.
Qed.

Lemma sum_list_with_snoc (f : A -> nat) (l : list A) (x : A) :
  sum_list_with f (l ++ [x]) = (sum_list_with f l + f x)%nat.
Proof. rewrite sum_list_with_app. simpl. lia. Qed.

Lemma sum_list_with_pos (f : A -> nat) (l : list A) :
  (0 < sum_list_with f l)%nat -> exists i x, l !! i = Some x /\ (0 < f x)%nat.
Proof.
  induction l as [|a l IH]; simpl; [lia|]. intros H.
  destruct (f a) eqn:Ha.
  - destruct IH as (i & x & Hi & Hx); [lia|]. exists (S i), x. auto.
  - exists 0%nat, a. split; [reflexivity|lia].
Qed.

Lemma sum_list_with_zero (f : A -> nat) (l : list A) (i : nat) (x : A) :
  sum_list_with f l = 0%nat -> l !! i = Some x -> f x = 0%nat.
Proof.
  revert i. induction l as [|a l IH]; intros [|i] H Hl; simpl in *; try discriminate.
  - injection Hl as ->. lia.
  - apply (IH i); [lia|assumption].
Qed.

End Sums.

(** ** Proof steps shared by the two machines *)

(** Case analysis on every [match] and [if] of a step equation. *)
Ltac step_cases H :=
  repeat match type of H with
  | context [match ?x with _ => _ end] => destruct x eqn:?; try discriminate H
  | context [if ?x then _ else _] => destruct x eqn:?; try discriminate H
  end.

(** Use the implications of an invariant whose premises are decided. *)
Ltac use_hyps :=
  repeat match goal with
  | H : _ /\ _ |- _ => destruct H
  | H : ?a = ?a -> _ |- _ => specialize (H eq_refl)
  | H : is_Some (Some ?x) -> _ |- _ => specialize (H (ex_intro _ x eq_refl))
  | H : is_Some None |- _ => destruct H; discriminate
  | H : is_Some None -> _ |- _ => clear H
  | H : false = true -> _ |- _ => clear H
  | H : ?a = ?b -> _ |- _ => (assert (a <> b) by discriminate); clear H
  end.

(** ** The toolchain fan-out keeps its invariant *)

Module ToolchainFacts.

Import Toolchain.

Section Facts.

Variable W : World.
Variable pl : plan.

Local Abbreviation full_stack := (Toolchain.full_stack pl).
Local Abbreviation frame := (Toolchain.frame pl).
Local Abbreviation emitted := (Toolchain.emitted W pl).
Local Abbreviation stream_ok := (Toolchain.stream_ok W pl).
Local Abbreviation wf := (Toolchain.wf W pl).
Local Abbreviation local_step := (Toolchain.local_step W pl).
Local Abbreviation Inv := (Toolchain.Inv W pl).
Local Abbreviation inv_sem := (Toolchain.inv_sem W pl).
Local Abbreviation inv_cap := (Toolchain.inv_cap W pl).
Local Abbreviation inv_lock := (Toolchain.inv_lock W pl).
Local Abbreviation inv_wg := (Toolchain.inv_wg W pl).
Local Abbreviation inv_wf := (Toolchain.inv_wf W pl).

Ltac wf_crush :=
  use_hyps; simplify_eq/=;
  repeat match goal with
  | |- _ /\ _ => split
  | |- _ -> _ => intros
  end;
  use_hyps; simplify_eq/=; eauto; try congruence; try lia;
  repeat match goal with
  | H : ?x = _ |- context [match ?x with _ => _ end] => rewrite H
  end;
  try reflexivity;
  try (intuition (simplify_eq/=; eauto; congruence));
  try (destruct (st_errorLock _); cbn in *; (lia || discriminate)).

Lemma step_worker_local i w s s' :
  wf w -> (lock_held w <= b2n (st_errorLock s))%nat ->
  step_worker W pl i w s = Some s' -> local_step i w s s'.
Proof.
  intros [Hf Hs] Hlock Hstep. unfold lock_held in Hlock.
  destruct w as [p pc ds e proc pipe wc r dn pr].
  unfold step_worker in Hstep. unfold Toolchain.frame, Toolchain.stream_ok, Toolchain.full_stack in *.
  cbn [w_pc w_defers w_platform w_err w_proc w_pipe w_wclosed w_rpc w_done w_printed] in *.
  destruct pc; destruct (pl_verbose pl) eqn:Hv;
    cbn in Hf, Hs, Hstep, Hlock; step_cases Hstep; try discriminate.
  all: injection Hstep as <-.
  all: try (destruct Hf as [Hf|[Hf|[Hf|Hf]]]; simplify_eq/=).
  all: try (destruct Hf as [Hf|Hf]; simplify_eq/=).
  all: eexists; split; [reflexivity|]; split; [reflexivity|];
       unfold Toolchain.wf, Toolchain.frame, Toolchain.stream_ok, Toolchain.full_stack, permit, lock_held, wg_owed; rewrite ?Hv; cbn.
  all: wf_crush.
Qed.

Lemma step_reader_local i w s s' :
  wf w -> step_reader i w s = Some s' -> local_step i w s s'.
Proof.
  intros [Hf Hs] Hstep.
  destruct w as [p pc ds e proc pipe wc r dn pr].
  unfold step_reader in Hstep. unfold Toolchain.stream_ok in *.
  cbn [w_pc w_defers w_platform w_err w_proc w_pipe w_wclosed w_rpc w_done w_printed] in *.
  step_cases Hstep; try discriminate.
  all: injection Hstep as <-.
  all: eexists; split; [reflexivity|]; split; [reflexivity|].
  all: split; [split; [exact Hf|]|cbn; lia].
  all: unfold Toolchain.stream_ok; destruct (pl_verbose pl) eqn:Hv; cbn in *.
  all: wf_crush.
  destruct proc as [rest|]; [|destruct H4; discriminate].
  rewrite <- app_assoc. exact H4.
Qed.

Lemma step_process_local i w s s' :
  wf w -> step_process pl i w s = Some s' -> local_step i w s s'.
Proof.
  intros [Hf Hs] Hstep.
  destruct w as [p pc ds e proc pipe wc r dn pr].
  unfold step_process in Hstep. unfold Toolchain.stream_ok in *.
  cbn [w_pc w_defers w_platform w_err w_proc w_pipe w_wclosed w_rpc w_done w_printed] in *.
  destruct proc as [[|l rest]|]; try discriminate.
  injection Hstep as <-.
  destruct Hs as (H1 & H2 & H3 & H4 & Hs).
  assert (Hnf : finishing pc = false).
  { destruct (finishing pc); [|reflexivity]. specialize (H4 eq_refl).
    destruct (sc_start_err _); discriminate. }
  assert (Hns : pre_start pc = false).
  { destruct (pre_start pc); [|reflexivity]. specialize (H1 eq_refl). discriminate. }
  eexists; split; [reflexivity|]; split; [reflexivity|].
  split; [|destruct (pl_verbose pl); cbn; lia].
  split; [destruct (pl_verbose pl); exact Hf|].
  unfold Toolchain.stream_ok. destruct (pl_verbose pl) eqn:Hv; cbn in *.
  - destruct Hs as (H5 & H6 & H7 & H8 & H9 & H10).
    assert (Hwc : wc = false).
    { rewrite H7. clear -Hnf. destruct pc; cbn in *; congruence. }
    subst wc.
    repeat split; eauto; try congruence.
    + apply H5; assumption.
    + apply H5; assumption.
    + rewrite <- H6, <- !app_assoc. reflexivity.
    + destruct H8 as [? _]; [assumption|discriminate].
    + destruct H8 as [? _]; [assumption|discriminate].
  - repeat split; eauto; try tauto; try congruence.
Qed.

Lemma wf_new_worker p : wf (new_worker p).
Proof.
  split; [reflexivity|]. unfold Toolchain.stream_ok; cbn.
  destruct (pl_verbose pl); intuition (try discriminate);
    match goal with HH : is_Some None |- _ => destruct HH; discriminate end.
Qed.

Lemma Inv_init t0 : Inv (init pl t0).
Proof.
  split; cbn; try lia; auto.
  destruct (pl_platforms pl); reflexivity.
Qed.

Lemma local_step_Inv i w s s' :
  st_workers s !! i = Some w -> Inv s -> local_step i w s s' -> Inv s'.
Proof.
  intros Hi [H1 H2 H3 H4 H5] (w' & Hws & Hm & Hwf & Hsem & Hcap & Hlock & Hwg).
  pose proof (sum_list_with_insert permit _ _ _ w' Hi).
  pose proof (sum_list_with_insert lock_held _ _ _ w' Hi).
  pose proof (sum_list_with_insert wg_owed _ _ _ w' Hi).
  split; rewrite ?Hws, ?Hm; try lia.
  apply Forall_insert; assumption.
Qed.

Lemma step_main_Inv s s' : Inv s -> step_main pl s = Some s' -> Inv s'.
Proof.
  intros [H1 H2 H3 H4 H5] Hstep. unfold step_main in Hstep.
  step_cases Hstep; try discriminate; injection Hstep as <-.
  all: split; cbn; rewrite ?sum_list_with_snoc; cbn; try lia; auto.
  - rewrite H4. cbn. lia.
  - rewrite H4. destruct rest; cbn; lia.
  - apply Forall_app. split; [assumption|].
    constructor; [apply wf_new_worker|constructor].
Qed.

Lemma step_Inv t s s' : Inv s -> step W pl t s = Some s' -> Inv s'.
Proof.
  intros HI Hstep. destruct t as [|i|i|i]; cbn in Hstep.
  - eapply step_main_Inv; eassumption.
  - destruct (st_workers s !! i) as [w|] eqn:Hi; [|discriminate]. cbn in Hstep.
    eapply local_step_Inv; [exact Hi|exact HI|].
    apply step_worker_local; [|
      |exact Hstep].
    + eapply Forall_lookup_1; [apply HI|exact Hi].
    + rewrite (inv_lock _ HI). apply sum_list_with_in.
      eapply list_elem_of_lookup_2; exact Hi.
  - destruct (st_workers s !! i) as [w|] eqn:Hi; [|discriminate]. cbn in Hstep.
    eapply local_step_Inv; [exact Hi|exact HI|].
    apply step_reader_local; [|exact Hstep].
    eapply Forall_lookup_1; [apply HI|exact Hi].
  - destruct (st_workers s !! i) as [w|] eqn:Hi; [|discriminate]. cbn in Hstep.
    eapply local_step_Inv; [exact Hi|exact HI|].
    apply step_process_local; [|exact Hstep].
    eapply Forall_lookup_1; [apply HI|exact Hi].
Qed.

Lemma run_Inv sched s s' : Inv s -> run W pl sched s = Some s' -> Inv s'.
Proof.
  revert s. induction sched as [|t sched IH]; intros s HI Hrun; cbn in Hrun.
  - injection Hrun as <-. exact HI.
  - destruct (step W pl t s) as [s1|] eqn:Hs; [|discriminate].
    eapply IH; [|exact Hrun]. eapply step_Inv; eassumption.
Qed.

(** A running script holds a permit. *)
Lemma running_le_permit w : wf w -> (running w <= permit w)%nat.
Proof.
  intros [Hf _]. unfold running, permit, Toolchain.frame, Toolchain.full_stack in *.
  destruct (w_pc w); cbn; try lia.
  rewrite Hf. destruct (pl_verbose pl); cbn; lia.
Qed.

Lemma running_le_sem s :
  Inv s -> (sum_list_with running (st_workers s) <= st_sem s)%nat.
Proof.
  intros HI. rewrite (inv_sem _ HI).
  pose proof (inv_wf _ HI) as Hwf.
  induction Hwf as [|w ws Hw _ IH]; cbn; [lia|].
  pose proof (running_le_permit w Hw). lia.
Qed.

(** Once [BuildToolchain] has returned in verbose mode, the reader has
    seen end-of-stream, has closed [doneCh], and has printed every line
    the script wrote. *)
Lemma returned_drained w :
  wf w -> pl_verbose pl = true -> returned (w_pc w) = true ->
  w_wclosed w = true /\ w_pipe w = [] /\ w_rpc w = R_exited /\
  w_done w = true /\ w_printed w = emitted (w_platform w).
Proof.
  intros [_ Hs] Hv Hr. unfold Toolchain.stream_ok in Hs. rewrite Hv in Hs.
  destruct Hs as (_ & _ & _ & Hfin & _ & Hlines & _ & Hcl & Hdn & Hdr).
  assert (Hd : drained w = true).
  { unfold drained. destruct (w_pc w); try discriminate; reflexivity. }
  assert (Hf : finishing (w_pc w) = true).
  { unfold finishing. destruct (w_pc w); try discriminate; reflexivity. }
  specialize (Hdr Hd). specialize (Hdn Hdr). specialize (Hfin Hf).
  destruct Hcl as [Hc Hp]; [right; exact Hdn|].
  repeat split; try assumption.
  unfold Toolchain.emitted. rewrite Hfin in Hlines.
  destruct (sc_start_err _).
  - apply Hlines.
  - rewrite Hp in Hlines. rewrite !app_nil_r in Hlines. exact Hlines.
Qed.

(** Steps only add to the trace. *)
Lemma step_trace t s s' :
  step W pl t s = Some s' -> exists es, st_trace s' = st_trace s ++ es.
Proof.
  intros Hstep. destruct t as [|i|i|i]; cbn in Hstep.
  - unfold step_main in Hstep. step_cases Hstep; try discriminate;
      injection Hstep as <-; cbn; eauto using app_nil_r.
    all: exists []; symmetry; apply app_nil_r.
  - destruct (st_workers s !! i) as [w|]; [|discriminate]. cbn in Hstep.
    unfold step_worker in Hstep. step_cases Hstep; try discriminate;
      injection Hstep as <-; cbn; eauto.
    all: exists []; symmetry; apply app_nil_r.
  - destruct (st_workers s !! i) as [w|]; [|discriminate]. cbn in Hstep.
    unfold step_reader in Hstep. step_cases Hstep; try discriminate;
      injection Hstep as <-; cbn; eauto.
    all: exists []; symmetry; apply app_nil_r.
  - destruct (st_workers s !! i) as [w|]; [|discriminate]. cbn in Hstep.
    unfold step_process in Hstep. step_cases Hstep; try discriminate;
      injection Hstep as <-; cbn; eauto.
    all: exists []; symmetry; apply app_nil_r.
Qed.

Lemma run_trace sched s s' :
  run W pl sched s = Some s' -> exists es, st_trace s' = st_trace s ++ es.
Proof.
  revert s. induction sched as [|t sched IH]; intros s Hrun; cbn in Hrun.
  - injection Hrun as <-. exists []. symmetry. apply app_nil_r.
  - destruct (step W pl t s) as [s1|] eqn:Hs; [|discriminate].
    destruct (step_trace _ _ _ Hs) as [e1 H1].
    destruct (IH _ Hrun) as [e2 H2].
    exists (e1 ++ e2). rewrite H2, H1, app_assoc. reflexivity.
Qed.

(** [mainBuildToolchain] returns its local [err] or [nil]. *)
Lemma step_main_ret s s' r :
  step W pl Main s = Some s' -> st_main s' = M_ret r ->
  r = pl_err pl \/ r = None.
Proof.
  cbn. unfold step_main. intros Hstep Hr.
  step_cases Hstep; try discriminate; injection Hstep as <-; cbn in Hr;
    simplify_eq; auto.
  destruct rest; discriminate.
Qed.

End Facts.

End ToolchainFacts.

(** ** The dispatcher fan-out keeps its invariant, and returns *)

Module DispatcherFacts.

Import Dispatcher.


Section Contributions.

Context {A B : Type}.

Lemma flat_map_insert_same (f : A -> list B) (l : list A) (i : nat) (x y : A) :
  l !! i = Some x -> f y = f x -> flat_map f (<[i:=y]> l) = flat_map f l.
Proof.
  revert i. induction l as [|a l IH]; intros [|i] Hl Hf; simpl in *; try discriminate.
  - injection Hl as ->. rewrite Hf. reflexivity.
  - rewrite (IH i Hl Hf). reflexivity.
Qed.

Lemma flat_map_insert_add (f : A -> list B) (l : list A) (i : nat) (x y : A) (b : B) :
  l !! i = Some x -> f x = [] -> f y = [b] ->
  flat_map f (<[i:=y]> l) ≡ₚ flat_map f l ++ [b].
Proof.
  revert i. induction l as [|a l IH]; intros [|i] Hl Hx Hy; simpl in *; try discriminate.
  - injection Hl as ->. rewrite Hx, Hy. simpl.
    apply Permutation_cons_append.
  - rewrite (IH i Hl Hx Hy). rewrite app_assoc. reflexivity.
Qed.

Lemma flat_map_snoc (f : A -> list B) (l : list A) (x : A) :
  flat_map f (l ++ [x]) = flat_map f l ++ f x.
Proof. rewrite flat_map_app. simpl. rewrite app_nil_r. reflexivity. Qed.

End Contributions.

Section Facts.

Variable W : World.
Variable pl : plan.

Local Abbreviation compile := (Dispatcher.compile W pl).
Local Abbreviation job_errors := (Dispatcher.job_errors W pl).
Local Abbreviation job_bins := (Dispatcher.job_bins W pl).
Local Abbreviation err_contrib := (Dispatcher.err_contrib W pl).
Local Abbreviation bin_contrib := (Dispatcher.bin_contrib W pl).
Local Abbreviation wf := (Dispatcher.wf W pl).
Local Abbreviation local_step := (Dispatcher.local_step W pl).
Local Abbreviation result_of := (Dispatcher.result_of pl).
Local Abbreviation Inv := (Dispatcher.Inv W pl).
Local Abbreviation inv_sem := (Dispatcher.inv_sem W pl).
Local Abbreviation inv_cap := (Dispatcher.inv_cap W pl).
Local Abbreviation inv_lock := (Dispatcher.inv_lock W pl).
Local Abbreviation inv_mu := (Dispatcher.inv_mu W pl).
Local Abbreviation inv_wg := (Dispatcher.inv_wg W pl).
Local Abbreviation inv_wf := (Dispatcher.inv_wf W pl).
Local Abbreviation inv_jobs := (Dispatcher.inv_jobs W pl).
Local Abbreviation inv_errors := (Dispatcher.inv_errors W pl).
Local Abbreviation inv_bins := (Dispatcher.inv_bins W pl).
Local Abbreviation inv_past := (Dispatcher.inv_past W pl).
Local Abbreviation inv_ret := (Dispatcher.inv_ret W pl).
Local Abbreviation enabled := (Dispatcher.enabled W pl).
Local Abbreviation pick := (Dispatcher.pick W pl).
Local Abbreviation drive := (Dispatcher.drive W pl).

Ltac wf_crush :=
  use_hyps; simplify_eq/=;
  repeat match goal with
  | |- _ /\ _ => split
  | |- _ -> _ => intros
  end;
  use_hyps; simplify_eq/=; eauto; try congruence; try lia;
  try (destruct (st_errorLock _); cbn in *; (lia || discriminate));
  try (destruct (st_mu _); cbn in *; (lia || discriminate)).

Lemma worker_step_local i w s s' :
  wf w ->
  (lock_held w <= b2n (st_errorLock s))%nat ->
  (mu_held w <= b2n (st_mu s))%nat ->
  step_worker W pl i w s = Some s' -> local_step i w s s'.
Proof.
  intros [Hf Hr] Hlock Hmu Hstep. unfold lock_held, mu_held in *.
  destruct w as [path p pc ds bn e].
  unfold step_worker in Hstep. unfold frame, tail_stack in *.
  cbn [w_pc w_defers w_platform w_err w_path w_binName] in *.
  destruct pc; destruct e as [e1|];
    cbn in Hf, Hr, Hstep, Hlock, Hmu; step_cases Hstep; try discriminate.
  all: injection Hstep as <-.
  all: eexists; split; [reflexivity|]; split; [reflexivity|]; split; [reflexivity|].
  all: unfold Dispatcher.wf, frame, tail_stack, permit, lock_held, mu_held, wg_owed,
         Dispatcher.err_contrib, Dispatcher.bin_contrib, Dispatcher.job_errors, Dispatcher.job_bins, job_of in *; cbn in *.
  all: try (destruct Hf as [Hf|[Hf|Hf]]; simplify_eq/=).
  all: use_hyps; simplify_eq/=.
  all: repeat match goal with
       | H : (_, _) = compile _ |- _ => rewrite <- H in *; cbn in *
       | H : snd (compile _) = _ |- _ => rewrite H in *; cbn in *
       | H : is_Some (Some _) |- _ => clear H
       end.
  all: repeat match goal with
       | |- _ /\ _ => split
       end.
  all: try (left; split; reflexivity).
  all: try (right; eexists; repeat split; (reflexivity || lia)).
  all: wf_crush.
  all: unfold Dispatcher.compile; cbn; rewrite ?Heqo; try reflexivity.
  all: try (destruct (GoCrossCompile W _); reflexivity).
  all: try (left; split; reflexivity).
  all: rewrite <- Heqo; destruct (GoCrossCompile W _); reflexivity.
Qed.

(** ** The global invariant *)

Lemma dispatch_Inv_init t0 : Inv (init pl t0).
Proof.
  unfold init. destruct (jobs_of _ _) eqn:Hj.
  all: split; cbn; rewrite ?Hj; try lia; auto; discriminate.
Qed.

Lemma local_step_keeps_Inv i w s s' :
  st_workers s !! i = Some w -> Inv s -> local_step i w s s' -> Inv s'.
Proof.
  intros Hi [H1 H2 H3 H4 H5 H6 H7 H8 H9 H10 H11]
    (w' & Hws & Hm & Hjob & Hwf & Hsem & Hcap & Hlock & Hmu & Hwg & Hmono & Herr & Hbin).
  pose proof (sum_list_with_insert permit _ _ _ w' Hi).
  pose proof (sum_list_with_insert lock_held _ _ _ w' Hi).
  pose proof (sum_list_with_insert mu_held _ _ _ w' Hi).
  pose proof (sum_list_with_insert wg_owed _ _ _ w' Hi).
  assert (Hzero : past_wait (st_main s) = true -> wg_owed w = 0%nat).
  { intros Hp. specialize (H10 Hp). apply (sum_list_with_zero wg_owed (st_workers s) i w); [lia|exact Hi]. }
  split; rewrite ?Hws, ?Hm; try lia.
  - apply Forall_insert; assumption.
  - rewrite list_fmap_insert, Hjob. rewrite list_insert_id; [assumption|].
    rewrite list_lookup_fmap, Hi. reflexivity.
  - destruct Herr as [[-> Hc]|(m & -> & Hc1 & Hc2 & _)].
    + rewrite (flat_map_insert_same _ _ _ _ _ Hi Hc). assumption.
    + rewrite (flat_map_insert_add _ _ _ _ _ _ Hi Hc1 Hc2), H8. reflexivity.
  - destruct Hbin as [[-> Hc]|(m & -> & Hc1 & Hc2 & _)].
    + rewrite (flat_map_insert_same _ _ _ _ _ Hi Hc). assumption.
    + rewrite (flat_map_insert_add _ _ _ _ _ _ Hi Hc1 Hc2), H9. reflexivity.
  - intros Hp. specialize (Hzero Hp). specialize (H10 Hp). lia.
  - intros r Hr. assert (Hp : past_wait (st_main s) = true) by (rewrite Hr; reflexivity).
    specialize (Hzero Hp).
    destruct Herr as [[-> _]|(m & _ & _ & _ & ?)]; [|lia].
    destruct Hbin as [[-> _]|(m & _ & _ & _ & ?)]; [|lia].
    apply H11. exact Hr.
Qed.

Lemma main_step_Inv s s' : Inv s -> step_main pl s = Some s' -> Inv s'.
Proof.
  intros [H1 H2 H3 H4 H5 H6 H7 H8 H9 H10 H11] Hstep. unfold step_main in Hstep.
  step_cases Hstep; try discriminate; injection Hstep as <-.
  all: split; cbn; rewrite ?sum_list_with_snoc, ?flat_map_snoc, ?app_nil_r; cbn;
       rewrite ?app_nil_r; try lia; auto.
  all: try (intros r Hr; discriminate Hr).
  all: try (rewrite <- H7; cbn; rewrite ?app_nil_r; reflexivity).
  - rewrite H5. cbn. lia.
  - rewrite H5. destruct rest; cbn; lia.
  - apply Forall_app. split; [assumption|].
    constructor; [|constructor]. split; [reflexivity|discriminate].
  - rewrite <- H7. rewrite map_app. cbn. rewrite <- app_assoc.
    destruct j, rest; reflexivity.
  - destruct rest; discriminate.
  - intros r Hr. destruct rest; discriminate.
  - intros r Hr. injection Hr as <-. unfold Dispatcher.result_of. rewrite Heqb. reflexivity.
  - intros r Hr. injection Hr as <-. unfold Dispatcher.result_of. rewrite Heqb. reflexivity.
Qed.

Lemma dispatch_step_Inv t s s' : Inv s -> step W pl t s = Some s' -> Inv s'.
Proof.
  intros HI Hstep. destruct t as [|i|i|i]; cbn in Hstep; try discriminate.
  - eapply main_step_Inv; eassumption.
  - destruct (st_workers s !! i) as [w|] eqn:Hi; [|discriminate]. cbn in Hstep.
    eapply local_step_keeps_Inv; [exact Hi|exact HI|].
    apply worker_step_local; [| | |exact Hstep].
    + eapply Forall_lookup_1; [apply HI|exact Hi].
    + rewrite (inv_lock _ HI). apply sum_list_with_in.
      eapply list_elem_of_lookup_2; exact Hi.
    + rewrite (inv_mu _ HI). apply sum_list_with_in.
      eapply list_elem_of_lookup_2; exact Hi.
Qed.

Lemma dispatch_run_Inv sched s s' : Inv s -> run W pl sched s = Some s' -> Inv s'.
Proof.
  revert s. induction sched as [|t sched IH]; intros s HI Hrun; cbn in Hrun.
  - injection Hrun as <-. exact HI.
  - destruct (step W pl t s) as [s1|] eqn:Hs; [|discriminate].
    eapply IH; [|exact Hrun]. eapply dispatch_step_Inv; eassumption.
Qed.

(** ** After the barrier *)

(** A goroutine that owes no [wg.Done()] has made all its appends, holds
    no permit and no lock. *)
Lemma wg_owed_zero w :
  wf w -> wg_owed w = 0%nat ->
  (w_pc w = W_return \/ w_pc w = W_exited) /\ w_defers w = [].
Proof.
  intros [Hf _]. unfold wg_owed, frame, tail_stack in *.
  destruct (w_pc w); cbn; try lia; intros H;
    repeat match goal with
    | H : _ /\ _ |- _ => destruct H
    | H : _ \/ _ |- _ => destruct H
    end; auto;
    try (rewrite Hf in H; cbn in H; lia);
    try (match goal with H1 : w_defers w = _ |- _ => rewrite H1 in H end;
         destruct (w_err w); cbn in H; lia).
Qed.

Lemma finished_contrib w :
  wf w -> wg_owed w = 0%nat ->
  err_contrib w = job_errors (job_of w) /\ bin_contrib w = job_bins (job_of w) /\
  permit w = 0%nat /\ inflight w = 0%nat.
Proof.
  intros Hwf Hz. destruct (wg_owed_zero w Hwf Hz) as [[Hpc|Hpc] _];
    unfold Dispatcher.err_contrib, Dispatcher.bin_contrib, permit, inflight; rewrite Hpc; auto.
Qed.

Lemma past_wait_workers s :
  Inv s -> past_wait (st_main s) = true ->
  Forall (fun w => wg_owed w = 0%nat) (st_workers s).
Proof.
  intros HI Hp. pose proof (inv_past _ HI Hp) as H0.
  pose proof (inv_wg _ HI) as Hwg. rewrite H0 in Hwg.
  apply Forall_lookup_2. intros i w Hi.
  apply (sum_list_with_zero wg_owed (st_workers s) i w); [lia|exact Hi].
Qed.

Lemma past_wait_state s :
  Inv s -> past_wait (st_main s) = true ->
  st_errors s ≡ₚ flat_map job_errors (jobs_of (pl_platforms pl) (pl_mainDirs pl)) /\
  st_binPaths s ≡ₚ flat_map job_bins (jobs_of (pl_platforms pl) (pl_mainDirs pl)) /\
  st_sem s = 0%nat /\
  sum_list_with inflight (st_workers s) = 0%nat.
Proof.
  intros HI Hp.
  pose proof (past_wait_workers s HI Hp) as Hz.
  pose proof (inv_wf _ HI) as Hwf.
  pose proof (inv_jobs _ HI) as Hj.
  assert (Hpend : pending (st_main s) = []).
  { destruct (st_main s); try discriminate; reflexivity. }
  rewrite Hpend, app_nil_r in Hj. rewrite <- Hj.
  rewrite (inv_errors _ HI), (inv_bins _ HI), (inv_sem _ HI).
  clear Hj Hpend Hp HI.
  induction Hwf as [|w ws Hw _ IH]; cbn; [auto|].
  inversion Hz as [|? ? Hw0 Hz']; subst.
  destruct (finished_contrib w Hw Hw0) as (-> & -> & -> & ->).
  destruct (IH Hz') as (IH1 & IH2 & IH3 & IH4).
  rewrite IH1, IH2, IH3, IH4. auto.
Qed.

(** The compile in flight never exceeds the channel's capacity. *)
Lemma inflight_le_sem s :
  (sum_list_with inflight (st_workers s) <= sum_list_with permit (st_workers s))%nat.
Proof.
  induction (st_workers s) as [|w ws IH]; cbn; [lia|].
  assert (inflight w <= permit w)%nat.
  { unfold inflight, permit. destruct (w_pc w); lia. }
  lia.
Qed.

(** ** Progress and termination *)

Lemma step_worker_left i w s s' :
  wf w -> step_worker W pl i w s = Some s' ->
  exists w', st_workers s' = <[i:=w']> (st_workers s) /\
             st_main s' = st_main s /\ (worker_left w' < worker_left w)%nat.
Proof.
  intros [Hf _] Hstep.
  destruct w as [path p pc ds bn e].
  unfold step_worker in Hstep. unfold frame, tail_stack in *.
  cbn [w_pc w_defers w_platform w_err w_path w_binName] in *.
  destruct pc; cbn in Hf, Hstep; step_cases Hstep; try discriminate.
  all: injection Hstep as <-.
  all: eexists; split; [reflexivity|]; split; [reflexivity|].
  all: unfold worker_left; cbn; try lia.
  destruct e; subst ds; cbn; lia.
Qed.

Lemma step_measure t s s' :
  Inv s -> step W pl t s = Some s' -> (measure s' < measure s)%nat.
Proof.
  intros HI Hstep. destruct t as [|i|i|i]; cbn in Hstep; try discriminate.
  - unfold step_main in Hstep. unfold measure.
    step_cases Hstep; try discriminate; injection Hstep as <-; cbn;
      rewrite ?sum_list_with_snoc; cbn; try lia.
    destruct rest; cbn; lia.
  - destruct (st_workers s !! i) as [w|] eqn:Hi; [|discriminate]. cbn in Hstep.
    assert (Hwf : wf w) by (eapply Forall_lookup_1; [apply HI|exact Hi]).
    destruct (step_worker_left i w s s' Hwf Hstep) as (w' & Hws & Hm & Hlt).
    unfold measure. rewrite Hws, Hm.
    pose proof (sum_list_with_insert worker_left _ _ _ w' Hi). lia.
Qed.

(** A goroutine can step unless it waits for a permit, for a lock, or
    for an item in the channel, or has exited. *)
Lemma worker_enabled i w s :
  st_workers s !! i = Some w ->
  w_pc w <> W_exited ->
  (w_pc w = W_acquire -> (st_sem s < capacity pl)%nat) ->
  (w_pc w = W_lock_err -> st_errorLock s = false) ->
  (w_pc w = W_lock_mu -> st_mu s = false) ->
  (w_pc w = W_release -> (0 < st_sem s)%nat) ->
  enabled (Worker i) s = true.
Proof.
  intros Hi Hne Hacq Hle Hlm Hrel. unfold Dispatcher.enabled. cbn. rewrite Hi. cbn.
  unfold step_worker. destruct (w_pc w); try congruence; try reflexivity.
  - rewrite decide_True; [reflexivity|auto].
  - rewrite Hle; reflexivity.
  - rewrite Hlm; reflexivity.
  - specialize (Hrel eq_refl). destruct (st_sem s); [lia|reflexivity].
  - destruct (w_defers w) as [|[] ?]; reflexivity.
Qed.

Lemma progress s :
  Inv s -> (0 < capacity pl)%nat ->
  (forall r, st_main s <> M_ret r) ->
  exists t, In t (threads s) /\ enabled t s = true.
Proof.
  intros HI Hcap Hnr.
  assert (Hmain : enabled Main s = true -> exists t, In t (threads s) /\ enabled t s = true).
  { intros H. exists Main. split; [left; reflexivity|exact H]. }
  assert (Hworker : forall i w, st_workers s !! i = Some w -> enabled (Worker i) s = true ->
            exists t, In t (threads s) /\ enabled t s = true).
  { intros i w Hi H. exists (Worker i). split; [|exact H]. right.
    apply in_map, in_seq. apply lookup_lt_Some in Hi. lia. }
  destruct (st_main s) as [j rest|j rest| | |r] eqn:Hm.
  - apply Hmain. unfold Dispatcher.enabled. cbn. unfold step_main. rewrite Hm. reflexivity.
  - apply Hmain. unfold Dispatcher.enabled. cbn. unfold step_main. rewrite Hm. reflexivity.
  - destruct (decide (st_wg s = 0)) as [Hz|Hnz].
    { apply Hmain. unfold Dispatcher.enabled. cbn. unfold step_main. rewrite Hm.
      rewrite decide_True; [reflexivity|exact Hz]. }
    pose proof (inv_wg _ HI) as Hwg. rewrite Hm in Hwg. cbn in Hwg.
    pose proof (inv_sem _ HI) as Hsem.
    pose proof (inv_lock _ HI) as Hlock.
    pose proof (inv_mu _ HI) as Hmu.
    pose proof (inv_wf _ HI) as Hwf.
    destruct (st_mu s) eqn:Emu.
    { (* the holder of [mu] can step *)
      destruct (sum_list_with_pos mu_held (st_workers s)) as (i & w & Hi & Hpos);
        [cbn in Hmu; lia|].
      apply (Hworker i w Hi). apply (worker_enabled i w s Hi);
        unfold mu_held in Hpos; destruct (w_pc w); try lia; congruence. }
    destruct (st_errorLock s) eqn:Elock.
    { (* the holder of [errorLock] can step *)
      destruct (sum_list_with_pos lock_held (st_workers s)) as (i & w & Hi & Hpos);
        [cbn in Hlock; lia|].
      assert (Hw : wf w) by (eapply Forall_lookup_1; [exact Hwf|exact Hi]).
      assert (Hperm : (permit w <= st_sem s)%nat).
      { rewrite Hsem. apply sum_list_with_in. eapply list_elem_of_lookup_2; exact Hi. }
      apply (Hworker i w Hi). apply (worker_enabled i w s Hi); try congruence.
      all: destruct Hw as [Hf _]; unfold lock_held, permit, frame, tail_stack in *;
           destruct (w_pc w); try congruence; cbn in *; intros;
           repeat match goal with
           | H : _ /\ _ |- _ => destruct H
           end;
           try match goal with H1 : w_defers _ = _ |- _ => rewrite H1 in Hpos end;
           cbn in *; try lia; try congruence. }
    (* both locks are free *)
    destruct (decide (st_sem s < capacity pl)%nat) as [Hlt|Hge].
    + destruct (sum_list_with_pos wg_owed (st_workers s)) as (i & w & Hi & Hpos); [lia|].
      assert (Hw : wf w) by (eapply Forall_lookup_1; [exact Hwf|exact Hi]).
      assert (Hperm : (permit w <= st_sem s)%nat).
      { rewrite Hsem. apply sum_list_with_in. eapply list_elem_of_lookup_2; exact Hi. }
      apply (Hworker i w Hi). apply (worker_enabled i w s Hi); try congruence; auto.
      * intros Hpc. destruct Hw as [Hf _]. unfold wg_owed, frame in *.
        rewrite Hpc in *. rewrite Hf in Hpos. cbn in Hpos. lia.
      * intros Hpc. unfold permit in Hperm. rewrite Hpc in Hperm. lia.
    + destruct (sum_list_with_pos permit (st_workers s)) as (i & w & Hi & Hpos); [lia|].
      apply (Hworker i w Hi). apply (worker_enabled i w s Hi); try congruence; auto.
      all: unfold permit in Hpos; destruct (w_pc w); try lia; try congruence.
  - apply Hmain. unfold Dispatcher.enabled. cbn. unfold step_main. rewrite Hm.
    destruct (0 <? _); reflexivity.
  - exfalso. apply (Hnr r). reflexivity.
Qed.

Lemma pick_enabled s t : pick s = Some t -> exists s', step W pl t s = Some s'.
Proof.
  intros H. apply find_some in H as [_ H]. unfold Dispatcher.enabled in H.
  destruct (step W pl t s) as [s'|]; [eauto|discriminate].
Qed.

Lemma pick_progress s :
  Inv s -> (0 < capacity pl)%nat -> (forall r, st_main s <> M_ret r) ->
  exists t, pick s = Some t.
Proof.
  intros HI Hcap Hnr. destruct (pick s) as [t|] eqn:Hp; [eauto|].
  destruct (progress s HI Hcap Hnr) as (t & Hin & Hen).
  pose proof (find_none _ _ Hp t Hin) as Hf. cbn in Hf. congruence.
Qed.

(** Under the scheduler [pick], [CrossCompile] returns. *)
Lemma drive_returns fuel s :
  Inv s -> (0 < capacity pl)%nat -> (measure s <= fuel)%nat ->
  exists s' r, run W pl (drive fuel s) s = Some s' /\ st_main s' = M_ret r.
Proof.
  revert s. induction fuel as [|k IH]; intros s HI Hcap Hm.
  - unfold measure in Hm. destruct (st_main s) as [| | | |r] eqn:Hmain; cbn in Hm; try lia.
    exists s, r. split; [reflexivity|exact Hmain].
  - cbn [Dispatcher.drive]. destruct (st_main s) as [j rest|j rest| | |r] eqn:Hmain;
      try (destruct (pick_progress s HI Hcap) as [t Ht];
             [intros r; rewrite Hmain; discriminate|];
           rewrite Ht; destruct (pick_enabled s t Ht) as [s1 Hs1]; rewrite Hs1;
           pose proof (step_measure t s s1 HI Hs1) as Hlt;
           destruct (IH s1) as (s' & r & Hrun & Hr);
             [eapply dispatch_step_Inv; eassumption|exact Hcap|lia|];
           exists s', r; split; [cbn; rewrite Hs1; exact Hrun|exact Hr]).
    exists s, r. split; [reflexivity|exact Hmain].
Qed.

End Facts.

End DispatcherFacts.

(** * The sequential parts *)

Lemma resolveParallel_pos (requested cpus : Z) (goos : string) :
  1 <= resolveParallel requested cpus goos.
Proof.
  unfold resolveParallel.
  destruct (requested <=? 0) eqn:Hr; [|lia].
  destruct (String.eqb goos "solaris"); [lia|].
  destruct (cpus <? 2) eqn:Hc; lia.
Qed.

(** The plan [mainBuildToolchain] hands to its fan-out. *)
Lemma toolchain_prefix_plan W parallel pf verbose t0 pl :
  Toolchain.prefix W parallel pf verbose = (t0, Next pl) ->
  Toolchain.pl_parallel pl = 1 /\
  Toolchain.pl_err pl = None /\
  Toolchain.pl_verbose pl = verbose /\
  Toolchain.pl_platforms pl = Platforms W pf (SupportedPlatforms W (fst (GoVersion W))) /\
  (1 < parallel -> exists t, t0 = t ++ Toolchain.serial_notice).
Proof.
  unfold Toolchain.prefix.
  destruct (exec_LookPath W "go") as [p [e|]]; [discriminate|].
  destruct (GoVersionParts W) as [vp [e|]]; [discriminate|].
  cbn. unfold index.
  destruct (vp !! 0%nat) as [v0|]; [|discriminate]. cbn.
  destruct (1 <=? v0); cbn.
  - destruct (vp !! 1%nat) as [v1|]; [|discriminate]. cbn.
    destruct (5 <=? v1); cbn; [discriminate|].
    destruct (GoVersion W) as [v [e|]]; [discriminate|].
    destruct (GoRoot W) as [r [e|]]; [discriminate|].
    destruct verbose; cbn; destruct (1 <? parallel) eqn:Hp; cbn;
      intros H; injection H as <- <-; cbn; repeat split; try lia; intros _.
    + exists [EvLookPath "go"; EvGoVersionParts; EvGoVersion; EvGoRoot;
              Stdout ("Verbose mode enabled. Output from building each toolchain will be" +:+ nl);
              Stdout ("outputted to stdout as they are built." +:+ nl +:+ nl);
              EvPlatforms v]. reflexivity.
    + exists [EvLookPath "go"; EvGoVersionParts; EvGoVersion; EvGoRoot; EvPlatforms v].
      reflexivity.
  - destruct (GoVersion W) as [v [e|]]; [discriminate|].
    destruct (GoRoot W) as [r [e|]]; [discriminate|].
    destruct verbose; cbn; destruct (1 <? parallel) eqn:Hp; cbn;
      intros H; injection H as <- <-; cbn; repeat split; try lia; intros _.
    + exists [EvLookPath "go"; EvGoVersionParts; EvGoVersion; EvGoRoot;
              Stdout ("Verbose mode enabled. Output from building each toolchain will be" +:+ nl);
              Stdout ("outputted to stdout as they are built." +:+ nl +:+ nl);
              EvPlatforms v]. reflexivity.
    + exists [EvLookPath "go"; EvGoVersionParts; EvGoVersion; EvGoRoot; EvPlatforms v].
      reflexivity.
Qed.

(** The plan [CrossCompile] hands to its fan-out. *)
Lemma dispatcher_prefix_plan W t0 pl :
  Dispatcher.prefix W = (t0, Next (Dispatcher.ToDispatch pl)) ->
  Dispatcher.pl_err pl = None /\
  Dispatcher.pl_parallel pl =
    resolveParallel (parallel (fst (flags_Parse W))) (runtime_NumCPU W) (runtime_GOOS W) /\
  Dispatcher.pl_flags pl = fst (flags_Parse W) /\
  Dispatcher.pl_platforms pl <> [].
Proof.
  unfold Dispatcher.prefix.
  destruct (flags_Parse W) as [f [e|]]; [discriminate|].
  destruct (buildToolchain f); [discriminate|].
  destruct (exec_LookPath W (flagGoCmd f)) as [p [e|]]; [discriminate|].
  destruct (GoVersion W) as [v [e|]]; [discriminate|].
  destruct (flagListOSArch f); [discriminate|].
  cbn. destruct (GoMainDirs W _ _) as [dirs [e|]]; [discriminate|].
  cbn. destruct (Platforms W _ _) as [|p0 ps] eqn:Hp; [discriminate|].
  cbn. destruct (Dispatcher.makechan_ok W _); [|discriminate].
  cbn. intros H. injection H as <- <-. cbn. repeat split. discriminate.
Qed.

(** * The claims *)

(** ** Effective parallelism *)

(** C6, as stated, fails: on solaris a positive [-parallel] value is used
    as it is; [-parallel 10] gives 10 concurrent builds, not at most 3. *)
Lemma C6_counterexample :
  resolveParallel 10 48 "solaris" = 10 /\ ~ (resolveParallel 10 48 "solaris" <= 3).
Proof. split; [reflexivity|]. vm_compute. intros H. apply H. reflexivity. Qed.

(** C6, amended: when [-parallel] is [<= 0], the effective parallelism is
    the CPU count minus one, floored at 1, on every operating system other
    than solaris, and exactly 3 on solaris whatever the CPU count; a
    positive [-parallel] value is used unchanged on every operating
    system, solaris included. *)
Theorem C6_effective_parallelism (requested cpus : Z) (goos : string) :
  (requested <= 0 -> goos <> "solaris" ->
     resolveParallel requested cpus goos = Z.max 1 (cpus - 1)) /\
  (requested <= 0 -> goos = "solaris" -> resolveParallel requested cpus goos = 3) /\
  (0 < requested -> resolveParallel requested cpus goos = requested).
Proof.
  unfold resolveParallel. repeat split.
  - intros Hr Hg. apply Z.leb_le in Hr. rewrite Hr.
    apply String.eqb_neq in Hg. rewrite Hg.
    destruct (cpus <? 2) eqn:Hc; lia.
  - intros Hr ->. apply Z.leb_le in Hr. rewrite Hr. reflexivity.
  - intros Hr. destruct (requested <=? 0) eqn:Hl; [lia|reflexivity].
Qed.

Lemma C6_effective_parallelism_witness :
  resolveParallel 0 4 "linux" = 3 /\
  resolveParallel (-1) 48 "solaris" = 3 /\
  resolveParallel 10 48 "solaris" = 10.
Proof.
  split; [|split].
  - apply (proj1 (C6_effective_parallelism 0 4 "linux")); [lia|discriminate].
  - apply (proj1 (proj2 (C6_effective_parallelism (-1) 48 "solaris"))); [lia|reflexivity].
  - apply (proj2 (proj2 (C6_effective_parallelism 10 48 "solaris"))); lia.
Defined.

(** ** No valid platforms *)

(** C7: when [CrossCompile] gets as far as resolving the platforms (flags
    parsed, no [-build-toolchain], the go command found, the version read,
    no [-osarch-list], the units found) and the resolved list is empty, it
    returns [ErrNoValidPlatforms] with a nil artifact list under every
    schedule, and its trace has no goroutine start and no compile. *)
Theorem C7_no_valid_platforms W f go version dirs sched :
  flags_Parse W = (f, None) ->
  buildToolchain f = false ->
  exec_LookPath W (flagGoCmd f) = (go, None) ->
  GoVersion W = (version, None) ->
  flagListOSArch f = false ->
  GoMainDirs W (if (length (flag_Args f) =? 0)%nat then ["."] else flag_Args f)
             (flagGoCmd f) = (dirs, None) ->
  Platforms W (platformFlag f) (SupportedPlatforms W version) = [] ->
  Dispatcher.CrossCompile W sched
    = Returned (no_platform_trace f version) (None, Some Dispatcher.ErrNoValidPlatforms) /\
  forallb (fun e => negb (spawns_or_compiles e)) (no_platform_trace f version) = true.
Proof.
  intros Hp Hb Hl Hv Hlist Hd Hpl.
  unfold Dispatcher.CrossCompile, Dispatcher.prefix.
  rewrite Hp, Hb, Hl, Hv, Hlist. cbn. rewrite Hd. cbn. rewrite Hpl. cbn.
  split; reflexivity.
Qed.

Lemma C7_no_valid_platforms_witness :
  Dispatcher.CrossCompile world_no_platform [Main; Worker 0]
    = Returned (no_platform_trace (flags_with false false 2 ["a"]) "go1.4.2")
               (None, Some Dispatcher.ErrNoValidPlatforms) /\
  forallb (fun e => negb (spawns_or_compiles e))
          (no_platform_trace (flags_with false false 2 ["a"]) "go1.4.2") = true.
Proof.
  apply (C7_no_valid_platforms world_no_platform (flags_with false false 2 ["a"])
           "/usr/bin/go" "go1.4.2" ["a"] [Main; Worker 0]); reflexivity.
Defined.

(** ** The toolchain build is serial *)

(** C8: whenever [mainBuildToolchain] gets to its fan-out, whatever
    parallelism was requested, the semaphore has capacity 1 and in every
    reachable state at most one build script is running; and when the
    requested parallelism is greater than 1, the three lines of the notice
    are the last thing printed before the fan-out, so they precede
    everything the fan-out prints. *)
Theorem C8_toolchain_serial W requested pf verbose_mode t0 pl :
  Toolchain.prefix W requested pf verbose_mode = (t0, Next pl) ->
  Toolchain.capacity pl = 1%nat /\
  (1 < requested -> exists t, t0 = t ++ Toolchain.serial_notice) /\
  forall sched s,
    Toolchain.run W pl sched (Toolchain.init pl t0) = Some s ->
    (sum_list_with Toolchain.running (Toolchain.st_workers s) <= 1)%nat /\
    exists t', Toolchain.st_trace s = t0 ++ t'.
Proof.
  intros Hp. destruct (toolchain_prefix_plan _ _ _ _ _ _ Hp) as (Hpar & _ & _ & _ & Hn).
  assert (Hcap : Toolchain.capacity pl = 1%nat).
  { unfold Toolchain.capacity. rewrite Hpar. reflexivity. }
  split; [exact Hcap|]. split; [exact Hn|].
  intros sched s Hrun.
  assert (HI : Toolchain.Inv W pl s).
  { eapply ToolchainFacts.run_Inv; [apply ToolchainFacts.Inv_init|exact Hrun]. }
  split.
  - pose proof (ToolchainFacts.running_le_sem W pl s HI).
    pose proof (Toolchain.inv_cap W pl s HI). lia.
  - apply (ToolchainFacts.run_trace W pl sched _ _ Hrun).
Qed.

Lemma C8_toolchain_serial_witness :
  Toolchain.capacity c8_plan = 1%nat /\
  (exists t, c8_trace = t ++ Toolchain.serial_notice) /\
  exists s,
    Toolchain.run c8_world c8_plan c8_sched (Toolchain.init c8_plan c8_trace) = Some s /\
    (sum_list_with Toolchain.running (Toolchain.st_workers s) <= 1)%nat /\
    exists t', Toolchain.st_trace s = c8_trace ++ t'.
Proof.
  pose proof (C8_toolchain_serial c8_world 4 no_filter false c8_trace c8_plan eq_refl)
    as (Hcap & Hnotice & Hrun).
  split; [exact Hcap|]. split; [apply Hnotice; lia|].
  destruct (Toolchain.run c8_world c8_plan c8_sched (Toolchain.init c8_plan c8_trace))
    as [s|] eqn:Hs.
  - exists s. split; [reflexivity|]. apply (Hrun c8_sched s Hs).
  - vm_compute in Hs. discriminate Hs.
Defined.

(** ** Verbose mode drains the pipe *)

(** C9: in verbose mode, in every reachable state of the toolchain
    fan-out and for every goroutine whose call of [BuildToolchain] has
    returned (after a launch failure, a failed wait or a success alike),
    the writer end of the pipe is closed, the pipe is empty, the reader
    goroutine has left its loop at end-of-stream and closed [doneCh], and
    it has printed every line the script wrote. *)
Theorem C9_verbose_drain W pl t0 sched s i w :
  Toolchain.pl_verbose pl = true ->
  Toolchain.run W pl sched (Toolchain.init pl t0) = Some s ->
  Toolchain.st_workers s !! i = Some w ->
  Toolchain.returned (Toolchain.w_pc w) = true ->
  Toolchain.w_wclosed w = true /\
  Toolchain.w_pipe w = [] /\
  Toolchain.w_rpc w = Toolchain.R_exited /\
  Toolchain.w_done w = true /\
  Toolchain.w_printed w = Toolchain.emitted W pl (Toolchain.w_platform w).
Proof.
  intros Hv Hrun Hi Hret.
  assert (HI : Toolchain.Inv W pl s).
  { eapply ToolchainFacts.run_Inv; [apply ToolchainFacts.Inv_init|exact Hrun]. }
  apply ToolchainFacts.returned_drained; [|exact Hv|exact Hret].
  eapply Forall_lookup_1; [apply (Toolchain.inv_wf W pl s HI)|exact Hi].
Qed.

Lemma C9_verbose_drain_witness :
  exists s w,
    Toolchain.run c9_world c9_plan c9_sched (Toolchain.init c9_plan []) = Some s /\
    Toolchain.st_workers s !! 0%nat = Some w /\
    Toolchain.w_pc w = Toolchain.G_check /\
    Toolchain.w_rpc w = Toolchain.R_exited /\
    Toolchain.w_printed w = ["# Building C bootstrap tool." +:+ nl; "cmd/dist" +:+ nl].
Proof.
  destruct (Toolchain.run c9_world c9_plan c9_sched (Toolchain.init c9_plan []))
    as [s|] eqn:Hs; [|vm_compute in Hs; discriminate Hs].
  destruct (Toolchain.st_workers s !! 0%nat) as [w|] eqn:Hw;
    [|vm_compute in Hs; injection Hs as <-; vm_compute in Hw; discriminate Hw].
  assert (Hpc : Toolchain.w_pc w = Toolchain.G_check).
  { vm_compute in Hs. injection Hs as <-. vm_compute in Hw. injection Hw as <-. reflexivity. }
  assert (Hplat : Toolchain.w_platform w = linux_amd64).
  { vm_compute in Hs. injection Hs as <-. vm_compute in Hw. injection Hw as <-. reflexivity. }
  exists s, w. split; [reflexivity|]. split; [exact Hw|]. split; [exact Hpc|].
  destruct (C9_verbose_drain c9_world c9_plan [] c9_sched s 0%nat w eq_refl Hs Hw)
    as (_ & _ & Hr & _ & Hpr).
  - rewrite Hpc. reflexivity.
  - split; [exact Hr|]. rewrite Hpr, Hplat. reflexivity.
Defined.

(** ** Bounded parallelism *)

Lemma dispatcher_exited_sem W pl s :
  Dispatcher.Inv W pl s ->
  Forall (fun w => Dispatcher.w_pc w = Dispatcher.W_exited) (Dispatcher.st_workers s) ->
  Dispatcher.st_sem s = 0%nat.
Proof.
  intros HI Hall. rewrite (Dispatcher.inv_sem W pl s HI).
  induction Hall as [|w ws Hw _ IH]; cbn; [reflexivity|].
  unfold Dispatcher.permit at 1. rewrite Hw. exact IH.
Qed.

Lemma toolchain_returned_sem W pl s :
  Toolchain.Inv W pl s ->
  Forall (fun w => Toolchain.returned (Toolchain.w_pc w) = true) (Toolchain.st_workers s) ->
  Toolchain.st_sem s = 0%nat.
Proof.
  intros HI Hall. rewrite (Toolchain.inv_sem W pl s HI).
  pose proof (Toolchain.inv_wf W pl s HI) as Hwf.
  induction Hall as [|w ws Hw _ IH]; cbn; [reflexivity|].
  inversion Hwf as [|? ? [Hf _] Hwf']; subst.
  rewrite (IH Hwf'). unfold Toolchain.permit, Toolchain.frame in *.
  destruct (Toolchain.w_pc w); try discriminate; cbn;
    repeat match goal with
    | H : _ \/ _ |- _ => destruct H
    end;
    match goal with H : Toolchain.w_defers _ = _ |- _ => rewrite H end; reflexivity.
Qed.

(** C5: in every reachable state of the dispatcher's fan-out the number
    of goroutines whose [GoCrossCompile] call is in flight is at most the
    number of items in the semaphore channel, which is at most its
    capacity [P]; and once every goroutine has exited, whether its compile
    failed or not, the channel is empty again. The same holds for the
    toolchain fan-out, with the running build scripts and the goroutines
    whose [BuildToolchain] has returned. *)
Theorem C5_bounded_inflight :
  (forall W pl t0 sched s,
     Dispatcher.run W pl sched (Dispatcher.init pl t0) = Some s ->
     (sum_list_with Dispatcher.inflight (Dispatcher.st_workers s)
        <= Dispatcher.st_sem s)%nat /\
     (Dispatcher.st_sem s <= Dispatcher.capacity pl)%nat /\
     (Forall (fun w => Dispatcher.w_pc w = Dispatcher.W_exited) (Dispatcher.st_workers s) ->
        Dispatcher.st_sem s = 0%nat)) /\
  (forall W pl t0 sched s,
     Toolchain.run W pl sched (Toolchain.init pl t0) = Some s ->
     (sum_list_with Toolchain.running (Toolchain.st_workers s)
        <= Toolchain.st_sem s)%nat /\
     (Toolchain.st_sem s <= Toolchain.capacity pl)%nat /\
     (Forall (fun w => Toolchain.returned (Toolchain.w_pc w) = true) (Toolchain.st_workers s) ->
        Toolchain.st_sem s = 0%nat)).
Proof.
  split; intros W pl t0 sched s Hrun.
  - assert (HI : Dispatcher.Inv W pl s).
    { eapply DispatcherFacts.dispatch_run_Inv; [apply DispatcherFacts.dispatch_Inv_init|exact Hrun]. }
    split; [|split].
    + rewrite (Dispatcher.inv_sem W pl s HI). apply DispatcherFacts.inflight_le_sem.
    + apply (Dispatcher.inv_cap W pl s HI).
    + apply (dispatcher_exited_sem W pl s HI).
  - assert (HI : Toolchain.Inv W pl s).
    { eapply ToolchainFacts.run_Inv; [apply ToolchainFacts.Inv_init|exact Hrun]. }
    split; [|split].
    + apply (ToolchainFacts.running_le_sem W pl s HI).
    + apply (Toolchain.inv_cap W pl s HI).
    + apply (toolchain_returned_sem W pl s HI).
Qed.

Lemma C5_bounded_inflight_witness :
  (exists s,
     Dispatcher.run world_2x3 c5_plan c5_sched (Dispatcher.init c5_plan []) = Some s /\
     sum_list_with Dispatcher.inflight (Dispatcher.st_workers s) = 2%nat /\
     (sum_list_with Dispatcher.inflight (Dispatcher.st_workers s)
        <= Dispatcher.st_sem s)%nat /\
     (Dispatcher.st_sem s <= 2)%nat) /\
  (exists s,
     Toolchain.run c8_world c8_plan c8_sched (Toolchain.init c8_plan c8_trace) = Some s /\
     sum_list_with Toolchain.running (Toolchain.st_workers s) = 1%nat /\
     (sum_list_with Toolchain.running (Toolchain.st_workers s)
        <= Toolchain.st_sem s)%nat /\
     (Toolchain.st_sem s <= 1)%nat).
Proof.
  split.
  - destruct (Dispatcher.run world_2x3 c5_plan c5_sched (Dispatcher.init c5_plan []))
      as [s|] eqn:Hs; [|vm_compute in Hs; discriminate Hs].
    exists s. split; [reflexivity|].
    destruct (proj1 C5_bounded_inflight world_2x3 c5_plan [] c5_sched s Hs)
      as (H1 & H2 & _).
    split; [|split; [exact H1|exact H2]].
    vm_compute in Hs. injection Hs as <-. reflexivity.
  - destruct (Toolchain.run c8_world c8_plan c8_sched (Toolchain.init c8_plan c8_trace))
      as [s|] eqn:Hs; [|vm_compute in Hs; discriminate Hs].
    exists s. split; [reflexivity|].
    destruct (proj2 C5_bounded_inflight c8_world c8_plan c8_trace c8_sched s Hs)
      as (H1 & H2 & _).
    split; [|split; [exact H1|exact H2]].
    vm_compute in Hs. injection Hs as <-. reflexivity.
Defined.

(** ** What the dispatcher returns *)

Lemma jobs_of_length (platforms : list Platform) (mainDirs : list string) :
  length (Dispatcher.jobs_of platforms mainDirs)
  = (length platforms * length mainDirs)%nat.
Proof.
  unfold Dispatcher.jobs_of. induction platforms as [|p ps IH]; [reflexivity|].
  cbn [flat_map length Nat.mul]. rewrite length_app, length_map.
  apply f_equal. exact IH.
Qed.

Lemma job_errors_none W pl (js : list Dispatcher.job) :
  Forall (fun j => snd (Dispatcher.compile W pl j) = None) js ->
  flat_map (Dispatcher.job_errors W pl) js = [].
Proof.
  induction 1 as [|j js Hj _ IH]; cbn; [reflexivity|].
  unfold Dispatcher.job_errors at 1. rewrite Hj. exact IH.
Qed.

Lemma job_errors_one W pl (before after : list Dispatcher.job) j e :
  snd (Dispatcher.compile W pl j) = Some e ->
  Forall (fun j' => snd (Dispatcher.compile W pl j') = None) (before ++ after) ->
  flat_map (Dispatcher.job_errors W pl) (before ++ j :: after)
  = [Dispatcher.error_line (snd j) (Some e)].
Proof.
  intros Hj Hall. apply Forall_app in Hall as [Hb Ha].
  rewrite flat_map_app. cbn.
  rewrite (job_errors_none W pl before Hb), (job_errors_none W pl after Ha).
  unfold Dispatcher.job_errors. rewrite Hj. reflexivity.
Qed.

(** The dispatch never sets the error [CrossCompile] returns: it is the
    [err] left by [GoMainDirs], which is [nil] once the fan-out starts. *)
Lemma CrossCompile_dispatch_error_nil W t0 pl sched s r :
  Dispatcher.prefix W = (t0, Next (Dispatcher.ToDispatch pl)) ->
  Dispatcher.run W pl sched (Dispatcher.init pl t0) = Some s ->
  Dispatcher.st_main s = Dispatcher.M_ret r ->
  snd r = None.
Proof.
  intros Hp Hrun Hr.
  destruct (dispatcher_prefix_plan W t0 pl Hp) as (Herr & _).
  assert (HI : Dispatcher.Inv W pl s).
  { eapply DispatcherFacts.dispatch_run_Inv; [apply DispatcherFacts.dispatch_Inv_init|exact Hrun]. }
  rewrite (Dispatcher.inv_ret W pl s HI r Hr). unfold Dispatcher.result_of.
  destruct (0 <? _); [exact Herr|reflexivity].
Qed.

(** Once [CrossCompile] has returned, its goroutines (all past their
    deferred [wg.Done()]) neither print nor append: the report printed
    before the return stays the end of the trace. *)
Lemma dispatcher_run_report W pl sched s s' :
  Dispatcher.Inv W pl s ->
  (forall r, Dispatcher.st_main s = Dispatcher.M_ret r -> Dispatcher.st_errors s <> [] ->
     exists t', Dispatcher.st_trace s = t' ++ Dispatcher.report (Dispatcher.st_errors s)) ->
  Dispatcher.run W pl sched s = Some s' ->
  forall r, Dispatcher.st_main s' = Dispatcher.M_ret r -> Dispatcher.st_errors s' <> [] ->
    exists t', Dispatcher.st_trace s' = t' ++ Dispatcher.report (Dispatcher.st_errors s').
Proof.
  revert s. induction sched as [|t sched IH]; intros s HI Hs Hrun; cbn in Hrun.
  - injection Hrun as <-. exact Hs.
  - destruct (Dispatcher.step W pl t s) as [s1|] eqn:Hstep; [|discriminate].
    apply (IH s1); [eapply DispatcherFacts.dispatch_step_Inv; eassumption| |exact Hrun].
    clear IH Hrun. intros r Hr Hne. destruct t as [|i|i|i]; cbn in Hstep; try discriminate.
    + unfold Dispatcher.step_main in Hstep.
      step_cases Hstep; try discriminate; injection Hstep as <-; cbn in Hr, Hne |- *;
        try discriminate.
      * destruct rest; discriminate.
      * exists (Dispatcher.st_trace s). reflexivity.
      * destruct (Dispatcher.st_errors s); [congruence|discriminate].
    + destruct (Dispatcher.st_workers s !! i) as [w|] eqn:Hi; [|discriminate]. cbn in Hstep.
      assert (Hfrozen : forall r0, Dispatcher.st_main s = Dispatcher.M_ret r0 ->
                (Dispatcher.w_pc w = Dispatcher.W_return \/
                 Dispatcher.w_pc w = Dispatcher.W_exited) /\ Dispatcher.w_defers w = []).
      { intros r0 Hr0. apply (DispatcherFacts.wg_owed_zero W pl).
        - eapply Forall_lookup_1; [apply (Dispatcher.inv_wf W pl s HI)|exact Hi].
        - assert (Hp : Dispatcher.past_wait (Dispatcher.st_main s) = true)
            by (rewrite Hr0; reflexivity).
          exact (Forall_lookup_1 _ _ _ _ (DispatcherFacts.past_wait_workers W pl s HI Hp) Hi). }
      unfold Dispatcher.step_worker in Hstep.
      destruct (Dispatcher.w_pc w) eqn:Hpc; step_cases Hstep; try discriminate;
        injection Hstep as <-; cbn in Hr, Hne |- *;
        destruct (Hfrozen r Hr) as [[Hp|Hp] Hd]; try discriminate Hp; try congruence.
      apply (Hs r Hr Hne).
Qed.

(** C2, as stated, fails: for 2 units over 3 platforms with [-parallel 2]
    and one failing invocation, [CrossCompile] returns a nil artifact list
    (and a nil error), not a list of 5 paths. *)
Lemma C2_counterexample :
  length (Dispatcher.jobs_of [linux_amd64; darwin_amd64; windows_386] ["a"; "b"]) = 6%nat /\
  (exists t, Dispatcher.CrossCompile world_2x3 sched_2x3 = Returned t (None, None)) /\
  ~ C2_claim world_2x3 sched_2x3.
Proof.
  split; [reflexivity|].
  assert (H : exists t, Dispatcher.CrossCompile world_2x3 sched_2x3 = Returned t (None, None)).
  { eexists. vm_compute. reflexivity. }
  split; [exact H|].
  destruct H as [t Ht]. intros (t' & l & e & Hc & _). rewrite Ht in Hc. discriminate Hc.
Qed.

(** C2, amended: whenever [CrossCompile] starts its fan-out, some schedule
    lets it return, and whenever it returns: the lines recorded in
    [errors] are exactly the lines ["<platform> error: <err>"] of the
    failing invocations (one per failure, none for a success); if at least
    one invocation failed the artifact list returned is nil; if none
    failed the list returned has one entry per invocation, the unit path
    joined with the artifact name by the path separator, and the error is
    nil; if at least one failed, the last thing printed is the report on
    standard error: the count line, then one line ["--> <line>"] for
    every recorded line. For 2 units over 3 platforms with parallelism 2
    and exactly one failing invocation there are 6 invocations, exactly
    one line is recorded, it names the failing platform, it is printed,
    and the artifact list returned is nil. The fan-out starts only if the
    semaphore could be made: a [-parallel] value beyond what
    [make(chan int, parallel)] accepts is a panic, not a dispatch. *)
Theorem C2_dispatch_results W t0 pl :
  Dispatcher.prefix W = (t0, Next (Dispatcher.ToDispatch pl)) ->
  (exists sched t r, Dispatcher.CrossCompile W sched = Returned t r) /\
  (forall sched s r,
     Dispatcher.run W pl sched (Dispatcher.init pl t0) = Some s ->
     Dispatcher.st_main s = Dispatcher.M_ret r ->
     let jobs := Dispatcher.jobs_of (Dispatcher.pl_platforms pl) (Dispatcher.pl_mainDirs pl) in
     Dispatcher.CrossCompile W sched = Returned (Dispatcher.st_trace s) r /\
     Dispatcher.st_errors s ≡ₚ flat_map (Dispatcher.job_errors W pl) jobs /\
     (flat_map (Dispatcher.job_errors W pl) jobs <> [] -> fst r = None) /\
     (flat_map (Dispatcher.job_errors W pl) jobs <> [] ->
        exists t',
          Dispatcher.st_trace s
          = t' ++ Stderr (nl +:+ fmt_d (Z.of_nat (length (Dispatcher.st_errors s)))
                          +:+ " errors occurred:" +:+ nl)
                  :: map (fun err => Stderr ("--> " +:+ err +:+ nl))
                         (Dispatcher.st_errors s)) /\
     (flat_map (Dispatcher.job_errors W pl) jobs = [] ->
        exists l, r = (Some l, None) /\ l ≡ₚ flat_map (Dispatcher.job_bins W pl) jobs) /\
     (forall before j after e,
        length (Dispatcher.pl_platforms pl) = 3%nat ->
        length (Dispatcher.pl_mainDirs pl) = 2%nat ->
        Dispatcher.capacity pl = 2%nat ->
        jobs = before ++ j :: after ->
        snd (Dispatcher.compile W pl j) = Some e ->
        Forall (fun j' => snd (Dispatcher.compile W pl j') = None) (before ++ after) ->
        length jobs = 6%nat /\
        Dispatcher.st_errors s = [Dispatcher.error_line (snd j) (Some e)] /\
        (exists t',
           Dispatcher.st_trace s
           = t' ++ [Stderr (nl +:+ "1 errors occurred:" +:+ nl);
                    Stderr ("--> " +:+ Dispatcher.error_line (snd j) (Some e) +:+ nl)]) /\
        fst r = None)).
Proof.
  intros Hp.
  destruct (dispatcher_prefix_plan W t0 pl Hp) as (Herr & Hpar & _ & _).
  assert (Hcap : (0 < Dispatcher.capacity pl)%nat).
  { unfold Dispatcher.capacity. rewrite Hpar.
    pose proof (resolveParallel_pos (parallel (fst (flags_Parse W)))
                  (runtime_NumCPU W) (runtime_GOOS W)). lia. }
  split.
  - destruct (DispatcherFacts.drive_returns W pl
                (Dispatcher.measure (Dispatcher.init pl t0)) (Dispatcher.init pl t0))
      as (s & r & Hrun & Hr); [apply DispatcherFacts.dispatch_Inv_init|exact Hcap|lia|].
    exists (Dispatcher.drive W pl (Dispatcher.measure (Dispatcher.init pl t0))
              (Dispatcher.init pl t0)), (Dispatcher.st_trace s), r.
    unfold Dispatcher.CrossCompile. rewrite Hp, Hrun, Hr. reflexivity.
  - intros sched s r Hrun Hr jobs.
    assert (HI : Dispatcher.Inv W pl s).
    { eapply DispatcherFacts.dispatch_run_Inv; [apply DispatcherFacts.dispatch_Inv_init|exact Hrun]. }
    destruct (DispatcherFacts.past_wait_state W pl s HI) as (Herrs & Hbins & _ & _);
      [rewrite Hr; reflexivity|].
    fold jobs in Herrs, Hbins.
    pose proof (Dispatcher.inv_ret W pl s HI r Hr) as Hres.
    unfold Dispatcher.result_of in Hres.
    assert (Hnil : fst r = None <-> flat_map (Dispatcher.job_errors W pl) jobs <> [] ).
    { rewrite Hres. pose proof (Permutation_length Herrs) as Hlen.
      destruct (flat_map (Dispatcher.job_errors W pl) jobs) as [|x xs] eqn:Hfm.
      - cbn in Hlen. rewrite Hlen. cbn. split; [discriminate|congruence].
      - cbn in Hlen. rewrite Hlen. cbn. split; [discriminate|reflexivity]. }
    assert (Hprinted : Dispatcher.st_errors s <> [] ->
              exists t',
                Dispatcher.st_trace s = t' ++ Dispatcher.report (Dispatcher.st_errors s)).
    { apply (dispatcher_run_report W pl sched (Dispatcher.init pl t0) s
               (DispatcherFacts.dispatch_Inv_init W pl t0)) with (r := r);
        [|exact Hrun|exact Hr].
      intros r0 H0. cbn in H0.
      destruct (Dispatcher.jobs_of (Dispatcher.pl_platforms pl) (Dispatcher.pl_mainDirs pl));
        discriminate. }
    split; [|split; [exact Herrs|split; [apply Hnil|split; [|split]]]].
    + unfold Dispatcher.CrossCompile. rewrite Hp, Hrun, Hr. reflexivity.
    + intros Hsome. apply Hprinted. intros Hnone. rewrite Hnone in Herrs.
      symmetry in Herrs. apply Permutation_nil_r in Herrs. exact (Hsome Herrs).
    + intros Hnone. rewrite Hnone in Herrs. apply Permutation_nil_r in Herrs.
      rewrite Herrs in Hres. cbn in Hres. exists (Dispatcher.st_binPaths s).
      split; [exact Hres|exact Hbins].
    + intros before j after e H3 H2 _ Hjobs Hj Hothers.
      assert (Hone : Dispatcher.st_errors s = [Dispatcher.error_line (snd j) (Some e)]).
      { rewrite Hjobs, (job_errors_one W pl before after j e Hj Hothers) in Herrs.
        apply Permutation_singleton_r in Herrs. exact Herrs. }
      split; [|split; [exact Hone|split]].
      * unfold jobs. rewrite jobs_of_length, H3, H2. reflexivity.
      * destruct Hprinted as [t' Ht']; [rewrite Hone; discriminate|].
        exists t'. rewrite Ht', Hone. reflexivity.
      * apply Hnil. rewrite Hjobs, (job_errors_one W pl before after j e Hj Hothers).
        discriminate.
Qed.

Lemma C2_dispatch_results_witness :
  exists s,
    Dispatcher.run world_2x3 c5_plan sched_2x3 (Dispatcher.init c5_plan c2_trace) = Some s /\
    Dispatcher.st_errors s = ["darwin/amd64 error: exit status 2"] /\
    (exists t',
       Dispatcher.st_trace s
       = t' ++ [Stderr (nl +:+ "1 errors occurred:" +:+ nl);
                Stderr ("--> darwin/amd64 error: exit status 2" +:+ nl)]) /\
    Dispatcher.CrossCompile world_2x3 sched_2x3
      = Returned (Dispatcher.st_trace s) (None, None).
Proof.
  pose proof (C2_dispatch_results world_2x3 c2_trace c5_plan eq_refl) as [_ H].
  destruct (Dispatcher.run world_2x3 c5_plan sched_2x3 (Dispatcher.init c5_plan c2_trace))
    as [s|] eqn:Hs; [|vm_compute in Hs; discriminate Hs].
  assert (Hr : Dispatcher.st_main s = Dispatcher.M_ret (None, None)).
  { vm_compute in Hs. injection Hs as <-. reflexivity. }
  destruct (H sched_2x3 s (None, None) Hs Hr) as (Hcc & _ & _ & _ & _ & Hscen).
  destruct (Hscen [("a", linux_amd64); ("b", linux_amd64); ("a", darwin_amd64)]
                  ("b", darwin_amd64)
                  [("a", windows_386); ("b", windows_386)]
                  "exit status 2" eq_refl eq_refl eq_refl eq_refl eq_refl)
    as (_ & He & Hpr & _).
  - repeat constructor.
  - exists s. split; [reflexivity|]. split; [exact He|]. split; [exact Hpr|exact Hcc].
Defined.

(** C1 (the code breaks it): one unit, one platform, the compile fails;
    [CrossCompile] prints the failure and returns a nil error. *)
Theorem C1_failed_dispatch_returns_nil_error :
  exists t,
    Dispatcher.CrossCompile world_1x1_fails sched_1x1 = Returned t (None, None) /\
    In (Stderr (nl +:+ "1 errors occurred:" +:+ nl)) t /\
    In (Stderr ("--> linux/amd64 error: exit status 2" +:+ nl)) t.
Proof.
  eexists. split; [vm_compute; reflexivity|].
  split; cbn; tauto.
Qed.

(** ** What the toolchain orchestrator returns *)

(** The fan-out of [mainBuildToolchain] returns its local [err] or
    [nil], never an error built from [errs]. *)
Lemma toolchain_run_ret W pl sched s s' :
  Toolchain.Inv W pl s ->
  (forall r, Toolchain.st_main s = Toolchain.M_ret r ->
             r = Toolchain.pl_err pl \/ r = None) ->
  Toolchain.run W pl sched s = Some s' ->
  forall r, Toolchain.st_main s' = Toolchain.M_ret r ->
            r = Toolchain.pl_err pl \/ r = None.
Proof.
  revert s. induction sched as [|t sched IH]; intros s HI Hs Hrun; cbn in Hrun.
  - injection Hrun as <-. exact Hs.
  - destruct (Toolchain.step W pl t s) as [s1|] eqn:Hstep; [|discriminate].
    apply (IH s1); [eapply ToolchainFacts.step_Inv; eassumption| |exact Hrun].
    intros r Hr. destruct t as [|i|i|i].
    + eapply ToolchainFacts.step_main_ret; eassumption.
    + cbn in Hstep. destruct (Toolchain.st_workers s !! i) as [w|] eqn:Hi; [|discriminate].
      cbn in Hstep. apply Hs. rewrite <- Hr. symmetry.
      destruct (ToolchainFacts.step_worker_local W pl i w s s1) as (w' & _ & Hm & _);
        [eapply Forall_lookup_1; [apply HI|exact Hi]| |exact Hstep|exact Hm].
      rewrite (Toolchain.inv_lock W pl s HI). apply sum_list_with_in.
      eapply list_elem_of_lookup_2; exact Hi.
    + cbn in Hstep. destruct (Toolchain.st_workers s !! i) as [w|] eqn:Hi; [|discriminate].
      cbn in Hstep. apply Hs. rewrite <- Hr. symmetry.
      destruct (ToolchainFacts.step_reader_local W pl i w s s1) as (w' & _ & Hm & _);
        [eapply Forall_lookup_1; [apply HI|exact Hi]|exact Hstep|exact Hm].
    + cbn in Hstep. destruct (Toolchain.st_workers s !! i) as [w|] eqn:Hi; [|discriminate].
      cbn in Hstep. apply Hs. rewrite <- Hr. symmetry.
      destruct (ToolchainFacts.step_process_local W pl i w s s1) as (w' & _ & Hm & _);
        [eapply Forall_lookup_1; [apply HI|exact Hi]|exact Hstep|exact Hm].
Qed.

Lemma mainBuildToolchain_fanout_nil W requested pf verbose_mode t0 pl sched s r :
  Toolchain.prefix W requested pf verbose_mode = (t0, Next pl) ->
  Toolchain.run W pl sched (Toolchain.init pl t0) = Some s ->
  Toolchain.st_main s = Toolchain.M_ret r ->
  r = None.
Proof.
  intros Hp Hrun Hr.
  destruct (toolchain_prefix_plan _ _ _ _ _ _ Hp) as (_ & Herr & _).
  destruct (toolchain_run_ret W pl sched _ s (ToolchainFacts.Inv_init W pl t0)) with (r := r)
    as [H|H]; try assumption; [|congruence].
  intros r0 H0. cbn in H0. destruct (Toolchain.pl_platforms pl); discriminate.
Qed.

(** C4 (the code breaks it): one platform whose build fails; the failure
    is collected and printed, and [mainBuildToolchain] returns [nil]. *)
Theorem C4_failed_toolchain_returns_nil :
  exists t,
    Toolchain.mainBuildToolchain c3_world 4 no_filter false c4_sched = Returned t None /\
    In (Stderr (nl +:+ "1 errors occurred:" +:+ nl)) t.
Proof.
  eexists. split; [vm_compute; reflexivity|]. cbn. tauto.
Qed.

(** C3 (the code breaks it in the toolchain orchestrator): a reachable
    state in which [mainBuildToolchain] is past [wg.Wait()], about to read
    [errs], while the goroutine of the failed build is about to append to
    [errs]; either can go first, and when the read goes first,
    [mainBuildToolchain] returns having seen no error and the append
    happens afterwards. *)
Theorem C3_toolchain_read_races_append :
  exists s w,
    Toolchain.run c3_world c3_plan c3_sched (Toolchain.init c3_plan []) = Some s /\
    Toolchain.st_main s = Toolchain.M_read /\
    Toolchain.st_workers s !! 0%nat = Some w /\
    Toolchain.w_pc w = Toolchain.G_append /\
    Toolchain.st_errs s = [] /\
    is_Some (Toolchain.step c3_world c3_plan Main s) /\
    is_Some (Toolchain.step c3_world c3_plan (Worker 0) s) /\
    exists s',
      Toolchain.run c3_world c3_plan [Main; Worker 0] s = Some s' /\
      Toolchain.st_main s' = Toolchain.M_ret None /\
      length (Toolchain.st_errs s') = 1%nat.
Proof.
  eexists. eexists. split; [vm_compute; reflexivity|].
  split; [reflexivity|]. split; [reflexivity|]. split; [reflexivity|].
  split; [reflexivity|]. split; [eexists; vm_compute; reflexivity|].
  split; [eexists; vm_compute; reflexivity|].
  eexists. split; [vm_compute; reflexivity|]. split; reflexivity.
Qed.

(** The dispatcher keeps the barrier: once [CrossCompile] is past
    [wg.Wait()], every goroutine has made all its appends. *)
Lemma dispatcher_barrier W pl t0 sched s :
  Dispatcher.run W pl sched (Dispatcher.init pl t0) = Some s ->
  Dispatcher.past_wait (Dispatcher.st_main s) = true ->
  Forall (fun w => Dispatcher.past_append_bin (Dispatcher.w_pc w) = true /\
                   Dispatcher.past_append_err (Dispatcher.w_pc w) = true)
         (Dispatcher.st_workers s).
Proof.
  intros Hrun Hp.
  assert (HI : Dispatcher.Inv W pl s).
  { eapply DispatcherFacts.dispatch_run_Inv; [apply DispatcherFacts.dispatch_Inv_init|exact Hrun]. }
  pose proof (DispatcherFacts.past_wait_workers W pl s HI Hp) as Hz.
  pose proof (Dispatcher.inv_wf W pl s HI) as Hwf.
  induction Hwf as [|w ws Hw _ IH]; [constructor|].
  inversion Hz as [|? ? Hw0 Hz']; subst. constructor; [|exact (IH Hz')].
  destruct (DispatcherFacts.wg_owed_zero W pl w Hw Hw0) as [[Hpc|Hpc] _];
    rewrite Hpc; split; reflexivity.
Qed.

(** * Further properties of the dispatcher fan-out *)

Lemma dispatcher_run_app W pl (a b : list tid) s :
  Dispatcher.run W pl (a ++ b) s
  = match Dispatcher.run W pl a s with
    | Some s' => Dispatcher.run W pl b s'
    | None => None
    end.
Proof.
  revert s. induction a as [|t a IH]; intros s; cbn; [reflexivity|].
  destruct (Dispatcher.step W pl t s); [apply IH|reflexivity].
Qed.

Lemma dispatcher_reachable_Inv W pl t0 sched s :
  Dispatcher.run W pl sched (Dispatcher.init pl t0) = Some s -> Dispatcher.Inv W pl s.
Proof.
  intros H. eapply DispatcherFacts.dispatch_run_Inv; [apply DispatcherFacts.dispatch_Inv_init|exact H].
Qed.

Lemma dispatcher_capacity_pos W t0 pl :
  Dispatcher.prefix W = (t0, Next (Dispatcher.ToDispatch pl)) ->
  (0 < Dispatcher.capacity pl)%nat.
Proof.
  intros Hp. destruct (dispatcher_prefix_plan W t0 pl Hp) as (_ & Hpar & _).
  unfold Dispatcher.capacity. rewrite Hpar.
  pose proof (resolveParallel_pos (parallel (fst (flags_Parse W)))
                (runtime_NumCPU W) (runtime_GOOS W)). lia.
Qed.

(** X1: the dispatcher cannot deadlock. Whenever [CrossCompile] gets to
    its fan-out (in particular the semaphore could be made: a [-parallel]
    value that [make(chan int, parallel)] refuses is a panic, not a
    dispatch), and whatever the goroutines have done so far, the schedule
    can be continued so that [CrossCompile] returns: no goroutine waits
    for ever for a permit, for [errorLock] or for [mu], and [wg.Wait()]
    is passed. *)
Theorem dispatch_never_stuck W t0 pl sched s :
  Dispatcher.prefix W = (t0, Next (Dispatcher.ToDispatch pl)) ->
  Dispatcher.run W pl sched (Dispatcher.init pl t0) = Some s ->
  exists more t r, Dispatcher.CrossCompile W (sched ++ more) = Returned t r.
Proof.
  intros Hp Hrun.
  pose proof (dispatcher_reachable_Inv W pl t0 sched s Hrun) as HI.
  destruct (DispatcherFacts.drive_returns W pl (Dispatcher.measure s) s HI
              (dispatcher_capacity_pos W t0 pl Hp)) as (s' & r & Hrun' & Hr); [lia|].
  exists (Dispatcher.drive W pl (Dispatcher.measure s) s), (Dispatcher.st_trace s'), r.
  unfold Dispatcher.CrossCompile. rewrite Hp, dispatcher_run_app, Hrun, Hrun', Hr.
  reflexivity.
Qed.

Lemma dispatch_never_stuck_witness :
  exists more t r, Dispatcher.CrossCompile world_2x3 (c5_sched ++ more) = Returned t r.
Proof.
  destruct (Dispatcher.run world_2x3 c5_plan c5_sched (Dispatcher.init c5_plan c2_trace))
    as [s|] eqn:Hs; [|vm_compute in Hs; discriminate Hs].
  exact (dispatch_never_stuck world_2x3 c2_trace c5_plan c5_sched s eq_refl Hs).
Defined.

Lemma sum_list_with_two {A} (f : A -> nat) (l : list A) (i j : nat) (x y : A) :
  i <> j -> l !! i = Some x -> l !! j = Some y ->
  (f x + f y <= sum_list_with f l)%nat.
Proof.
  revert i j. induction l as [|a l IH]; intros [|i] [|j] Hne Hi Hj; cbn in *;
    try discriminate; try congruence.
  - injection Hi as ->. pose proof (sum_list_with_in y f l (list_elem_of_lookup_2 _ _ _ Hj)). lia.
  - injection Hj as ->. pose proof (sum_list_with_in x f l (list_elem_of_lookup_2 _ _ _ Hi)). lia.
  - assert (i <> j) by congruence. specialize (IH i j H Hi Hj). lia.
Qed.

(** X2: the two mutexes of [CrossCompile] exclude. In every reachable
    state, two different goroutines are never both between [mu.Lock()]
    and [mu.Unlock()], and never both between [errorLock.Lock()] and the
    deferred [errorLock.Unlock()]; a goroutine inside either section finds
    the mutex marked as held. *)
Theorem dispatch_mutual_exclusion W pl t0 sched s i j wi wj :
  Dispatcher.run W pl sched (Dispatcher.init pl t0) = Some s ->
  i <> j ->
  Dispatcher.st_workers s !! i = Some wi ->
  Dispatcher.st_workers s !! j = Some wj ->
  (Dispatcher.mu_held wi + Dispatcher.mu_held wj <= 1)%nat /\
  (Dispatcher.lock_held wi + Dispatcher.lock_held wj <= 1)%nat /\
  ((0 < Dispatcher.mu_held wi)%nat -> Dispatcher.st_mu s = true) /\
  ((0 < Dispatcher.lock_held wi)%nat -> Dispatcher.st_errorLock s = true).
Proof.
  intros Hrun Hne Hi Hj.
  pose proof (dispatcher_reachable_Inv W pl t0 sched s Hrun) as HI.
  pose proof (sum_list_with_two Dispatcher.mu_held _ i j wi wj Hne Hi Hj) as Hmu.
  pose proof (sum_list_with_two Dispatcher.lock_held _ i j wi wj Hne Hi Hj) as Hlk.
  rewrite <- (Dispatcher.inv_mu W pl s HI) in Hmu.
  rewrite <- (Dispatcher.inv_lock W pl s HI) in Hlk.
  destruct (Dispatcher.st_mu s), (Dispatcher.st_errorLock s); cbn in *;
    repeat split; try lia; auto.
Qed.

Lemma dispatch_mutual_exclusion_witness :
  exists s w0 w1,
    Dispatcher.run world_2x3 c5_plan mutex_sched (Dispatcher.init c5_plan c2_trace) = Some s /\
    Dispatcher.st_workers s !! 0%nat = Some w0 /\
    Dispatcher.st_workers s !! 1%nat = Some w1 /\
    Dispatcher.w_pc w0 = Dispatcher.W_append_bin /\
    Dispatcher.w_pc w1 = Dispatcher.W_lock_mu /\
    (Dispatcher.mu_held w0 + Dispatcher.mu_held w1 <= 1)%nat /\
    Dispatcher.st_mu s = true.
Proof.
  destruct (Dispatcher.run world_2x3 c5_plan mutex_sched (Dispatcher.init c5_plan c2_trace))
    as [s|] eqn:Hs; [|vm_compute in Hs; discriminate Hs].
  destruct (Dispatcher.st_workers s !! 0%nat) as [w0|] eqn:H0;
    [|vm_compute in Hs; injection Hs as <-; vm_compute in H0; discriminate H0].
  destruct (Dispatcher.st_workers s !! 1%nat) as [w1|] eqn:H1;
    [|vm_compute in Hs; injection Hs as <-; vm_compute in H1; discriminate H1].
  assert (Hpc0 : Dispatcher.w_pc w0 = Dispatcher.W_append_bin).
  { vm_compute in Hs. injection Hs as <-. vm_compute in H0. injection H0 as <-. reflexivity. }
  assert (Hpc1 : Dispatcher.w_pc w1 = Dispatcher.W_lock_mu).
  { vm_compute in Hs. injection Hs as <-. vm_compute in H1. injection H1 as <-. reflexivity. }
  destruct (dispatch_mutual_exclusion world_2x3 c5_plan c2_trace mutex_sched s
              0%nat 1%nat w0 w1 Hs ltac:(discriminate) H0 H1) as (Hmu & _ & Hheld & _).
  exists s, w0, w1. repeat split; try assumption; try reflexivity.
  apply Hheld. unfold Dispatcher.mu_held. rewrite Hpc0. lia.
Defined.

Lemma dispatcher_wg_owed_le W pl w : Dispatcher.wf W pl w -> (Dispatcher.wg_owed w <= 1)%nat.
Proof.
  intros [Hf _]. unfold Dispatcher.wg_owed, Dispatcher.frame, Dispatcher.tail_stack in *.
  destruct (Dispatcher.w_pc w); cbn;
    repeat match goal with
    | H : _ /\ _ |- _ => destruct H
    | H : _ \/ _ |- _ => destruct H
    end;
    match goal with H : Dispatcher.w_defers _ = _ |- _ => rewrite H end;
    try destruct (Dispatcher.w_err w); cbn; lia.
Qed.

(** X3: the WaitGroup counter of [CrossCompile] never goes negative (so
    [wg.Done()] never panics) and never exceeds the number of
    (platform, unit) pairs. *)
Theorem dispatch_waitgroup_bounds W pl t0 sched s :
  Dispatcher.run W pl sched (Dispatcher.init pl t0) = Some s ->
  0 <= Dispatcher.st_wg s
    <= Z.of_nat (length (Dispatcher.pl_platforms pl) * length (Dispatcher.pl_mainDirs pl)).
Proof.
  intros Hrun.
  pose proof (dispatcher_reachable_Inv W pl t0 sched s Hrun) as HI.
  rewrite (Dispatcher.inv_wg W pl s HI). split; [lia|].
  rewrite <- jobs_of_length, <- (Dispatcher.inv_jobs W pl s HI), length_app, length_map.
  assert (Hsum : (sum_list_with Dispatcher.wg_owed (Dispatcher.st_workers s)
                  <= length (Dispatcher.st_workers s))%nat).
  { pose proof (Dispatcher.inv_wf W pl s HI) as Hwf.
    induction Hwf as [|w ws Hw _ IH]; cbn; [lia|].
    pose proof (dispatcher_wg_owed_le W pl w Hw). lia. }
  assert (Hmain : (Dispatcher.main_owed (Dispatcher.st_main s)
                   <= length (Dispatcher.pending (Dispatcher.st_main s)))%nat).
  { destruct (Dispatcher.st_main s); cbn; lia. }
  lia.
Qed.

Lemma dispatch_waitgroup_bounds_witness :
  exists s,
    Dispatcher.run world_2x3 c5_plan mutex_sched (Dispatcher.init c5_plan c2_trace) = Some s /\
    0 <= Dispatcher.st_wg s <= 6.
Proof.
  destruct (Dispatcher.run world_2x3 c5_plan mutex_sched (Dispatcher.init c5_plan c2_trace))
    as [s|] eqn:Hs; [|vm_compute in Hs; discriminate Hs].
  exists s. split; [reflexivity|].
  exact (dispatch_waitgroup_bounds world_2x3 c5_plan c2_trace mutex_sched s Hs).
Defined.

Lemma job_bins_map W pl (js : list Dispatcher.job) :
  flat_map (Dispatcher.job_bins W pl) js
  = map (fun j => Dispatcher.bin_path W (fst j) (fst (Dispatcher.compile W pl j))) js.
Proof. induction js as [|j js IH]; cbn; [reflexivity|]. rewrite IH. reflexivity. Qed.

(** X4: once [CrossCompile] is past [wg.Wait()], [binPaths] holds exactly
    one entry per (platform, unit) pair, in some order: the unit path, the
    path separator and the name [GoCrossCompile] returned. The entry is
    there for a pair whose compile failed as well (the append is not
    guarded by the error check). *)
Theorem dispatch_binPaths_after_barrier W pl t0 sched s :
  Dispatcher.run W pl sched (Dispatcher.init pl t0) = Some s ->
  Dispatcher.past_wait (Dispatcher.st_main s) = true ->
  let jobs := Dispatcher.jobs_of (Dispatcher.pl_platforms pl) (Dispatcher.pl_mainDirs pl) in
  Dispatcher.st_binPaths s
    ≡ₚ map (fun j => Dispatcher.bin_path W (fst j) (fst (Dispatcher.compile W pl j))) jobs /\
  length (Dispatcher.st_binPaths s)
    = (length (Dispatcher.pl_platforms pl) * length (Dispatcher.pl_mainDirs pl))%nat /\
  forall j e, In j jobs -> snd (Dispatcher.compile W pl j) = Some e ->
    In (Dispatcher.bin_path W (fst j) (fst (Dispatcher.compile W pl j)))
       (Dispatcher.st_binPaths s).
Proof.
  intros Hrun Hp jobs.
  pose proof (dispatcher_reachable_Inv W pl t0 sched s Hrun) as HI.
  destruct (DispatcherFacts.past_wait_state W pl s HI Hp) as (_ & Hb & _).
  fold jobs in Hb. rewrite job_bins_map in Hb.
  split; [exact Hb|]. split.
  - rewrite (Permutation_length Hb), length_map. apply jobs_of_length.
  - intros j e Hj _. apply list_elem_of_In. rewrite Hb. apply list_elem_of_In.
    apply in_map_iff. exists j. split; [reflexivity|exact Hj].
Qed.

Lemma dispatch_binPaths_after_barrier_witness :
  exists s,
    Dispatcher.run world_2x3 c5_plan sched_2x3 (Dispatcher.init c5_plan c2_trace) = Some s /\
    length (Dispatcher.st_binPaths s) = 6%nat /\
    In "b/" (Dispatcher.st_binPaths s).
Proof.
  destruct (Dispatcher.run world_2x3 c5_plan sched_2x3 (Dispatcher.init c5_plan c2_trace))
    as [s|] eqn:Hs; [|vm_compute in Hs; discriminate Hs].
  assert (Hp : Dispatcher.past_wait (Dispatcher.st_main s) = true).
  { vm_compute in Hs. injection Hs as <-. reflexivity. }
  destruct (dispatch_binPaths_after_barrier world_2x3 c5_plan c2_trace sched_2x3 s Hs Hp)
    as (_ & Hlen & Hin).
  exists s. split; [reflexivity|]. split; [exact Hlen|].
  apply (Hin ("b", darwin_amd64) "exit status 2"); [|reflexivity].
  cbn. tauto.
Defined.

Lemma jobs_of_In (platforms : list Platform) (mainDirs : list string) path platform :
  In (path, platform) (Dispatcher.jobs_of platforms mainDirs)
  <-> In platform platforms /\ In path mainDirs.
Proof.
  unfold Dispatcher.jobs_of. rewrite in_flat_map. split.
  - intros (p & Hp & Hin). apply in_map_iff in Hin as (d & Heq & Hd).
    injection Heq as <- <-. auto.
  - intros [Hp Hd]. exists platform. split; [exact Hp|].
    apply in_map_iff. exists path. auto.
Qed.

(** X5: [CrossCompile] starts its goroutines in platform-major,
    unit-minor order, one per pair of the Cartesian product: in every
    reachable state the [i]-th goroutine works on the [i]-th pair of the
    nested loops, a pair is in that list exactly when its platform is
    resolved and its unit was found, and once [wg.Wait()] is passed there
    are as many goroutines as pairs. *)
Theorem dispatch_order W pl t0 sched s :
  Dispatcher.run W pl sched (Dispatcher.init pl t0) = Some s ->
  let jobs := Dispatcher.jobs_of (Dispatcher.pl_platforms pl) (Dispatcher.pl_mainDirs pl) in
  (forall i w, Dispatcher.st_workers s !! i = Some w ->
     jobs !! i = Some (Dispatcher.w_path w, Dispatcher.w_platform w)) /\
  (forall path platform,
     In (path, platform) jobs <->
     In platform (Dispatcher.pl_platforms pl) /\ In path (Dispatcher.pl_mainDirs pl)) /\
  (Dispatcher.past_wait (Dispatcher.st_main s) = true ->
     length (Dispatcher.st_workers s)
     = (length (Dispatcher.pl_platforms pl) * length (Dispatcher.pl_mainDirs pl))%nat).
Proof.
  intros Hrun jobs.
  pose proof (dispatcher_reachable_Inv W pl t0 sched s Hrun) as HI.
  pose proof (Dispatcher.inv_jobs W pl s HI) as Hj. fold jobs in Hj.
  split; [|split].
  - intros i w Hi. rewrite <- Hj. rewrite lookup_app_l.
    + rewrite list_lookup_fmap, Hi. reflexivity.
    + rewrite length_map. apply lookup_lt_Some in Hi. exact Hi.
  - intros path platform. apply jobs_of_In.
  - intros Hp. rewrite <- jobs_of_length. fold jobs. rewrite <- Hj.
    destruct (Dispatcher.st_main s); try discriminate; cbn;
      rewrite app_nil_r, length_map; reflexivity.
Qed.

Lemma dispatch_order_witness :
  exists s w,
    Dispatcher.run world_2x3 c5_plan mutex_sched (Dispatcher.init c5_plan c2_trace) = Some s /\
    Dispatcher.st_workers s !! 3%nat = Some w /\
    (Dispatcher.w_path w, Dispatcher.w_platform w) = ("b", darwin_amd64).
Proof.
  destruct (Dispatcher.run world_2x3 c5_plan mutex_sched (Dispatcher.init c5_plan c2_trace))
    as [s|] eqn:Hs; [|vm_compute in Hs; discriminate Hs].
  destruct (Dispatcher.st_workers s !! 3%nat) as [w|] eqn:H3;
    [|vm_compute in Hs; injection Hs as <-; vm_compute in H3; discriminate H3].
  exists s, w. split; [reflexivity|]. split; [exact H3|].
  pose proof (proj1 (dispatch_order world_2x3 c5_plan c2_trace mutex_sched s Hs) 3%nat w H3)
    as H.
  cbn in H. injection H as <- <-. reflexivity.
Defined.

Lemma compiles_by_app i (a b : list event) :
  compiles_by i (a ++ b) = compiles_by i a ++ compiles_by i b.
Proof. unfold compiles_by. apply flat_map_app. Qed.

Lemma compiles_so_far_snoc W pl ws j k :
  compiles_so_far W pl (ws ++ [Dispatcher.new_worker j]) k = compiles_so_far W pl ws k.
Proof.
  unfold compiles_so_far.
  destruct (decide (k < length ws)%nat) as [Hlt|Hge].
  - rewrite lookup_app_l by exact Hlt. reflexivity.
  - rewrite (lookup_ge_None_2 ws k) by lia.
    destruct (decide (k = length ws)) as [->|Hne].
    + rewrite list_lookup_middle by reflexivity. reflexivity.
    + rewrite lookup_ge_None_2; [reflexivity|]. rewrite length_app. cbn. lia.
Qed.

(** What one step adds to the compiles of goroutine [k]. *)
Lemma dispatcher_step_compiles W pl t s s' k :
  Dispatcher.step W pl t s = Some s' ->
  exists delta,
    compiles_by k (Dispatcher.st_trace s') = compiles_by k (Dispatcher.st_trace s) ++ delta /\
    compiles_so_far W pl (Dispatcher.st_workers s') k
    = compiles_so_far W pl (Dispatcher.st_workers s) k ++ delta.
Proof.
  intros Hstep. destruct t as [|i|i|i]; cbn in Hstep; try discriminate.
  - exists []. unfold Dispatcher.step_main in Hstep.
    step_cases Hstep; try discriminate; injection Hstep as <-;
      cbn [Dispatcher.st_trace Dispatcher.st_workers Dispatcher.logs Dispatcher.with_main
           Dispatcher.with_workers Dispatcher.with_wg];
      rewrite ?compiles_by_app, ?compiles_so_far_snoc, ?app_nil_r; split; try reflexivity.
    assert (Hrep : compiles_by k (Dispatcher.report (Dispatcher.st_errors s)) = []).
    { unfold Dispatcher.report, compiles_by. cbn. clear.
      induction (Dispatcher.st_errors s); cbn; auto. }
    rewrite Hrep, app_nil_r. reflexivity.
  - destruct (Dispatcher.st_workers s !! i) as [w|] eqn:Hi; [|discriminate]. cbn in Hstep.
    unfold compiles_so_far.
    destruct (decide (k = i)) as [->|Hne].
    + rewrite Hi. destruct w as [path p pc ds bn e].
      unfold Dispatcher.step_worker in Hstep.
      cbn [Dispatcher.w_pc Dispatcher.w_defers Dispatcher.w_platform Dispatcher.w_err
           Dispatcher.w_path Dispatcher.w_binName] in *.
      apply lookup_lt_Some in Hi.
      destruct pc; cbn in Hstep; step_cases Hstep; try discriminate;
        injection Hstep as <-;
        cbn [Dispatcher.st_trace Dispatcher.st_workers Dispatcher.logs Dispatcher.with_main
             Dispatcher.with_workers Dispatcher.with_wg Dispatcher.with_worker
             Dispatcher.with_sem Dispatcher.with_lock Dispatcher.with_mu
             Dispatcher.with_errors Dispatcher.with_binPaths];
        rewrite ?(list_lookup_insert_eq _ _ _ Hi); cbn;
        rewrite ?compiles_by_app; cbn; rewrite ?Nat.eqb_refl;
        first [ exists []; rewrite ?app_nil_r; split; reflexivity
              | eexists; split; reflexivity ].
    + exists [].
      assert (Hik : Nat.eqb i k = false) by (apply Nat.eqb_neq; congruence).
      destruct w as [path p pc ds bn e]. unfold Dispatcher.step_worker in Hstep.
      cbn [Dispatcher.w_pc Dispatcher.w_defers Dispatcher.w_platform Dispatcher.w_err
           Dispatcher.w_path Dispatcher.w_binName] in *.
      destruct pc; cbn in Hstep; step_cases Hstep; try discriminate;
        injection Hstep as <-;
        cbn [Dispatcher.st_trace Dispatcher.st_workers Dispatcher.logs Dispatcher.with_main
             Dispatcher.with_workers Dispatcher.with_wg Dispatcher.with_worker
             Dispatcher.with_sem Dispatcher.with_lock Dispatcher.with_mu
             Dispatcher.with_errors Dispatcher.with_binPaths];
        rewrite ?compiles_by_app; cbn; rewrite ?Hik, ?app_nil_r;
        rewrite (list_lookup_insert_ne _ i k) by congruence; split; reflexivity.
Qed.

Lemma dispatcher_run_compiles W pl sched s s' k :
  Dispatcher.run W pl sched s = Some s' ->
  exists delta,
    compiles_by k (Dispatcher.st_trace s') = compiles_by k (Dispatcher.st_trace s) ++ delta /\
    compiles_so_far W pl (Dispatcher.st_workers s') k
    = compiles_so_far W pl (Dispatcher.st_workers s) k ++ delta.
Proof.
  revert s. induction sched as [|t sched IH]; intros s Hrun; cbn in Hrun.
  - injection Hrun as <-. exists []. rewrite !app_nil_r. split; reflexivity.
  - destruct (Dispatcher.step W pl t s) as [s1|] eqn:Hs; [|discriminate].
    destruct (dispatcher_step_compiles W pl t s s1 k Hs) as (d1 & H1 & H1').
    destruct (IH s1 Hrun) as (d2 & H2 & H2').
    exists (d1 ++ d2). rewrite H2, H1, H2', H1', !app_assoc. split; reflexivity.
Qed.

(** The sequential part of [CrossCompile] starts no goroutine and no
    compile, however it ends. *)
Lemma dispatcher_prefix_quiet W t f :
  Dispatcher.prefix W = (t, f) ->
  forallb (fun e => negb (spawns_or_compiles e)) t = true.
Proof.
  unfold Dispatcher.prefix.
  destruct (flags_Parse W) as [fl [e|]]; [intros H; injection H as <- <-; reflexivity|].
  destruct (buildToolchain fl); [intros H; injection H as <- <-; reflexivity|].
  destruct (exec_LookPath W (flagGoCmd fl)) as [p [e|]];
    [intros H; injection H as <- <-; reflexivity|].
  destruct (GoVersion W) as [v [e|]]; [intros H; injection H as <- <-; reflexivity|].
  destruct (flagListOSArch fl); [intros H; injection H as <- <-; reflexivity|].
  cbn. destruct (GoMainDirs W _ _) as [dirs [e|]];
    [intros H; injection H as <- <-; reflexivity|].
  cbn. destruct (Platforms W _ _) as [|p0 ps];
    cbn; [intros H; injection H as <- <-; reflexivity|].
  destruct (Dispatcher.makechan_ok W _); cbn; intros H; injection H as <- <-; reflexivity.
Qed.

Lemma compiles_by_quiet k (t : list event) :
  forallb (fun e => negb (spawns_or_compiles e)) t = true -> compiles_by k t = [].
Proof.
  unfold compiles_by. induction t as [|e t IH]; cbn [flat_map forallb]; [reflexivity|].
  intros H. apply andb_true_iff in H as [He Ht]. rewrite (IH Ht).
  destruct e; cbn in *; try reflexivity; discriminate.
Qed.

(** X6: [GoCrossCompile] is called exactly once for every
    (platform, unit) pair and never for anything else. When
    [CrossCompile] is past [wg.Wait()], the trace holds, for the [i]-th
    pair of the nested loops, exactly one call by goroutine [i], with the
    options built from that pair and the flags; a failed compile is not
    retried and does not keep the other pairs from being compiled. *)
Theorem dispatch_compiles_once W t0 pl sched s :
  Dispatcher.prefix W = (t0, Next (Dispatcher.ToDispatch pl)) ->
  Dispatcher.run W pl sched (Dispatcher.init pl t0) = Some s ->
  Dispatcher.past_wait (Dispatcher.st_main s) = true ->
  forall i,
    compiles_by i (Dispatcher.st_trace s)
    = match Dispatcher.jobs_of (Dispatcher.pl_platforms pl) (Dispatcher.pl_mainDirs pl) !! i with
      | Some j => [Dispatcher.opts_of W pl (fst j) (snd j)]
      | None => []
      end.
Proof.
  intros Hp Hrun Hpast i.
  pose proof (dispatcher_reachable_Inv W pl t0 sched s Hrun) as HI.
  destruct (dispatcher_run_compiles W pl sched _ s i Hrun) as (delta & Ht & Hw).
  cbn [Dispatcher.init Dispatcher.st_trace Dispatcher.st_workers] in Ht, Hw.
  rewrite (compiles_by_quiet i t0 (dispatcher_prefix_quiet W t0 _ Hp)) in Ht.
  change (compiles_so_far W pl [] i) with (@nil CompileOpts) in Hw.
  cbn [app] in Ht, Hw. rewrite Ht, <- Hw.
  pose proof (Dispatcher.inv_jobs W pl s HI) as Hj.
  assert (Hpend : Dispatcher.pending (Dispatcher.st_main s) = []).
  { destruct (Dispatcher.st_main s); try discriminate; reflexivity. }
  rewrite Hpend, app_nil_r in Hj. rewrite <- Hj, list_lookup_fmap.
  unfold compiles_so_far.
  destruct (Dispatcher.st_workers s !! i) as [w|] eqn:Hi; [|reflexivity]. cbn.
  pose proof (DispatcherFacts.past_wait_workers W pl s HI Hpast) as Hz.
  pose proof (Forall_lookup_1 _ _ _ _ Hz Hi) as Hw0. cbn in Hw0.
  pose proof (Forall_lookup_1 _ _ _ _ (Dispatcher.inv_wf W pl s HI) Hi) as Hwf.
  destruct (DispatcherFacts.wg_owed_zero W pl w Hwf Hw0) as [[Hpc|Hpc] _];
    rewrite Hpc; reflexivity.
Qed.

Lemma dispatch_compiles_once_witness :
  exists s,
    Dispatcher.run world_2x3 c5_plan sched_2x3 (Dispatcher.init c5_plan c2_trace) = Some s /\
    compiles_by 3 (Dispatcher.st_trace s)
    = [Dispatcher.opts_of world_2x3 c5_plan "b" darwin_amd64] /\
    compiles_by 6 (Dispatcher.st_trace s) = [].
Proof.
  destruct (Dispatcher.run world_2x3 c5_plan sched_2x3 (Dispatcher.init c5_plan c2_trace))
    as [s|] eqn:Hs; [|vm_compute in Hs; discriminate Hs].
  assert (Hp : Dispatcher.past_wait (Dispatcher.st_main s) = true).
  { vm_compute in Hs. injection Hs as <-. reflexivity. }
  exists s. split; [reflexivity|]. split.
  - exact (dispatch_compiles_once world_2x3 c2_trace c5_plan sched_2x3 s eq_refl Hs Hp 3%nat).
  - exact (dispatch_compiles_once world_2x3 c2_trace c5_plan sched_2x3 s eq_refl Hs Hp 6%nat).
Defined.

(** X7: a terminal error of [CrossCompile] comes before any goroutine.
    Whenever the sequential part returns (flag parsing failed, the go
    command is missing, the version or the units cannot be read, the
    platform list was only asked for, or no platform is valid), that is
    what [CrossCompile] returns under every schedule, the artifact list is
    nil, and nothing was spawned or compiled. *)
Theorem dispatch_terminal_errors_first W t r sched :
  Dispatcher.prefix W = (t, Return r) ->
  Dispatcher.CrossCompile W sched = Returned t r /\
  fst r = None /\
  forallb (fun e => negb (spawns_or_compiles e)) t = true.
Proof.
  intros Hp. split; [|split].
  - unfold Dispatcher.CrossCompile. rewrite Hp. reflexivity.
  - revert Hp. unfold Dispatcher.prefix.
    destruct (flags_Parse W) as [fl [e|]]; [intros H; injection H as <- <-; reflexivity|].
    destruct (buildToolchain fl); [discriminate|].
    destruct (exec_LookPath W (flagGoCmd fl)) as [p [e|]];
      [intros H; injection H as <- <-; reflexivity|].
    destruct (GoVersion W) as [v [e|]]; [intros H; injection H as <- <-; reflexivity|].
    destruct (flagListOSArch fl); [intros H; injection H as <- <-; reflexivity|].
    cbn. destruct (GoMainDirs W _ _) as [dirs [e|]];
      [intros H; injection H as <- <-; reflexivity|].
    cbn. destruct (Platforms W _ _) as [|p0 ps];
      cbn; [intros H; injection H as <- <-; reflexivity|].
    destruct (Dispatcher.makechan_ok W _); discriminate.
  - exact (dispatcher_prefix_quiet W t _ Hp).
Qed.

Lemma dispatch_terminal_errors_first_witness :
  Dispatcher.CrossCompile world_no_go sched_2x3
    = Returned [EvLookPath "go"] (None, Some ("go executable must be on the PATH" +:+ nl)) /\
  forallb (fun e => negb (spawns_or_compiles e)) [EvLookPath "go"] = true.
Proof.
  destruct (dispatch_terminal_errors_first world_no_go [EvLookPath "go"]
              (None, Some ("go executable must be on the PATH" +:+ nl)) sched_2x3 eq_refl)
    as (H1 & _ & H3).
  split; [exact H1|exact H3].
Defined.

(** * Flags that do not reach the build *)

Lemma dispatcher_step_same_build W pl pl' t s :
  same_build (Dispatcher.pl_flags pl) (Dispatcher.pl_flags pl') ->
  Dispatcher.pl_parallel pl' = Dispatcher.pl_parallel pl ->
  Dispatcher.pl_err pl' = Dispatcher.pl_err pl ->
  forall f', Dispatcher.step (with_flags f' W) pl' t s = Dispatcher.step W pl t s.
Proof.
  intros (Hb & Hl & Ho & Hpa & Hpf & Ht & Hv & Hc & Hr & Hli & Hg & Hpk) Hpar Herr f'.
  destruct t as [|i|i|i]; cbn; try reflexivity.
  - unfold Dispatcher.step_main. rewrite Herr. reflexivity.
  - destruct (Dispatcher.st_workers s !! i) as [w|]; [|reflexivity]. cbn.
    unfold Dispatcher.step_worker, Dispatcher.capacity, Dispatcher.opts_of,
      Dispatcher.bin_path. cbn.
    rewrite Hpar, Hl, Ho, Ht, Hc, Hr, Hg. reflexivity.
Qed.

Lemma dispatcher_run_same_build W pl pl' sched s :
  same_build (Dispatcher.pl_flags pl) (Dispatcher.pl_flags pl') ->
  Dispatcher.pl_parallel pl' = Dispatcher.pl_parallel pl ->
  Dispatcher.pl_err pl' = Dispatcher.pl_err pl ->
  forall f', Dispatcher.run (with_flags f' W) pl' sched s = Dispatcher.run W pl sched s.
Proof.
  intros Hs Hp He f'. revert s. induction sched as [|t sched IH]; intros s; cbn; [reflexivity|].
  rewrite (dispatcher_step_same_build W pl pl' t s Hs Hp He f').
  destruct (Dispatcher.step W pl t s); [apply IH|reflexivity].
Qed.

Lemma CrossCompile_same_build W f e f' sched :
  flags_Parse W = (f, e) ->
  same_build f f' ->
  Dispatcher.CrossCompile (with_flags f' W) sched = Dispatcher.CrossCompile W sched.
Proof.
  intros Hf Hs.
  pose proof Hs as (Hb & Hl & Ho & Hpa & Hpf & Ht & Hv & Hc & Hr & Hli & Hg & Hpk).
  unfold packages_of in Hpk.
  unfold Dispatcher.CrossCompile, Dispatcher.prefix. cbn [flags_Parse with_flags].
  rewrite Hf. cbn [snd]. destruct e as [e|]; [reflexivity|].
  cbn. rewrite Hpa, Hb. destruct (buildToolchain f).
  - cbn. unfold Toolchain.mainBuildToolchain. rewrite Hpf, Hv.
    change (Toolchain.prefix (with_flags f' W)) with (Toolchain.prefix W).
    destruct (Toolchain.prefix W _ _ _) as [t [pl|r|m]]; reflexivity.
  - rewrite Hg. destruct (exec_LookPath W (flagGoCmd f)) as [p [e|]]; [reflexivity|].
    destruct (GoVersion W) as [v [e|]]; [reflexivity|].
    rewrite Hli. destruct (flagListOSArch f); [reflexivity|].
    cbn. rewrite Hpk.
    destruct (GoMainDirs W _ _) as [dirs [e|]]; [reflexivity|].
    cbn. rewrite Hpf. destruct (Platforms W _ _) as [|p0 ps]; [reflexivity|].
    cbn. change (Dispatcher.makechan_ok (with_flags f' W)) with (Dispatcher.makechan_ok W).
    destruct (Dispatcher.makechan_ok W _); [|reflexivity].
    cbn. rewrite dispatcher_run_same_build with (W := W)
      (pl := {| Dispatcher.pl_flags := f;
                Dispatcher.pl_parallel :=
                  resolveParallel (parallel f) (runtime_NumCPU W) (runtime_GOOS W);
                Dispatcher.pl_platforms := p0 :: ps;
                Dispatcher.pl_mainDirs := dirs;
                Dispatcher.pl_err := None |}); try reflexivity; exact Hs.
Qed.

(** X8: the value of the [-gcflags] flag never reaches the compiler.
    [opts.Gcflags] is not set from the flag (only from the per-platform
    environment override), so [CrossCompile] returns the same result with
    the same trace, under every schedule, whatever [-gcflags] value was
    parsed. *)
Theorem gcflags_flag_ignored W f e g sched :
  flags_Parse W = (f, e) ->
  Dispatcher.CrossCompile (with_flags (set_flagGcflags g f) W) sched
  = Dispatcher.CrossCompile W sched.
Proof.
  intros Hf. apply (CrossCompile_same_build W f e _ sched Hf).
  repeat split; reflexivity.
Qed.

Lemma gcflags_flag_ignored_witness :
  Dispatcher.CrossCompile
    (with_flags (set_flagGcflags "-N -l" (flags_with false false 2 ["a"; "b"])) world_2x3)
    sched_2x3
  = Dispatcher.CrossCompile world_2x3 sched_2x3.
Proof.
  exact (gcflags_flag_ignored world_2x3 (flags_with false false 2 ["a"; "b"]) None
           "-N -l" sched_2x3 eq_refl).
Defined.

(** X9: with no positional argument [CrossCompile] builds the current
    directory: it behaves, under every schedule, exactly as if the single
    unit ["."] had been given. *)
Theorem default_unit_is_dot W f e sched :
  flags_Parse W = (f, e) ->
  flag_Args f = [] ->
  Dispatcher.CrossCompile (with_flags (set_Args ["."] f) W) sched
  = Dispatcher.CrossCompile W sched.
Proof.
  intros Hf Hargs. apply (CrossCompile_same_build W f e _ sched Hf).
  repeat split; try reflexivity.
  unfold packages_of. cbn. rewrite Hargs. reflexivity.
Qed.

Lemma default_unit_is_dot_witness :
  Dispatcher.CrossCompile
    (with_flags (set_Args ["."] (flags_with false false 2 []))
       (with_flags (flags_with false false 2 []) world_2x3))
    sched_2x3
  = Dispatcher.CrossCompile (with_flags (flags_with false false 2 []) world_2x3) sched_2x3.
Proof.
  exact (default_unit_is_dot (with_flags (flags_with false false 2 []) world_2x3)
           (flags_with false false 2 []) None sched_2x3 eq_refl eq_refl).
Defined.

(** * The exit status of the command *)

(** X10: the exit status of [main]. A terminal error of [CrossCompile]
    is printed on standard output and the status is 1. Once the fan-out of
    [CrossCompile] or of [mainBuildToolchain] has started, the status is 0
    whenever [main] ends, even if compiles or toolchain builds failed,
    because the error returned after the fan-out is always nil. *)
Theorem main_exit_status W sched :
  (forall t l e, Dispatcher.prefix W = (t, Return (l, Some e)) ->
     main W sched = Returned (t ++ [Stdout (e +:+ nl)]) 1) /\
  (forall t0 pl t code,
     Dispatcher.prefix W = (t0, Next (Dispatcher.ToDispatch pl)) ->
     main W sched = Returned t code -> code = 0) /\
  (forall t0 requested f t1 pl t code,
     Dispatcher.prefix W = (t0, Next (Dispatcher.ToToolchain requested f)) ->
     Toolchain.prefix W requested (platformFlag f) (verbose f) = (t1, Next pl) ->
     main W sched = Returned t code -> code = 0).
Proof.
  split; [|split].
  - intros t l e Hp. unfold main, Dispatcher.CrossCompile. rewrite Hp. reflexivity.
  - intros t0 pl t code Hp. unfold main, Dispatcher.CrossCompile. rewrite Hp.
    destruct (Dispatcher.run W pl sched (Dispatcher.init pl t0)) as [s|] eqn:Hrun;
      [|discriminate].
    destruct (Dispatcher.st_main s) as [| | | |r] eqn:Hm; try discriminate.
    pose proof (CrossCompile_dispatch_error_nil W t0 pl sched s r Hp Hrun Hm) as Hnil.
    destruct r as [l [e|]]; [discriminate Hnil|].
    intros H. injection H as _ <-. reflexivity.
  - intros t0 requested f t1 pl t code Hp Htp. unfold main, Dispatcher.CrossCompile.
    rewrite Hp. unfold Toolchain.mainBuildToolchain. rewrite Htp.
    destruct (Toolchain.run W pl sched (Toolchain.init pl t1)) as [s|] eqn:Hrun;
      [|discriminate].
    destruct (Toolchain.st_main s) as [| | | |r] eqn:Hm; try discriminate.
    rewrite (mainBuildToolchain_fanout_nil W requested (platformFlag f) (verbose f)
               t1 pl sched s r Htp Hrun Hm).
    intros H. injection H as _ <-. reflexivity.
Qed.

Lemma main_exit_status_witness :
  main world_no_go sched_2x3
    = Returned [EvLookPath "go"; Stdout ("go executable must be on the PATH" +:+ nl +:+ nl)] 1 /\
  exists t, main world_1x1_fails sched_1x1 = Returned t 0.
Proof.
  split.
  - exact (proj1 (main_exit_status world_no_go sched_2x3) [EvLookPath "go"] None
             ("go executable must be on the PATH" +:+ nl) eq_refl).
  - destruct (main world_1x1_fails sched_1x1) as [t code| |] eqn:Hm;
      [|vm_compute in Hm; discriminate Hm|vm_compute in Hm; discriminate Hm].
    exists t.
    rewrite (proj1 (proj2 (main_exit_status world_1x1_fails sched_1x1))
               [EvLookPath "go"; EvGoVersion; EvGoMainDirs; EvPlatforms "go1.4.2";
                Stdout ("Number of parallel builds: 2" +:+ nl +:+ nl)]
               {| Dispatcher.pl_flags := flags_with false false 2 ["a"];
                  Dispatcher.pl_parallel := 2;
                  Dispatcher.pl_platforms := [linux_amd64];
                  Dispatcher.pl_mainDirs := ["a"];
                  Dispatcher.pl_err := None |}
               t code eq_refl Hm).
    reflexivity.
Defined.

(** * Further properties of the toolchain fan-out *)

Module ToolchainMoreFacts.

Import Toolchain.

Section Facts.

Variable W : World.
Variable pl : plan.

Local Abbreviation wf := (Toolchain.wf W pl).
Local Abbreviation Inv := (Toolchain.Inv W pl).
Local Abbreviation more_ok := (ToolchainMore.more_ok W pl).
Local Abbreviation err_contrib := (ToolchainMore.err_contrib W pl).
Local Abbreviation local_step2 := (ToolchainMore.local_step2 W pl).
Local Abbreviation Inv2 := (ToolchainMore.Inv2 W pl).
Local Abbreviation worker_left := (ToolchainMore.worker_left W pl).
Local Abbreviation measure := (ToolchainMore.measure W pl).
Local Abbreviation enabled := (ToolchainMore.enabled W pl).
Local Abbreviation pick := (ToolchainMore.pick W pl).
Local Abbreviation drive := (ToolchainMore.drive W pl).

Ltac more_crush :=
  unfold ToolchainMore.more_ok, ToolchainMore.err_contrib, ToolchainMore.failure_lines,
    ToolchainMore.build_result in *; cbn in *;
  use_hyps; simplify_eq/=;
  repeat match goal with
  | H : ?x = _ |- context [match ?x with _ => _ end] => rewrite H
  | H : is_Some ?e |- _ => destruct H as [? ->]
  end; cbn;
  repeat match goal with
  | |- _ /\ _ => split
  | |- _ -> _ => intros
  end;
  use_hyps; simplify_eq/=; eauto; try congruence; try discriminate.

Lemma started_no_start_err w :
  wf w -> w_pc w = B_wait -> sc_start_err (script_of W pl (w_platform w)) = None.
Proof. intros [_ (_ & H1 & H2 & _)] Hpc. apply H2, H1, Hpc. Qed.

Lemma step_worker_local2 i w s s' :
  wf w -> more_ok w -> step_worker W pl i w s = Some s' -> local_step2 i w s s'.
Proof.
  intros Hwf Hm Hstep. pose proof (started_no_start_err w Hwf) as Hst. clear Hwf.
  destruct w as [p pc ds e proc pipe wc r dn pr].
  unfold step_worker in Hstep.
  cbn [w_pc w_defers w_platform w_err w_proc w_pipe w_wclosed w_rpc w_done w_printed] in *.
  destruct pc; cbn in Hstep; step_cases Hstep; try discriminate.
  all: injection Hstep as <-.
  all: eexists; split; [reflexivity|]; split; [reflexivity|]; split; [reflexivity|].
  all: split; [more_crush|].
  all: try (left; split; reflexivity).
  all: try (left; split; [reflexivity|]; more_crush; fail).
  all: more_crush.
  left. split; [reflexivity|].
  match goal with H : None = _ |- _ => rewrite <- H end. reflexivity.
Qed.

Lemma step_reader_local2 i w s s' :
  more_ok w -> step_reader i w s = Some s' -> local_step2 i w s s'.
Proof.
  intros Hm Hstep.
  destruct w as [p pc ds e proc pipe wc r dn pr].
  unfold step_reader in Hstep.
  cbn [w_pc w_defers w_platform w_err w_proc w_pipe w_wclosed w_rpc w_done w_printed] in *.
  step_cases Hstep; try discriminate.
  all: injection Hstep as <-.
  all: eexists; split; [reflexivity|]; split; [reflexivity|]; split; [reflexivity|].
  all: split; [|left; split; reflexivity].
  all: unfold ToolchainMore.more_ok in *; cbn in *;
       destruct Hm as (H1 & H2 & H3 & H4); repeat split; auto; try discriminate.
Qed.

Lemma step_process_local2 i w s s' :
  more_ok w -> step_process pl i w s = Some s' -> local_step2 i w s s'.
Proof.
  intros Hm Hstep.
  destruct w as [p pc ds e proc pipe wc r dn pr].
  unfold step_process in Hstep.
  cbn [w_pc w_defers w_platform w_err w_proc w_pipe w_wclosed w_rpc w_done w_printed] in *.
  step_cases Hstep; try discriminate.
  all: injection Hstep as <-.
  all: eexists; split; [reflexivity|]; split; [reflexivity|]; split; [reflexivity|].
  all: split; [|left; split; reflexivity].
  all: exact Hm.
Qed.

Lemma Inv2_init t0 : Inv2 (init pl t0).
Proof.
  unfold init. destruct (pl_platforms pl) eqn:Hp; split; cbn; rewrite ?Hp; auto.
Qed.

Lemma local_step2_Inv2 i w s s' :
  st_workers s !! i = Some w -> Inv2 s -> local_step2 i w s s' -> Inv2 s'.
Proof.
  intros Hi [H1 H2 H3] (w' & Hws & Hm & Hp & Hok & Herr).
  split; rewrite ?Hws, ?Hm.
  - destruct Herr as [[-> Hc]|(m & -> & Hc1 & Hc2)].
    + rewrite (DispatcherFacts.flat_map_insert_same _ _ _ _ _ Hi Hc). exact H1.
    + rewrite (DispatcherFacts.flat_map_insert_add _ _ _ _ _ _ Hi Hc1 Hc2), H1. reflexivity.
  - rewrite list_fmap_insert, Hp. rewrite list_insert_id; [exact H2|].
    rewrite list_lookup_fmap, Hi. reflexivity.
  - apply Forall_insert; assumption.
Qed.

Lemma step_Inv2 t s s' :
  Inv s -> Inv2 s -> step W pl t s = Some s' -> Inv2 s'.
Proof.
  intros HI HI2 Hstep. destruct t as [|i|i|i]; cbn in Hstep.
  - destruct HI2 as [H1 H2 H3]. unfold step_main in Hstep.
    step_cases Hstep; try discriminate; injection Hstep as <-.
    all: split; cbn; rewrite ?DispatcherFacts.flat_map_snoc, ?app_nil_r; auto.
    all: try (rewrite <- H2; cbn; rewrite ?app_nil_r; reflexivity).
    + rewrite <- H2, map_app. cbn. rewrite <- app_assoc. destruct rest; reflexivity.
    + apply Forall_app. split; [exact H3|]. constructor; [|constructor].
      unfold ToolchainMore.more_ok. cbn. repeat split; try discriminate.
  - destruct (st_workers s !! i) as [w|] eqn:Hi; [|discriminate]. cbn in Hstep.
    eapply local_step2_Inv2; [exact Hi|exact HI2|].
    apply step_worker_local2; [| |exact Hstep].
    + eapply Forall_lookup_1; [apply (Toolchain.inv_wf W pl s HI)|exact Hi].
    + eapply Forall_lookup_1; [apply (ToolchainMore.inv_more W pl s HI2)|exact Hi].
  - destruct (st_workers s !! i) as [w|] eqn:Hi; [|discriminate]. cbn in Hstep.
    eapply local_step2_Inv2; [exact Hi|exact HI2|].
    apply step_reader_local2; [|exact Hstep].
    eapply Forall_lookup_1; [apply (ToolchainMore.inv_more W pl s HI2)|exact Hi].
  - destruct (st_workers s !! i) as [w|] eqn:Hi; [|discriminate]. cbn in Hstep.
    eapply local_step2_Inv2; [exact Hi|exact HI2|].
    apply step_process_local2; [|exact Hstep].
    eapply Forall_lookup_1; [apply (ToolchainMore.inv_more W pl s HI2)|exact Hi].
Qed.

Lemma run_Inv2 sched s s' :
  Inv s -> Inv2 s -> run W pl sched s = Some s' -> Inv2 s'.
Proof.
  revert s. induction sched as [|t sched IH]; intros s HI HI2 Hrun; cbn in Hrun.
  - injection Hrun as <-. exact HI2.
  - destruct (step W pl t s) as [s1|] eqn:Hs; [|discriminate].
    eapply (IH s1); [eapply ToolchainFacts.step_Inv; eassumption| |exact Hrun].
    eapply step_Inv2; eassumption.
Qed.


(** ** Termination *)

Lemma frame_defers_le w : wf w -> (length (w_defers w) <= 3)%nat.
Proof.
  intros [Hf _]. unfold Toolchain.frame, Toolchain.full_stack in Hf.
  destruct (w_pc w); destruct (pl_verbose pl);
    repeat match goal with
    | H : _ /\ _ |- _ => destruct H
    | H : _ \/ _ |- _ => destruct H
    end;
    match goal with H : w_defers _ = _ |- _ => rewrite H end; cbn; lia.
Qed.

Lemma tc_step_worker_left i w s s' :
  wf w -> step_worker W pl i w s = Some s' ->
  exists w', st_workers s' = <[i:=w']> (st_workers s) /\
             st_main s' = st_main s /\ (worker_left w' < worker_left w)%nat.
Proof.
  intros Hwf Hstep. pose proof (frame_defers_le w Hwf) as Hlen.
  assert (Hr : w_pc w = B_pipe -> w_rpc w = R_none).
  { intros Hpc. destruct Hwf as [Hf Hs]. unfold Toolchain.frame, Toolchain.stream_ok in *.
    rewrite Hpc in *. destruct Hf as [Hv _]. rewrite Hv in Hs.
    destruct Hs as (_ & _ & _ & _ & H & _). apply H. reflexivity. }
  destruct Hwf as [Hf (Hpre & _)].
  destruct w as [p pc ds e proc pipe wc r dn pr].
  unfold step_worker in Hstep. unfold Toolchain.frame, Toolchain.full_stack in *.
  cbn [w_pc w_defers w_platform w_err w_proc w_pipe w_wclosed w_rpc w_done w_printed] in *.
  destruct pc; cbn in Hf, Hpre, Hr, Hstep; step_cases Hstep; try discriminate.
  all: injection Hstep as <-.
  all: eexists; split; [reflexivity|]; split; [reflexivity|].
  all: unfold ToolchainMore.worker_left, ToolchainMore.script_lines; cbn;
       try rewrite (Hpre eq_refl); try rewrite (Hr eq_refl); cbn in *; try lia.
  subst ds. cbn. lia.
Qed.

Lemma tc_step_reader_left i w s s' :
  step_reader i w s = Some s' ->
  exists w', st_workers s' = <[i:=w']> (st_workers s) /\
             st_main s' = st_main s /\ (worker_left w' < worker_left w)%nat.
Proof.
  intros Hstep. destruct w as [p pc ds e proc pipe wc r dn pr].
  unfold step_reader in Hstep.
  cbn [w_pc w_defers w_platform w_err w_proc w_pipe w_wclosed w_rpc w_done w_printed] in *.
  step_cases Hstep; try discriminate.
  all: injection Hstep as <-.
  all: eexists; split; [reflexivity|]; split; [reflexivity|].
  all: unfold ToolchainMore.worker_left; cbn; lia.
Qed.

Lemma tc_step_process_left i w s s' :
  step_process pl i w s = Some s' ->
  exists w', st_workers s' = <[i:=w']> (st_workers s) /\
             st_main s' = st_main s /\ (worker_left w' < worker_left w)%nat.
Proof.
  intros Hstep. destruct w as [p pc ds e proc pipe wc r dn pr].
  unfold step_process in Hstep.
  cbn [w_pc w_defers w_platform w_err w_proc w_pipe w_wclosed w_rpc w_done w_printed] in *.
  step_cases Hstep; try discriminate.
  all: injection Hstep as <-.
  all: eexists; split; [reflexivity|]; split; [reflexivity|].
  all: unfold ToolchainMore.worker_left; cbn; rewrite ?length_app; cbn; destruct r; lia.
Qed.

Lemma tc_step_measure t s s' :
  Inv s -> step W pl t s = Some s' -> (measure s' < measure s)%nat.
Proof.
  intros HI Hstep.
  assert (Hlocal : forall i w, st_workers s !! i = Some w ->
            (exists w', st_workers s' = <[i:=w']> (st_workers s) /\
               st_main s' = st_main s /\ (worker_left w' < worker_left w)%nat) ->
            (measure s' < measure s)%nat).
  { intros i w Hi (w' & Hws & Hm & Hlt). unfold ToolchainMore.measure. rewrite Hws, Hm.
    pose proof (sum_list_with_insert worker_left _ _ _ w' Hi). lia. }
  destruct t as [|i|i|i]; cbn in Hstep.
  - unfold step_main in Hstep. unfold ToolchainMore.measure.
    step_cases Hstep; try discriminate; injection Hstep as <-;
      cbn [st_main st_workers with_main with_workers with_wg logs];
      rewrite ?Heqm, ?sum_list_with_snoc.
    + cbn [ToolchainMore.main_left]. lia.
    + assert (Hnew : (worker_left (new_worker p) + 2 = ToolchainMore.spawn_cost W pl p)%nat).
      { unfold ToolchainMore.worker_left, ToolchainMore.spawn_cost. cbn. lia. }
      assert (Hhead : (ToolchainMore.main_left W pl (loop_head rest)
                       <= sum_list_with (ToolchainMore.spawn_cost W pl) rest + 3)%nat).
      { destruct rest; cbn [loop_head ToolchainMore.main_left sum_list_with]; lia. }
      cbn [ToolchainMore.main_left sum_list_with]. lia.
    + cbn [ToolchainMore.main_left]. lia.
    + cbn [ToolchainMore.main_left]. lia.
    + cbn [ToolchainMore.main_left]. lia.
  - destruct (st_workers s !! i) as [w|] eqn:Hi; [|discriminate]. cbn in Hstep.
    apply (Hlocal i w Hi). apply tc_step_worker_left; [|exact Hstep].
    eapply Forall_lookup_1; [apply (Toolchain.inv_wf W pl s HI)|exact Hi].
  - destruct (st_workers s !! i) as [w|] eqn:Hi; [|discriminate]. cbn in Hstep.
    apply (Hlocal i w Hi). apply tc_step_reader_left. exact Hstep.
  - destruct (st_workers s !! i) as [w|] eqn:Hi; [|discriminate]. cbn in Hstep.
    apply (Hlocal i w Hi). apply tc_step_process_left. exact Hstep.
Qed.


(** One of the three threads of a goroutine can step, unless the
    goroutine waits for a permit or for [errorLock], or has exited. *)
Lemma goroutine_can_move i w s :
  st_workers s !! i = Some w ->
  wf w -> more_ok w ->
  (Toolchain.permit w <= st_sem s)%nat ->
  w_pc w <> G_exited ->
  (w_pc w = B_acquire -> (st_sem s < capacity pl)%nat) ->
  (w_pc w = G_lock -> st_errorLock s = false) ->
  enabled (Worker i) s = true \/ enabled (Reader i) s = true \/
  enabled (Process i) s = true.
Proof.
  intros Hi [Hf Hs] Hm Hperm Hne Hacq Hlock.
  unfold ToolchainMore.enabled. cbn. rewrite Hi. cbn.
  unfold step_worker, step_reader, step_process.
  unfold Toolchain.frame, Toolchain.full_stack, Toolchain.stream_ok,
    ToolchainMore.more_ok, Toolchain.permit in *.
  destruct w as [p pc ds e proc pipe wc r dn pr].
  cbn [w_pc w_defers w_platform w_err w_proc w_pipe w_wclosed w_rpc w_done w_printed] in *.
  destruct pc; try congruence; cbn in *; auto.
  - (* B_acquire *) left. rewrite decide_True; [reflexivity|auto].
  - (* B_start *) left. destruct (sc_start_err _); reflexivity.
  - (* B_wait *)
    destruct Hs as (_ & Hsome & _). destruct (Hsome eq_refl) as [[|l rest] Hp]; rewrite Hp; auto.
  - (* B_return *)
    left. destruct (pl_verbose pl); cbn in Hf;
      destruct Hf as [Hf|[Hf|[Hf|Hf]]]; rewrite Hf in *; cbn in *; try reflexivity;
      destruct (st_sem s); cbn in *; first [lia|reflexivity].
  - (* B_drain_wait *)
    destruct Hf as [Hv Hf]. rewrite Hf in *. rewrite Hv in Hs.
    destruct Hs as (_ & _ & _ & _ & _ & _ & Hwc & _).
    destruct Hm as (_ & _ & Hrn & Hrd).
    destruct dn; [left; reflexivity|]. right. left.
    destruct r.
    + exfalso. apply (Hrn Hv eq_refl). reflexivity.
    + destruct pipe; [|reflexivity]. rewrite Hwc. reflexivity.
    + reflexivity.
    + specialize (Hrd eq_refl). discriminate.
  - (* G_lock *) left. rewrite (Hlock eq_refl). reflexivity.
  - (* G_return *) left. destruct Hf as [Hf|Hf]; rewrite Hf; reflexivity.
Qed.

Lemma in_threads i (w : worker) s t :
  st_workers s !! i = Some w ->
  t = Worker i \/ t = Reader i \/ t = Process i ->
  In t (ToolchainMore.threads s).
Proof.
  intros Hi Ht. right. apply in_flat_map. exists i. split.
  - apply in_seq. apply lookup_lt_Some in Hi. lia.
  - cbn. destruct Ht as [->|[->| ->]]; auto.
Qed.

Lemma tc_progress s :
  Inv s -> Inv2 s -> (0 < capacity pl)%nat ->
  (forall r, st_main s <> M_ret r) ->
  exists t, In t (ToolchainMore.threads s) /\ enabled t s = true.
Proof.
  intros HI HI2 Hcap Hnr.
  assert (Hmain : enabled Main s = true ->
            exists t, In t (ToolchainMore.threads s) /\ enabled t s = true).
  { intros H. exists Main. split; [left; reflexivity|exact H]. }
  assert (Hgo : forall i w, st_workers s !! i = Some w ->
            w_pc w <> G_exited ->
            (w_pc w = B_acquire -> (st_sem s < capacity pl)%nat) ->
            (w_pc w = G_lock -> st_errorLock s = false) ->
            exists t, In t (ToolchainMore.threads s) /\ enabled t s = true).
  { intros i w Hi Hne Hacq Hlock.
    destruct (goroutine_can_move i w s Hi) as [H|[H|H]]; auto.
    - eapply Forall_lookup_1; [apply (Toolchain.inv_wf W pl s HI)|exact Hi].
    - eapply Forall_lookup_1; [apply (ToolchainMore.inv_more W pl s HI2)|exact Hi].
    - rewrite (Toolchain.inv_sem W pl s HI). apply sum_list_with_in.
      eapply list_elem_of_lookup_2; exact Hi.
    - exists (Worker i). split; [eapply in_threads; eauto|exact H].
    - exists (Reader i). split; [eapply in_threads; eauto|exact H].
    - exists (Process i). split; [eapply in_threads; eauto|exact H]. }
  pose proof (Toolchain.inv_wf W pl s HI) as Hwf.
  destruct (st_main s) as [p rest|p rest| | |r] eqn:Hm.
  - apply Hmain. unfold ToolchainMore.enabled. cbn. unfold step_main. rewrite Hm. reflexivity.
  - apply Hmain. unfold ToolchainMore.enabled. cbn. unfold step_main. rewrite Hm. reflexivity.
  - destruct (decide (st_wg s = 0)) as [Hz|Hnz].
    { apply Hmain. unfold ToolchainMore.enabled. cbn. unfold step_main. rewrite Hm.
      rewrite decide_True; [reflexivity|exact Hz]. }
    pose proof (Toolchain.inv_wg W pl s HI) as Hwg. rewrite Hm in Hwg. cbn in Hwg.
    pose proof (Toolchain.inv_sem W pl s HI) as Hsem.
    pose proof (Toolchain.inv_lock W pl s HI) as Hlock.
    destruct (st_errorLock s) eqn:Elock.
    { (* the holder of [errorLock] can step *)
      destruct (sum_list_with_pos Toolchain.lock_held (st_workers s))
        as (i & w & Hi & Hpos); [cbn in Hlock; lia|].
      pose proof (Forall_lookup_1 _ _ _ _ Hwf Hi) as [Hf _].
      apply (Hgo i w Hi);
        unfold Toolchain.lock_held, Toolchain.frame, Toolchain.full_stack in *;
        destruct (w_pc w); try congruence; intros _; exfalso;
        repeat match goal with
        | H : _ /\ _ |- _ => destruct H
        end;
        try match goal with H1 : w_defers _ = _ |- _ => rewrite H1 in Hpos end;
        cbn in Hpos; lia. }
    destruct (decide (st_sem s < capacity pl)%nat) as [Hlt|Hge].
    + (* a goroutine that owes its [wg.Done()] can step *)
      destruct (sum_list_with_pos Toolchain.wg_owed (st_workers s))
        as (i & w & Hi & Hpos); [lia|].
      pose proof (Forall_lookup_1 _ _ _ _ Hwf Hi) as [Hf _].
      apply (Hgo i w Hi); auto;
        unfold Toolchain.wg_owed, Toolchain.frame in *;
        destruct (w_pc w); try congruence; intros _; exfalso;
        try match goal with H1 : w_defers _ = _ |- _ => rewrite H1 in Hpos end;
        cbn in Hpos; lia.
    + (* the channel is full: a holder of a permit can step *)
      destruct (sum_list_with_pos Toolchain.permit (st_workers s))
        as (i & w & Hi & Hpos); [lia|].
      pose proof (Forall_lookup_1 _ _ _ _ Hwf Hi) as [Hf _].
      apply (Hgo i w Hi); auto;
        unfold Toolchain.permit, Toolchain.frame in *;
        destruct (w_pc w); try congruence; intros _; exfalso;
        repeat match goal with
        | H : _ \/ _ |- _ => destruct H
        end;
        try match goal with H1 : w_defers _ = _ |- _ => rewrite H1 in Hpos end;
        cbn in Hpos; lia.
  - apply Hmain. unfold ToolchainMore.enabled. cbn. unfold step_main. rewrite Hm.
    destruct (0 <? _); reflexivity.
  - exfalso. apply (Hnr r). reflexivity.
Qed.

Lemma tc_pick_enabled s t : pick s = Some t -> exists s', step W pl t s = Some s'.
Proof.
  intros H. apply find_some in H as [_ H]. unfold ToolchainMore.enabled in H.
  destruct (step W pl t s) as [s'|]; [eauto|discriminate].
Qed.

Lemma tc_pick_progress s :
  Inv s -> Inv2 s -> (0 < capacity pl)%nat -> (forall r, st_main s <> M_ret r) ->
  exists t, pick s = Some t.
Proof.
  intros HI HI2 Hcap Hnr. destruct (pick s) as [t|] eqn:Hp; [eauto|].
  destruct (tc_progress s HI HI2 Hcap Hnr) as (t & Hin & Hen).
  pose proof (find_none _ _ Hp t Hin) as Hf. cbn in Hf. congruence.
Qed.

(** Under the scheduler [pick], [mainBuildToolchain] returns. *)
Lemma tc_drive_returns fuel s :
  Inv s -> Inv2 s -> (0 < capacity pl)%nat -> (measure s <= fuel)%nat ->
  exists s' r, run W pl (drive fuel s) s = Some s' /\ st_main s' = M_ret r.
Proof.
  revert s. induction fuel as [|k IH]; intros s HI HI2 Hcap Hm.
  - unfold ToolchainMore.measure in Hm.
    destruct (st_main s) as [| | | |r] eqn:Hmain; cbn in Hm; try lia.
    exists s, r. split; [reflexivity|exact Hmain].
  - cbn [ToolchainMore.drive]. destruct (st_main s) as [p rest|p rest| | |r] eqn:Hmain;
      try (destruct (tc_pick_progress s HI HI2 Hcap) as [t Ht];
             [intros r; rewrite Hmain; discriminate|];
           rewrite Ht; destruct (tc_pick_enabled s t Ht) as [s1 Hs1]; rewrite Hs1;
           pose proof (tc_step_measure t s s1 HI Hs1) as Hlt;
           destruct (IH s1) as (s' & r & Hrun & Hr);
             [eapply ToolchainFacts.step_Inv; eassumption
             |eapply step_Inv2; eassumption|exact Hcap|lia|];
           exists s', r; split; [cbn; rewrite Hs1; exact Hrun|exact Hr]).
    exists s, r. split; [reflexivity|exact Hmain].
Qed.

End Facts.

End ToolchainMoreFacts.

(** * Further properties of the toolchain build *)

Lemma toolchain_run_app W pl (a b : list tid) s :
  Toolchain.run W pl (a ++ b) s
  = match Toolchain.run W pl a s with
    | Some s' => Toolchain.run W pl b s'
    | None => None
    end.
Proof.
  revert s. induction a as [|t a IH]; intros s; cbn; [reflexivity|].
  destruct (Toolchain.step W pl t s); [apply IH|reflexivity].
Qed.

Lemma toolchain_reachable_Inv W pl t0 sched s :
  Toolchain.run W pl sched (Toolchain.init pl t0) = Some s -> Toolchain.Inv W pl s.
Proof.
  intros H. eapply ToolchainFacts.run_Inv; [apply ToolchainFacts.Inv_init|exact H].
Qed.

Lemma toolchain_reachable_Inv2 W pl t0 sched s :
  Toolchain.run W pl sched (Toolchain.init pl t0) = Some s -> ToolchainMore.Inv2 W pl s.
Proof.
  intros H. eapply ToolchainMoreFacts.run_Inv2;
    [apply ToolchainFacts.Inv_init|apply ToolchainMoreFacts.Inv2_init|exact H].
Qed.

(** X11: the toolchain fan-out cannot deadlock. Whatever the goroutines,
    their build scripts and their readers have done so far, the schedule
    can be continued so that [mainBuildToolchain] returns: nobody waits
    for ever for the semaphore, for [errorLock], for [doneCh] or in
    [wg.Wait()]. *)
Theorem toolchain_never_stuck W requested pf verbose_mode t0 pl sched s :
  Toolchain.prefix W requested pf verbose_mode = (t0, Next pl) ->
  Toolchain.run W pl sched (Toolchain.init pl t0) = Some s ->
  exists more t r,
    Toolchain.mainBuildToolchain W requested pf verbose_mode (sched ++ more)
    = Returned t r.
Proof.
  intros Hp Hrun.
  pose proof (toolchain_reachable_Inv W pl t0 sched s Hrun) as HI.
  pose proof (toolchain_reachable_Inv2 W pl t0 sched s Hrun) as HI2.
  assert (Hcap : (0 < Toolchain.capacity pl)%nat).
  { destruct (toolchain_prefix_plan _ _ _ _ _ _ Hp) as (Hpar & _).
    unfold Toolchain.capacity. rewrite Hpar. lia. }
  destruct (ToolchainMoreFacts.tc_drive_returns W pl (ToolchainMore.measure W pl s) s
              HI HI2 Hcap) as (s' & r & Hrun' & Hr); [lia|].
  exists (ToolchainMore.drive W pl (ToolchainMore.measure W pl s) s),
         (Toolchain.st_trace s'), r.
  unfold Toolchain.mainBuildToolchain. rewrite Hp, toolchain_run_app, Hrun, Hrun', Hr.
  reflexivity.
Qed.

Lemma toolchain_never_stuck_witness :
  exists more t r,
    Toolchain.mainBuildToolchain c8_world 4 no_filter false (c8_sched ++ more)
    = Returned t r.
Proof.
  destruct (Toolchain.run c8_world c8_plan c8_sched (Toolchain.init c8_plan c8_trace))
    as [s|] eqn:Hs; [|vm_compute in Hs; discriminate Hs].
  exact (toolchain_never_stuck c8_world 4 no_filter false c8_trace c8_plan c8_sched s
           eq_refl Hs).
Defined.

(** X12: what [errs] holds at the end. Once every platform has its
    goroutine and every goroutine has exited, [errs] holds exactly one
    entry [<platform>: <error>] for each platform whose build failed (at
    launch or with a failed wait), and nothing for the others. *)
Theorem toolchain_errs_complete W pl t0 sched s :
  Toolchain.run W pl sched (Toolchain.init pl t0) = Some s ->
  ToolchainMore.pending (Toolchain.st_main s) = [] ->
  Forall (fun w => Toolchain.w_pc w = Toolchain.G_exited) (Toolchain.st_workers s) ->
  Toolchain.st_errs s
  ≡ₚ flat_map (ToolchainMore.failure_lines W pl) (Toolchain.pl_platforms pl).
Proof.
  intros Hrun Hpend Hex.
  destruct (toolchain_reachable_Inv2 W pl t0 sched s Hrun) as [Herrs Hplat _].
  rewrite Herrs, <- Hplat, Hpend, app_nil_r. clear Herrs Hplat Hpend Hrun.
  induction Hex as [|w ws Hw _ IH]; [reflexivity|].
  cbn [flat_map map]. rewrite IH.
  unfold ToolchainMore.err_contrib at 1. rewrite Hw. reflexivity.
Qed.

Lemma toolchain_errs_complete_witness :
  exists s,
    Toolchain.run c3_world c3_plan c4_sched (Toolchain.init c3_plan []) = Some s /\
    length (Toolchain.st_errs s) = 1%nat.
Proof.
  destruct (Toolchain.run c3_world c3_plan c4_sched (Toolchain.init c3_plan []))
    as [s|] eqn:Hs; [|vm_compute in Hs; discriminate Hs].
  exists s. split; [reflexivity|].
  assert (Hpend : ToolchainMore.pending (Toolchain.st_main s) = []).
  { vm_compute in Hs. injection Hs as <-. reflexivity. }
  assert (Hex : Forall (fun w => Toolchain.w_pc w = Toolchain.G_exited)
                  (Toolchain.st_workers s)).
  { vm_compute in Hs. injection Hs as <-. repeat constructor. }
  rewrite (Permutation_length
             (toolchain_errs_complete c3_world c3_plan [] c4_sched s Hs Hpend Hex)).
  reflexivity.
Defined.

(** X13: streaming loses nothing and keeps the order. In verbose mode, at
    every moment and for every goroutine whose script has been started,
    the lines already printed by the reader, followed by the lines in the
    pipe, followed by the lines the script has yet to write, are the
    script's output; before the start nothing is printed. When not
    verbose there is no reader and nothing is printed line by line. *)
Theorem toolchain_stream_conservation W pl t0 sched s i w :
  Toolchain.run W pl sched (Toolchain.init pl t0) = Some s ->
  Toolchain.st_workers s !! i = Some w ->
  if Toolchain.pl_verbose pl
  then match Toolchain.w_proc w with
       | Some rest =>
           Toolchain.w_printed w ++ Toolchain.w_pipe w ++ rest
           = sc_lines (Toolchain.script_of W pl (Toolchain.w_platform w))
       | None => Toolchain.w_printed w = [] /\ Toolchain.w_pipe w = []
       end
  else Toolchain.w_rpc w = Toolchain.R_none /\ Toolchain.w_pipe w = [] /\
       Toolchain.w_printed w = [].
Proof.
  intros Hrun Hi.
  pose proof (toolchain_reachable_Inv W pl t0 sched s Hrun) as HI.
  pose proof (Forall_lookup_1 _ _ _ _ (Toolchain.inv_wf W pl s HI) Hi) as [_ Hs].
  unfold Toolchain.stream_ok in Hs.
  destruct (Toolchain.pl_verbose pl).
  - destruct Hs as (_ & _ & _ & _ & _ & Hlines & _). exact Hlines.
  - destruct Hs as (_ & _ & _ & _ & Hr & _ & _ & Hp & Hpr). auto.
Qed.

Lemma toolchain_stream_conservation_witness :
  exists s w,
    Toolchain.run c9_world c9_plan stream_sched (Toolchain.init c9_plan []) = Some s /\
    Toolchain.st_workers s !! 0%nat = Some w /\
    Toolchain.w_printed w = ["# Building C bootstrap tool." +:+ nl] /\
    Toolchain.w_printed w ++ Toolchain.w_pipe w
    = ["# Building C bootstrap tool." +:+ nl; "cmd/dist" +:+ nl].
Proof.
  destruct (Toolchain.run c9_world c9_plan stream_sched (Toolchain.init c9_plan []))
    as [s|] eqn:Hs; [|vm_compute in Hs; discriminate Hs].
  destruct (Toolchain.st_workers s !! 0%nat) as [w|] eqn:Hw;
    [|vm_compute in Hs; injection Hs as <-; vm_compute in Hw; discriminate Hw].
  assert (Hproc : Toolchain.w_proc w = Some []).
  { vm_compute in Hs. injection Hs as <-. vm_compute in Hw. injection Hw as <-. reflexivity. }
  assert (Hplat : Toolchain.w_platform w = linux_amd64).
  { vm_compute in Hs. injection Hs as <-. vm_compute in Hw. injection Hw as <-. reflexivity. }
  assert (Hpr : Toolchain.w_printed w = ["# Building C bootstrap tool." +:+ nl]).
  { vm_compute in Hs. injection Hs as <-. vm_compute in Hw. injection Hw as <-. reflexivity. }
  pose proof (toolchain_stream_conservation c9_world c9_plan [] stream_sched s 0%nat w Hs Hw)
    as H.
  cbn [Toolchain.pl_verbose c9_plan] in H. rewrite Hproc, Hplat, app_nil_r in H.
  exists s, w. repeat split; [exact Hw|exact Hpr|exact H].
Defined.

Lemma toolchain_wg_owed_le W pl (ws : list Toolchain.worker) :
  Forall (Toolchain.wf W pl) ws ->
  (sum_list_with Toolchain.wg_owed ws <= length ws)%nat.
Proof.
  intros Hwf. induction Hwf as [|w ws [Hw _] _ IH]; cbn; [lia|].
  assert (Toolchain.wg_owed w <= 1)%nat; [|lia].
  unfold Toolchain.wg_owed, Toolchain.frame, Toolchain.full_stack in *.
  destruct (Toolchain.w_pc w), (Toolchain.pl_verbose pl);
    repeat match goal with
    | H : _ /\ _ |- _ => destruct H
    | H : _ \/ _ |- _ => destruct H
    end;
    try match goal with H1 : Toolchain.w_defers _ = _ |- _ => rewrite H1 end;
    cbn; lia.
Qed.

(** X14: [errorLock] and the WaitGroup of [mainBuildToolchain]. In every
    reachable state two different goroutines are never both between
    [errorLock.Lock()] and the deferred [errorLock.Unlock()], a goroutine
    in that section finds the mutex held, and the WaitGroup counter is
    never negative (so [wg.Done()] never panics) and never above the
    number of platforms. *)
Theorem toolchain_lock_and_waitgroup W pl t0 sched s :
  Toolchain.run W pl sched (Toolchain.init pl t0) = Some s ->
  (forall i j wi wj,
     i <> j ->
     Toolchain.st_workers s !! i = Some wi ->
     Toolchain.st_workers s !! j = Some wj ->
     (Toolchain.lock_held wi + Toolchain.lock_held wj <= 1)%nat) /\
  (forall i w,
     Toolchain.st_workers s !! i = Some w ->
     (0 < Toolchain.lock_held w)%nat -> Toolchain.st_errorLock s = true) /\
  0 <= Toolchain.st_wg s <= Z.of_nat (length (Toolchain.pl_platforms pl)).
Proof.
  intros Hrun.
  pose proof (toolchain_reachable_Inv W pl t0 sched s Hrun) as HI.
  pose proof (toolchain_reachable_Inv2 W pl t0 sched s Hrun) as HI2.
  pose proof (Toolchain.inv_lock W pl s HI) as Hlock.
  split; [|split].
  - intros i j wi wj Hne Hi Hj.
    pose proof (sum_list_with_two Toolchain.lock_held _ i j wi wj Hne Hi Hj).
    destruct (Toolchain.st_errorLock s); cbn in Hlock; lia.
  - intros i w Hi Hpos.
    pose proof (sum_list_with_in w Toolchain.lock_held _ (list_elem_of_lookup_2 _ _ _ Hi)).
    destruct (Toolchain.st_errorLock s); [reflexivity|cbn in Hlock; lia].
  - rewrite (Toolchain.inv_wg W pl s HI). split; [lia|].
    rewrite <- (ToolchainMore.inv_platforms W pl s HI2), length_app, length_map.
    pose proof (toolchain_wg_owed_le W pl _ (Toolchain.inv_wf W pl s HI)) as Hsum.
    destruct (Toolchain.st_main s); cbn; lia.
Qed.

Lemma toolchain_lock_and_waitgroup_witness :
  exists s w0 w1,
    Toolchain.run c8_world c8_plan lock_sched (Toolchain.init c8_plan c8_trace) = Some s /\
    Toolchain.st_workers s !! 0%nat = Some w0 /\
    Toolchain.st_workers s !! 1%nat = Some w1 /\
    Toolchain.w_pc w0 = Toolchain.G_defer_unlock /\
    Toolchain.w_pc w1 = Toolchain.G_lock /\
    (Toolchain.lock_held w0 + Toolchain.lock_held w1 <= 1)%nat /\
    Toolchain.st_errorLock s = true /\
    0 <= Toolchain.st_wg s <= 2.
Proof.
  destruct (Toolchain.run c8_world c8_plan lock_sched (Toolchain.init c8_plan c8_trace))
    as [s|] eqn:Hs; [|vm_compute in Hs; discriminate Hs].
  destruct (Toolchain.st_workers s !! 0%nat) as [w0|] eqn:H0;
    [|vm_compute in Hs; injection Hs as <-; vm_compute in H0; discriminate H0].
  destruct (Toolchain.st_workers s !! 1%nat) as [w1|] eqn:H1;
    [|vm_compute in Hs; injection Hs as <-; vm_compute in H1; discriminate H1].
  assert (Hpc0 : Toolchain.w_pc w0 = Toolchain.G_defer_unlock).
  { vm_compute in Hs. injection Hs as <-. vm_compute in H0. injection H0 as <-. reflexivity. }
  assert (Hpc1 : Toolchain.w_pc w1 = Toolchain.G_lock).
  { vm_compute in Hs. injection Hs as <-. vm_compute in H1. injection H1 as <-. reflexivity. }
  destruct (toolchain_lock_and_waitgroup c8_world c8_plan c8_trace lock_sched s Hs)
    as (Hex & Hheld & Hwg).
  exists s, w0, w1. repeat split; try assumption; try reflexivity.
  - apply (Hex 0%nat 1%nat); [discriminate|exact H0|exact H1].
  - apply (Hheld 0%nat w0 H0). unfold Toolchain.lock_held. rewrite Hpc0. lia.
  - apply Hwg.
  - apply Hwg.
Defined.

Lemma toolchain_prefix_return W requested pf verbose_mode t r :
  Toolchain.prefix W requested pf verbose_mode = (t, Return r) ->
  quiet t = true /\
  (r = None \/ r = snd (exec_LookPath W "go") \/ r = snd (GoVersionParts W) \/
   r = snd (GoVersion W) \/ r = snd (GoRoot W)).
Proof.
  unfold Toolchain.prefix.
  destruct (exec_LookPath W "go") as [p [e|]];
    [intros H; injection H as <- <-; cbn; auto|].
  destruct (GoVersionParts W) as [vp [e|]];
    [intros H; injection H as <- <-; cbn; auto 6|].
  cbn. unfold index.
  destruct (vp !! 0%nat) as [v0|]; [|discriminate]. cbn.
  destruct (1 <=? v0); cbn.
  - destruct (vp !! 1%nat) as [v1|]; [|discriminate]. cbn.
    destruct (5 <=? v1); cbn; [intros H; injection H as <- <-; cbn; auto|].
    destruct (GoVersion W) as [v [e|]]; [intros H; injection H as <- <-; cbn; auto 6|].
    destruct (GoRoot W) as [rt [e|]]; [intros H; injection H as <- <-; cbn; auto 6|].
    destruct verbose_mode; cbn; destruct (1 <? requested); cbn; discriminate.
  - destruct (GoVersion W) as [v [e|]]; [intros H; injection H as <- <-; cbn; auto 6|].
    destruct (GoRoot W) as [rt [e|]]; [intros H; injection H as <- <-; cbn; auto 6|].
    destruct verbose_mode; cbn; destruct (1 <? requested); cbn; discriminate.
Qed.

(** X15: the only errors of [mainBuildToolchain]. Whenever it returns a
    non-nil error, that error is the one returned by [exec.LookPath],
    [GoVersionParts], [GoVersion] or [GoRoot], passed on unchanged, and
    nothing has been started: no goroutine, no build script. *)
Theorem toolchain_error_is_setup_error W requested pf verbose_mode sched t e :
  Toolchain.mainBuildToolchain W requested pf verbose_mode sched = Returned t (Some e) ->
  (snd (exec_LookPath W "go") = Some e \/ snd (GoVersionParts W) = Some e \/
   snd (GoVersion W) = Some e \/ snd (GoRoot W) = Some e) /\
  quiet t = true.
Proof.
  unfold Toolchain.mainBuildToolchain.
  destruct (Toolchain.prefix W requested pf verbose_mode) as [t1 [pl|r|m]] eqn:Hp.
  - destruct (Toolchain.run W pl sched (Toolchain.init pl t1)) as [s|] eqn:Hrun;
      [|discriminate].
    destruct (Toolchain.st_main s) as [| | | |r] eqn:Hm; try discriminate.
    rewrite (mainBuildToolchain_fanout_nil W requested pf verbose_mode
               t1 pl sched s r Hp Hrun Hm). discriminate.
  - intros H. injection H as <- ->.
    destruct (toolchain_prefix_return _ _ _ _ _ _ Hp) as (Hq & [H|[H|[H|[H|H]]]]);
      try discriminate; split; auto.
  - discriminate.
Qed.

Lemma toolchain_error_is_setup_error_witness :
  exists t,
    Toolchain.mainBuildToolchain world_no_go 4 no_filter false sched_1x1
    = Returned t (Some "executable file not found in $PATH") /\
    quiet t = true.
Proof.
  destruct (Toolchain.mainBuildToolchain world_no_go 4 no_filter false sched_1x1)
    as [t r|t m|] eqn:Hrun; try (vm_compute in Hrun; discriminate Hrun).
  assert (Hr : r = Some "executable file not found in $PATH").
  { vm_compute in Hrun. injection Hrun as _ <-. reflexivity. }
  subst r. exists t. split; [reflexivity|].
  apply (toolchain_error_is_setup_error world_no_go 4 no_filter false sched_1x1 t _ Hrun).
Defined.

(** X16: a short version list makes [mainBuildToolchain] panic. The test
    [versionParts[0] >= 1 && versionParts[1] >= 5] is not guarded by a
    length check: if [GoVersionParts] returns no error and an empty list,
    or a one-element list whose major version is at least 1, the indexing
    is out of range and the program panics before anything is built. *)
Theorem toolchain_version_index_panics W requested pf verbose_mode sched vp :
  snd (exec_LookPath W "go") = None ->
  GoVersionParts W = (vp, None) ->
  vp = [] \/ (exists major, vp = [major] /\ 1 <= major) ->
  Toolchain.mainBuildToolchain W requested pf verbose_mode sched
  = Panicked [EvLookPath "go"; EvGoVersionParts] "index out of range".
Proof.
  intros Hlp Hvp Hshort.
  unfold Toolchain.mainBuildToolchain, Toolchain.prefix.
  destruct (exec_LookPath W "go") as [p err]. cbn in Hlp. subst err.
  rewrite Hvp. destruct Hshort as [->|(major & -> & Hmajor)]; cbn.
  - reflexivity.
  - destruct (1 <=? major) eqn:Hle; [reflexivity|lia].
Qed.

Lemma toolchain_version_index_panics_witness :
  Toolchain.mainBuildToolchain (with_versionParts ([1], None) c3_world) 4 no_filter false
    sched_1x1
  = Panicked [EvLookPath "go"; EvGoVersionParts] "index out of range".
Proof.
  apply (toolchain_version_index_panics (with_versionParts ([1], None) c3_world)
           4 no_filter false sched_1x1 [1]).
  - reflexivity.
  - reflexivity.
  - right. exists 1. split; [reflexivity|lia].
Defined.

Lemma toolchain_none_run W pl sched s :
  Toolchain.pl_platforms pl = [] ->
  Toolchain.st_workers s = [] -> Toolchain.st_errs s = [] ->
  (Toolchain.st_main s = Toolchain.M_wait \/ Toolchain.st_main s = Toolchain.M_read \/
   Toolchain.st_main s = Toolchain.M_ret None) ->
  forall s', Toolchain.run W pl sched s = Some s' ->
  Toolchain.st_trace s' = Toolchain.st_trace s /\
  (Toolchain.st_main s' = Toolchain.M_wait \/ Toolchain.st_main s' = Toolchain.M_read \/
   Toolchain.st_main s' = Toolchain.M_ret None).
Proof.
  intros Hpl. revert s. induction sched as [|t sched IH]; intros s Hw He Hm s' Hrun;
    cbn in Hrun.
  - injection Hrun as <-. auto.
  - destruct (Toolchain.step W pl t s) as [s1|] eqn:Hstep; [|discriminate].
    assert (H1 : Toolchain.st_workers s1 = [] /\ Toolchain.st_errs s1 = [] /\
                 Toolchain.st_trace s1 = Toolchain.st_trace s /\
                 (Toolchain.st_main s1 = Toolchain.M_wait \/
                  Toolchain.st_main s1 = Toolchain.M_read \/
                  Toolchain.st_main s1 = Toolchain.M_ret None)).
    { destruct t as [|i|i|i]; cbn in Hstep; rewrite ?Hw in Hstep; try discriminate.
      unfold Toolchain.step_main in Hstep. rewrite He in Hstep.
      destruct Hm as [Hm|[Hm|Hm]]; rewrite Hm in Hstep; cbn in Hstep.
      - destruct (decide (Toolchain.st_wg s = 0)); [|discriminate].
        injection Hstep as <-. cbn. repeat split; auto.
      - injection Hstep as <-. cbn. repeat split; auto.
      - discriminate. }
    destruct H1 as (Hw1 & He1 & Ht1 & Hm1).
    rewrite <- Ht1. apply (IH s1 Hw1 He1 Hm1 s' Hrun).
Qed.

(** X17: no platform to build. When the platform filter selects nothing,
    [mainBuildToolchain] (unlike [CrossCompile]) reports no error: it
    starts no goroutine, prints nothing more and returns nil. *)
Theorem toolchain_no_platform_returns_nil W requested pf verbose_mode t0 pl :
  Toolchain.prefix W requested pf verbose_mode = (t0, Next pl) ->
  Toolchain.pl_platforms pl = [] ->
  Toolchain.mainBuildToolchain W requested pf verbose_mode [Main; Main] = Returned t0 None /\
  (forall sched t r,
     Toolchain.mainBuildToolchain W requested pf verbose_mode sched = Returned t r ->
     t = t0 /\ r = None).
Proof.
  intros Hp Hpl. unfold Toolchain.mainBuildToolchain. rewrite Hp. split.
  - cbn. unfold Toolchain.step_main, Toolchain.init. rewrite Hpl. cbn. reflexivity.
  - intros sched t r.
    destruct (Toolchain.run W pl sched (Toolchain.init pl t0)) as [s|] eqn:Hrun;
      [|discriminate].
    destruct (toolchain_none_run W pl sched (Toolchain.init pl t0) Hpl eq_refl eq_refl)
      with (s' := s) as (Ht & Hm); [unfold Toolchain.init; rewrite Hpl; cbn; auto|exact Hrun|].
    destruct (Toolchain.st_main s) as [| | | |r0]; try discriminate.
    intros H. injection H as <- <-. split; [exact Ht|].
    destruct Hm as [Hm|[Hm|Hm]]; try discriminate. injection Hm as ->. reflexivity.
Qed.

Lemma toolchain_no_platform_returns_nil_witness :
  Toolchain.mainBuildToolchain world_toolchain_none 1 no_filter false [Main; Main]
  = Returned [EvLookPath "go"; EvGoVersionParts; EvGoVersion; EvGoRoot;
              EvPlatforms "go1.4.2"] None.
Proof.
  apply (toolchain_no_platform_returns_nil world_toolchain_none 1 no_filter false
           [EvLookPath "go"; EvGoVersionParts; EvGoVersion; EvGoRoot; EvPlatforms "go1.4.2"]
           plan_none); reflexivity.
Defined.

Lemma toolchain_prefix_quiet W requested pf verbose_mode t f :
  Toolchain.prefix W requested pf verbose_mode = (t, f) -> quiet t = true.
Proof.
  unfold Toolchain.prefix.
  destruct (exec_LookPath W "go") as [p [e|]];
    [intros H; injection H as <- <-; reflexivity|].
  destruct (GoVersionParts W) as [vp [e|]];
    [intros H; injection H as <- <-; reflexivity|].
  cbn. unfold index.
  destruct (vp !! 0%nat) as [v0|]; [|intros H; injection H as <- <-; reflexivity]. cbn.
  destruct (1 <=? v0); cbn.
  - destruct (vp !! 1%nat) as [v1|]; [|intros H; injection H as <- <-; reflexivity]. cbn.
    destruct (5 <=? v1); cbn; [intros H; injection H as <- <-; reflexivity|].
    destruct (GoVersion W) as [v [e|]]; [intros H; injection H as <- <-; reflexivity|].
    destruct (GoRoot W) as [rt [e|]]; [intros H; injection H as <- <-; reflexivity|].
    destruct verbose_mode; cbn; destruct (1 <? requested); cbn;
      intros H; injection H as <- <-; reflexivity.
  - destruct (GoVersion W) as [v [e|]]; [intros H; injection H as <- <-; reflexivity|].
    destruct (GoRoot W) as [rt [e|]]; [intros H; injection H as <- <-; reflexivity|].
    destruct verbose_mode; cbn; destruct (1 <? requested); cbn;
      intros H; injection H as <- <-; reflexivity.
Qed.

Lemma starts_by_app i (a b : list event) :
  starts_by i (a ++ b) = starts_by i a ++ starts_by i b.
Proof. unfold starts_by. apply flat_map_app. Qed.

Lemma starts_by_quiet k (t : list event) : quiet t = true -> starts_by k t = [].
Proof.
  unfold starts_by, quiet. induction t as [|e t IH]; cbn [flat_map forallb]; [reflexivity|].
  intros H. apply andb_true_iff in H as [He Ht]. rewrite (IH Ht).
  destruct e; cbn in *; try reflexivity; discriminate.
Qed.

Lemma starts_so_far_snoc W pl ws p k :
  starts_so_far W pl (ws ++ [Toolchain.new_worker p]) k = starts_so_far W pl ws k.
Proof.
  unfold starts_so_far.
  destruct (decide (k < length ws)%nat) as [Hlt|Hge].
  - rewrite lookup_app_l by exact Hlt. reflexivity.
  - rewrite (lookup_ge_None_2 ws k) by lia.
    destruct (decide (k = length ws)) as [->|Hne].
    + rewrite list_lookup_middle by reflexivity. reflexivity.
    + rewrite lookup_ge_None_2; [reflexivity|]. rewrite length_app. cbn. lia.
Qed.

Ltac toolchain_step_simpl :=
  cbn [Toolchain.st_trace Toolchain.st_workers Toolchain.logs Toolchain.with_main
       Toolchain.with_workers Toolchain.with_wg Toolchain.with_worker
       Toolchain.with_sem Toolchain.with_lock Toolchain.with_errs].

(** What one step adds to the script starts of goroutine [k]. *)
Lemma toolchain_step_starts W pl t s s' k :
  Toolchain.step W pl t s = Some s' ->
  exists delta,
    starts_by k (Toolchain.st_trace s') = starts_by k (Toolchain.st_trace s) ++ delta /\
    starts_so_far W pl (Toolchain.st_workers s') k
    = starts_so_far W pl (Toolchain.st_workers s) k ++ delta.
Proof.
  intros Hstep. destruct t as [|i|i|i]; cbn in Hstep.
  - exists []. unfold Toolchain.step_main in Hstep.
    step_cases Hstep; try discriminate; injection Hstep as <-; toolchain_step_simpl;
      rewrite ?starts_by_app, ?starts_so_far_snoc, ?app_nil_r; split; try reflexivity.
    assert (Hrep : starts_by k (Toolchain.report (Toolchain.st_errs s)) = []).
    { unfold Toolchain.report, starts_by. cbn. clear.
      induction (Toolchain.st_errs s); cbn; auto. }
    rewrite Hrep, app_nil_r. reflexivity.
  - destruct (Toolchain.st_workers s !! i) as [w|] eqn:Hi; [|discriminate]. cbn in Hstep.
    unfold starts_so_far.
    destruct (decide (k = i)) as [->|Hne].
    + rewrite Hi. destruct w as [p pc ds e proc pipe wc r dn pr].
      unfold Toolchain.step_worker in Hstep.
      cbn [Toolchain.w_pc Toolchain.w_defers Toolchain.w_platform Toolchain.w_err
           Toolchain.w_proc Toolchain.w_pipe Toolchain.w_wclosed Toolchain.w_rpc
           Toolchain.w_done Toolchain.w_printed] in *.
      apply lookup_lt_Some in Hi.
      destruct pc; cbn in Hstep; step_cases Hstep; try discriminate;
        injection Hstep as <-; toolchain_step_simpl;
        rewrite ?(list_lookup_insert_eq _ _ _ Hi); cbn;
        rewrite ?starts_by_app; cbn; rewrite ?Nat.eqb_refl;
        first [ exists []; rewrite ?app_nil_r; split; reflexivity
              | eexists; split; reflexivity ].
    + exists [].
      assert (Hik : Nat.eqb i k = false) by (apply Nat.eqb_neq; congruence).
      destruct w as [p pc ds e proc pipe wc r dn pr].
      unfold Toolchain.step_worker in Hstep.
      cbn [Toolchain.w_pc Toolchain.w_defers Toolchain.w_platform Toolchain.w_err
           Toolchain.w_proc Toolchain.w_pipe Toolchain.w_wclosed Toolchain.w_rpc
           Toolchain.w_done Toolchain.w_printed] in *.
      destruct pc; cbn in Hstep; step_cases Hstep; try discriminate;
        injection Hstep as <-; toolchain_step_simpl;
        rewrite ?starts_by_app; cbn; rewrite ?Hik, ?app_nil_r;
        rewrite (list_lookup_insert_ne _ i k) by congruence; split; reflexivity.
  - destruct (Toolchain.st_workers s !! i) as [w|] eqn:Hi; [|discriminate]. cbn in Hstep.
    exists []. unfold starts_so_far. unfold Toolchain.step_reader in Hstep.
    step_cases Hstep; try discriminate; injection Hstep as <-; toolchain_step_simpl;
      rewrite ?starts_by_app; cbn; rewrite ?app_nil_r;
      (split; [reflexivity|]);
      (destruct (decide (k = i)) as [->|Hne];
        [apply lookup_lt_Some in Hi as Hlt;
         rewrite (list_lookup_insert_eq _ _ _ Hlt), Hi; reflexivity
        |rewrite (list_lookup_insert_ne _ i k) by congruence; reflexivity]).
  - destruct (Toolchain.st_workers s !! i) as [w|] eqn:Hi; [|discriminate]. cbn in Hstep.
    exists []. unfold starts_so_far. unfold Toolchain.step_process in Hstep.
    step_cases Hstep; try discriminate; injection Hstep as <-; toolchain_step_simpl;
      rewrite ?app_nil_r;
      (split; [reflexivity|]);
      (destruct (decide (k = i)) as [->|Hne];
        [apply lookup_lt_Some in Hi as Hlt;
         rewrite (list_lookup_insert_eq _ _ _ Hlt), Hi; reflexivity
        |rewrite (list_lookup_insert_ne _ i k) by congruence; reflexivity]).
Qed.

Lemma toolchain_run_starts W pl sched s s' k :
  Toolchain.run W pl sched s = Some s' ->
  exists delta,
    starts_by k (Toolchain.st_trace s') = starts_by k (Toolchain.st_trace s) ++ delta /\
    starts_so_far W pl (Toolchain.st_workers s') k
    = starts_so_far W pl (Toolchain.st_workers s) k ++ delta.
Proof.
  revert s. induction sched as [|t sched IH]; intros s Hrun; cbn in Hrun.
  - injection Hrun as <-. exists []. rewrite !app_nil_r. split; reflexivity.
  - destruct (Toolchain.step W pl t s) as [s1|] eqn:Hs; [|discriminate].
    destruct (toolchain_step_starts W pl t s s1 k Hs) as (d1 & H1 & H1').
    destruct (IH s1 Hrun) as (d2 & H2 & H2').
    exists (d1 ++ d2). rewrite H2, H1, H2', H1', !app_assoc. split; reflexivity.
Qed.

(** X18: every goroutine of the toolchain build starts its build script
    at most once. In every reachable state the trace holds, for goroutine
    [i], no [cmd.Start()] as long as it has not reached that statement and
    exactly one afterwards, always of [make.bash] ([make.bat] on windows)
    in [GOROOT/src]; a failed script is not started again, and nothing is
    started on behalf of a goroutine that does not exist. *)
Theorem toolchain_script_started_once W requested pf verbose_mode t0 pl sched s i :
  Toolchain.prefix W requested pf verbose_mode = (t0, Next pl) ->
  Toolchain.run W pl sched (Toolchain.init pl t0) = Some s ->
  starts_by i (Toolchain.st_trace s)
  = match Toolchain.st_workers s !! i with
    | Some w =>
        if Toolchain.pre_start (Toolchain.w_pc w) then []
        else [(Toolchain.scriptPath W pl, Toolchain.scriptDir W pl)]
    | None => []
    end.
Proof.
  intros Hp Hrun.
  destruct (toolchain_run_starts W pl sched _ s i Hrun) as (delta & Ht & Hw).
  cbn [Toolchain.init Toolchain.st_trace Toolchain.st_workers] in Ht, Hw.
  rewrite (starts_by_quiet i t0 (toolchain_prefix_quiet _ _ _ _ _ _ Hp)) in Ht.
  change (starts_so_far W pl [] i) with (@nil (string * string)) in Hw.
  cbn [app] in Ht, Hw. rewrite Ht, <- Hw. reflexivity.
Qed.

Lemma toolchain_script_started_once_witness :
  exists s,
    Toolchain.run c8_world c8_plan lock_sched (Toolchain.init c8_plan c8_trace) = Some s /\
    starts_by 1 (Toolchain.st_trace s) = [("/go/src/make.bash", "/go/src")] /\
    starts_by 2 (Toolchain.st_trace s) = [].
Proof.
  destruct (Toolchain.run c8_world c8_plan lock_sched (Toolchain.init c8_plan c8_trace))
    as [s|] eqn:Hs; [|vm_compute in Hs; discriminate Hs].
  exists s. split; [reflexivity|]. split.
  - rewrite (toolchain_script_started_once c8_world 4 no_filter false c8_trace c8_plan
               lock_sched s 1%nat eq_refl Hs).
    vm_compute in Hs. injection Hs as <-. reflexivity.
  - rewrite (toolchain_script_started_once c8_world 4 no_filter false c8_trace c8_plan
               lock_sched s 2%nat eq_refl Hs).
    vm_compute in Hs. injection Hs as <-. reflexivity.
Defined.

(** * The version check, and what follows it *)

(** Only [mainBuildToolchain] itself adds to the WaitGroup counter or
    starts a goroutine. *)
Lemma toolchain_step_other W pl t s s' :
  t <> Main -> Toolchain.step W pl t s = Some s' ->
  Toolchain.st_wg s' <= Toolchain.st_wg s /\
  Toolchain.st_main s' = Toolchain.st_main s /\
  length (Toolchain.st_workers s') = length (Toolchain.st_workers s).
Proof.
  intros Ht Hstep. destruct t as [|i|i|i]; [congruence| | |]; cbn in Hstep;
    (destruct (Toolchain.st_workers s !! i) as [w|]; [|discriminate]); cbn in Hstep.
  - unfold Toolchain.step_worker in Hstep.
    step_cases Hstep; try discriminate; injection Hstep as <-; toolchain_step_simpl;
      cbn; rewrite ?length_insert; repeat split; lia.
  - unfold Toolchain.step_reader in Hstep.
    step_cases Hstep; try discriminate; injection Hstep as <-; toolchain_step_simpl;
      cbn; rewrite ?length_insert; repeat split; lia.
  - unfold Toolchain.step_process in Hstep.
    step_cases Hstep; try discriminate; injection Hstep as <-; toolchain_step_simpl;
      cbn; rewrite ?length_insert; repeat split; lia.
Qed.

(** [wg.Wait()] is passed with the counter at 0, and the counter stays
    there. *)
Lemma toolchain_run_past_wait W pl sched s s' :
  Toolchain.Inv W pl s ->
  (toolchain_past_wait (Toolchain.st_main s) = true -> Toolchain.st_wg s = 0) ->
  Toolchain.run W pl sched s = Some s' ->
  toolchain_past_wait (Toolchain.st_main s') = true -> Toolchain.st_wg s' = 0.
Proof.
  revert s. induction sched as [|t sched IH]; intros s HI Hs Hrun; cbn in Hrun.
  - injection Hrun as <-. exact Hs.
  - destruct (Toolchain.step W pl t s) as [s1|] eqn:Hstep; [|discriminate].
    assert (HI1 : Toolchain.Inv W pl s1) by (eapply ToolchainFacts.step_Inv; eassumption).
    apply (IH s1 HI1); [|exact Hrun]. clear IH Hrun.
    assert (Hcase : t = Main \/ t <> Main)
      by (destruct t; [left; reflexivity|right; discriminate..]).
    destruct Hcase as [->|Hne].
    + cbn in Hstep. unfold Toolchain.step_main in Hstep.
      step_cases Hstep; try discriminate; injection Hstep as <-; cbn; try discriminate.
      * destruct rest; discriminate.
      * intros _. assumption.
      * intros _. apply Hs. reflexivity.
      * intros _. apply Hs. reflexivity.
    + destruct (toolchain_step_other W pl t s s1 Hne Hstep) as (Hle & Hm & _).
      rewrite Hm. intros Hp. specialize (Hs Hp).
      pose proof (Toolchain.inv_wg W pl s1 HI1). lia.
Qed.

(** Every goroutine was started by a [go] statement. *)
Lemma toolchain_run_spawned W pl sched s s' :
  (forall i, (i < length (Toolchain.st_workers s))%nat -> In (EvGo i) (Toolchain.st_trace s)) ->
  Toolchain.run W pl sched s = Some s' ->
  forall i, (i < length (Toolchain.st_workers s'))%nat -> In (EvGo i) (Toolchain.st_trace s').
Proof.
  revert s. induction sched as [|t sched IH]; intros s Hs Hrun; cbn in Hrun.
  - injection Hrun as <-. exact Hs.
  - destruct (Toolchain.step W pl t s) as [s1|] eqn:Hstep; [|discriminate].
    apply (IH s1); [|exact Hrun]. clear IH Hrun. intros i Hi.
    destruct (ToolchainFacts.step_trace W pl t s s1 Hstep) as [es Hes].
    assert (Hcase : t = Main \/ t <> Main)
      by (destruct t; [left; reflexivity|right; discriminate..]).
    destruct Hcase as [->|Hne].
    + cbn in Hstep. unfold Toolchain.step_main in Hstep.
      step_cases Hstep; try discriminate; injection Hstep as <-;
        cbn in Hi |- *; try (apply Hs; exact Hi);
        try (apply in_or_app; left; apply Hs; exact Hi).
      rewrite length_app in Hi. cbn in Hi. apply in_or_app.
      destruct (decide (i = length (Toolchain.st_workers s))) as [->|Hlt].
      * right. left. reflexivity.
      * left. apply Hs. lia.
    + destruct (toolchain_step_other W pl t s s1 Hne Hstep) as (_ & _ & Hlen).
      rewrite Hes. apply in_or_app. left. apply Hs. lia.
Qed.

(** A goroutine that owes no [wg.Done()] has started its build script. *)
Lemma toolchain_wg_owed_zero W pl w :
  Toolchain.wf W pl w -> Toolchain.wg_owed w = 0%nat ->
  Toolchain.pre_start (Toolchain.w_pc w) = false.
Proof.
  intros [Hf _]. unfold Toolchain.wg_owed, Toolchain.frame, Toolchain.full_stack in *.
  destruct (Toolchain.w_pc w); cbn; try reflexivity; intros H; exfalso;
    repeat match goal with
    | H : _ /\ _ |- _ => destruct H
    end;
    try match goal with H1 : Toolchain.w_defers _ = _ |- _ => rewrite H1 in H end;
    destruct (Toolchain.pl_verbose pl); cbn in H; lia.
Qed.

(** What a return of the fan-out of [mainBuildToolchain] implies: every
    platform got its goroutine and every goroutine has started its build
    script, once. *)
Lemma toolchain_returned_built W requested pf verbose_mode t0 pl sched s r i :
  Toolchain.prefix W requested pf verbose_mode = (t0, Next pl) ->
  Toolchain.run W pl sched (Toolchain.init pl t0) = Some s ->
  Toolchain.st_main s = Toolchain.M_ret r ->
  (i < length (Toolchain.pl_platforms pl))%nat ->
  In (EvGo i) (Toolchain.st_trace s) /\
  starts_by i (Toolchain.st_trace s)
  = [(Toolchain.scriptPath W pl, Toolchain.scriptDir W pl)].
Proof.
  intros Hp Hrun Hr Hi.
  pose proof (toolchain_reachable_Inv W pl t0 sched s Hrun) as HI.
  pose proof (toolchain_reachable_Inv2 W pl t0 sched s Hrun) as HI2.
  pose proof (ToolchainMore.inv_platforms W pl s HI2) as Hplat.
  rewrite Hr in Hplat. cbn in Hplat. rewrite app_nil_r in Hplat.
  rewrite <- Hplat, length_map in Hi.
  destruct (lookup_lt_is_Some_2 _ _ Hi) as [w Hw].
  split.
  - apply (toolchain_run_spawned W pl sched (Toolchain.init pl t0) s); [|exact Hrun|exact Hi].
    cbn. intros j Hj. lia.
  - destruct (toolchain_run_starts W pl sched _ s i Hrun) as (delta & Ht & Hws).
    cbn [Toolchain.init Toolchain.st_trace Toolchain.st_workers] in Ht, Hws.
    rewrite (starts_by_quiet i t0 (toolchain_prefix_quiet _ _ _ _ _ _ Hp)) in Ht.
    change (starts_so_far W pl [] i) with (@nil (string * string)) in Hws.
    cbn [app] in Ht, Hws. rewrite Ht, <- Hws. unfold starts_so_far. rewrite Hw.
    assert (Hwg : Toolchain.st_wg s = 0).
    { apply (toolchain_run_past_wait W pl sched (Toolchain.init pl t0) s
               (ToolchainFacts.Inv_init W pl t0)); [|exact Hrun|rewrite Hr; reflexivity].
      intros _. reflexivity. }
    pose proof (Toolchain.inv_wg W pl s HI) as Hsum. rewrite Hwg, Hr in Hsum. cbn in Hsum.
    rewrite (toolchain_wg_owed_zero W pl w); [reflexivity| |].
    + eapply Forall_lookup_1; [apply (Toolchain.inv_wf W pl s HI)|exact Hw].
    + apply (sum_list_with_zero Toolchain.wg_owed (Toolchain.st_workers s) i w); [lia|exact Hw].
Qed.

(** C10: with [go] on the PATH and a parsed version [major.minor...],
    [mainBuildToolchain] short-circuits (returns [nil] after the two
    look-ups and the notice, with no call of [GoVersion], [GoRoot] or
    [Platforms] and no goroutine) exactly when [major >= 1] and
    [minor >= 5]. In every other case (in particular when [minor < 5],
    whatever [major] is) it goes on to read the version string, so that
    every return of [mainBuildToolchain] has made that call; and if that
    and the root look-up succeed it runs the legacy build of the selected
    platforms: some schedule lets it return, and whenever it returns,
    every selected platform has got its goroutine and its build script
    has been started, once. *)
Theorem C10_version_short_circuit W requested pf verbose_mode go major minor rest :
  exec_LookPath W "go" = (go, None) ->
  GoVersionParts W = (major :: minor :: rest, None) ->
  ((1 <= major /\ 5 <= minor) <->
     Toolchain.prefix W requested pf verbose_mode = (short_circuit_trace, Return None)) /\
  (1 <= major /\ 5 <= minor ->
     forall sched,
       Toolchain.mainBuildToolchain W requested pf verbose_mode sched
       = Returned short_circuit_trace None) /\
  (~ (1 <= major /\ 5 <= minor) ->
     (exists t o, Toolchain.prefix W requested pf verbose_mode
                  = (EvLookPath "go" :: EvGoVersionParts :: EvGoVersion :: t, o)) /\
     (forall sched t r,
        Toolchain.mainBuildToolchain W requested pf verbose_mode sched = Returned t r ->
        exists t', t = EvLookPath "go" :: EvGoVersionParts :: EvGoVersion :: t') /\
     (forall v root, GoVersion W = (v, None) -> GoRoot W = (root, None) ->
        exists t0 pl,
          Toolchain.prefix W requested pf verbose_mode = (t0, Next pl) /\
          Toolchain.pl_root pl = root /\
          Toolchain.pl_platforms pl = Platforms W pf (SupportedPlatforms W v) /\
          (exists sched t r,
             Toolchain.mainBuildToolchain W requested pf verbose_mode sched = Returned t r) /\
          (forall sched t r,
             Toolchain.mainBuildToolchain W requested pf verbose_mode sched = Returned t r ->
             forall i, (i < length (Platforms W pf (SupportedPlatforms W v)))%nat ->
               In (EvGo i) t /\
               starts_by i t = [(Toolchain.scriptPath W pl, Toolchain.scriptDir W pl)]))).
Proof.
  intros Hgo Hvp.
  assert (Hyes : 1 <= major /\ 5 <= minor ->
            Toolchain.prefix W requested pf verbose_mode = (short_circuit_trace, Return None)).
  { intros [H1 H5]. unfold Toolchain.prefix. rewrite Hgo, Hvp. cbn.
    apply Z.leb_le in H1, H5. rewrite H1. cbn. rewrite H5. reflexivity. }
  assert (Hno : ~ (1 <= major /\ 5 <= minor) ->
            (exists t o, Toolchain.prefix W requested pf verbose_mode
                  = (EvLookPath "go" :: EvGoVersionParts :: EvGoVersion :: t, o)) /\
            (forall v root, GoVersion W = (v, None) -> GoRoot W = (root, None) ->
               exists t pl, Toolchain.prefix W requested pf verbose_mode = (t, Next pl) /\
                     Toolchain.pl_root pl = root /\
                     Toolchain.pl_platforms pl = Platforms W pf (SupportedPlatforms W v))).
  { intros Hn. unfold Toolchain.prefix. rewrite Hgo, Hvp. cbn.
    destruct (1 <=? major) eqn:H1; cbn;
      [destruct (5 <=? minor) eqn:H5; [apply Z.leb_le in H1, H5; tauto|]|]; cbn.
    all: split.
    all: try (intros v root Hv Hr; rewrite Hv, Hr; cbn;
              destruct verbose_mode; cbn; destruct (1 <? requested); cbn;
              eexists; eexists; repeat split).
    all: destruct (GoVersion W) as [v [e|]]; cbn; eauto.
    all: destruct (GoRoot W) as [r [e|]]; cbn; eauto.
    all: destruct verbose_mode; cbn; destruct (1 <? requested); cbn; eauto. }
  split; [split; [exact Hyes|]|split].
  - intros Hp. destruct (Z_le_dec 1 major) as [H1|H1];
      [destruct (Z_le_dec 5 minor) as [H5|H5]; [tauto|]|].
    + destruct Hno as [(t & o & Ht) _]; [lia|]. rewrite Ht in Hp. discriminate.
    + destruct Hno as [(t & o & Ht) _]; [lia|]. rewrite Ht in Hp. discriminate.
  - intros Hc sched. unfold Toolchain.mainBuildToolchain. rewrite (Hyes Hc). reflexivity.
  - intros Hn. destruct (Hno Hn) as [(tp & o & Htp) Hgoes]. split; [|split].
    + exists tp, o. exact Htp.
    + intros sched t r. unfold Toolchain.mainBuildToolchain. rewrite Htp.
      destruct o as [pl|r0|m]; [|intros H; injection H as <- _; eauto|discriminate].
      destruct (Toolchain.run W pl sched _) as [s|] eqn:Hrun; [|discriminate].
      destruct (Toolchain.st_main s); try discriminate.
      intros H. injection H as <- _.
      destruct (ToolchainFacts.run_trace W pl sched _ s Hrun) as [es Hes].
      rewrite Hes. cbn. eauto.
    + intros v root Hv Hr. destruct (Hgoes v root Hv Hr) as (t0 & pl & Hp & Hroot & Hplat).
      exists t0, pl. split; [exact Hp|]. split; [exact Hroot|]. split; [exact Hplat|]. split.
      * assert (Hcap : (0 < Toolchain.capacity pl)%nat).
        { destruct (toolchain_prefix_plan _ _ _ _ _ _ Hp) as (Hpar & _).
          unfold Toolchain.capacity. rewrite Hpar. lia. }
        destruct (ToolchainMoreFacts.tc_drive_returns W pl
                    (ToolchainMore.measure W pl (Toolchain.init pl t0)) (Toolchain.init pl t0)
                    (ToolchainFacts.Inv_init W pl t0) (ToolchainMoreFacts.Inv2_init W pl t0)
                    Hcap) as (s & r & Hrun & Hret); [lia|].
        exists (ToolchainMore.drive W pl (ToolchainMore.measure W pl (Toolchain.init pl t0))
                  (Toolchain.init pl t0)), (Toolchain.st_trace s), r.
        unfold Toolchain.mainBuildToolchain. rewrite Hp, Hrun, Hret. reflexivity.
      * intros sched t r. unfold Toolchain.mainBuildToolchain. rewrite Hp.
        destruct (Toolchain.run W pl sched _) as [s|] eqn:Hrun; [|discriminate].
        destruct (Toolchain.st_main s) as [| | | |r0] eqn:Hm; try discriminate.
        intros H. injection H as <- _. intros i Hi. rewrite <- Hplat in Hi.
        exact (toolchain_returned_built W requested pf verbose_mode t0 pl sched s r0 i
                 Hp Hrun Hm Hi).
Qed.

Lemma C10_version_short_circuit_witness :
  (forall sched,
     Toolchain.mainBuildToolchain
       (world (flags_with true false 4 []) [1; 5; 0] [linux_amd64] compile_ok script_ok)
       4 no_filter false sched
     = Returned short_circuit_trace None) /\
  (exists t,
     Toolchain.mainBuildToolchain c10_world 4 no_filter false c10_sched = Returned t None /\
     In (EvGo 0) t /\
     starts_by 0 t = [("/go/src/make.bash", "/go/src")]).
Proof.
  split.
  - apply (proj1 (proj2 (C10_version_short_circuit
             (world (flags_with true false 4 []) [1; 5; 0] [linux_amd64] compile_ok script_ok)
             4 no_filter false "/usr/bin/go" 1 5 [0] eq_refl eq_refl))).
    lia.
  - destruct (proj2 (proj2 (proj2 (proj2 (C10_version_short_circuit c10_world 4 no_filter
                false "/usr/bin/go" 2 0 [] eq_refl eq_refl)) ltac:(lia)))
                "go1.4.2" "/go" eq_refl eq_refl)
      as (t0 & pl & _ & Hroot & _ & _ & Hbuilt).
    destruct (Toolchain.mainBuildToolchain c10_world 4 no_filter false c10_sched)
      as [t r|t m|] eqn:Hrun; try (vm_compute in Hrun; discriminate Hrun).
    assert (Hr : r = None).
    { vm_compute in Hrun. injection Hrun as _ <-. reflexivity. }
    subst r. exists t. split; [reflexivity|].
    destruct (Hbuilt c10_sched t None Hrun 0%nat) as [Hgo Hstart]; [cbn; lia|].
    split; [exact Hgo|]. rewrite Hstart.
    unfold Toolchain.scriptPath, Toolchain.scriptDir. rewrite Hroot. reflexivity.
Defined.

(** * A semaphore that cannot be made *)

(** X19: a [-parallel] value beyond what the runtime accepts for a
    channel makes [CrossCompile] panic. When the sequential part gets as
    far as the fan-out (flags parsed, no [-build-toolchain], the go
    command found, the version read, no [-osarch-list], the units found,
    at least one platform) and the effective parallelism exceeds the
    largest channel capacity, [make(chan int, parallel)] panics after the
    line with the number of parallel builds is printed, under every
    schedule: no goroutine is started, nothing is compiled. *)
Theorem dispatch_makechan_panics W f go version dirs sched :
  flags_Parse W = (f, None) ->
  buildToolchain f = false ->
  exec_LookPath W (flagGoCmd f) = (go, None) ->
  GoVersion W = (version, None) ->
  flagListOSArch f = false ->
  GoMainDirs W (if (length (flag_Args f) =? 0)%nat then ["."] else flag_Args f)
             (flagGoCmd f) = (dirs, None) ->
  Platforms W (platformFlag f) (SupportedPlatforms W version) <> [] ->
  Z.pos (runtime_makechan_max W)
    < resolveParallel (parallel f) (runtime_NumCPU W) (runtime_GOOS W) ->
  Dispatcher.CrossCompile W sched
  = Panicked (no_platform_trace f version ++
              [Stdout ("Number of parallel builds: " +:+
                       fmt_d (resolveParallel (parallel f) (runtime_NumCPU W) (runtime_GOOS W))
                       +:+ nl +:+ nl)])
             "makechan: size out of range".
Proof.
  intros Hp Hb Hl Hv Hlist Hd Hpl Hbig.
  unfold Dispatcher.CrossCompile, Dispatcher.prefix.
  rewrite Hp, Hb, Hl, Hv, Hlist. cbn. rewrite Hd. cbn.
  destruct (Platforms W (platformFlag f) (SupportedPlatforms W version)) as [|p0 ps];
    [congruence|]. cbn.
  assert (Hok : Dispatcher.makechan_ok W
                  (resolveParallel (parallel f) (runtime_NumCPU W) (runtime_GOOS W)) = false).
  { unfold Dispatcher.makechan_ok. apply andb_false_iff. right. apply Z.leb_gt. exact Hbig. }
  rewrite Hok. reflexivity.
Qed.

Lemma dispatch_makechan_panics_witness :
  Dispatcher.CrossCompile world_huge_parallel sched_1x1
  = Panicked [EvLookPath "go"; EvGoVersion; EvGoMainDirs; EvPlatforms "go1.4.2";
              Stdout ("Number of parallel builds: 9223372036854775807" +:+ nl +:+ nl)]
             "makechan: size out of range".
Proof.
  apply (dispatch_makechan_panics world_huge_parallel
           (flags_with false false 9223372036854775807 ["a"])
           "/usr/bin/go" "go1.4.2" ["a"] sched_1x1); try reflexivity.
  discriminate.
Defined.
